(** * The schema tree model of the tracker prompt maker

    A shallow embedding of the [TrackerPromptMaker] class (the in-memory
    schema tree, its mutators, the example-round synchronisation and the
    load path) together with the properties the specification states
    about it.

    Modelling conventions.
    - A JavaScript object used as a mapping is an association list in
      property order; assignment to an existing key replaces in place,
      assignment to a new key appends.  The engine's special ordering of
      integer-like keys and the [__proto__] key are outside the model.
    - A field record read from storage may lack attributes, so every
      attribute is optional; records written by [addField] carry all of
      them.
    - Objects that are shared between the component and its callers (the
      backend object handed to the save callback, the stored object given
      to the loader) live in a heap and are named by a location.  A
      reference to a [nestedFields] object inside the backend object is the
      path of field ids leading to it.
    - Numbers are exact integers ([Z]); this agrees with the engine's
      doubles below 2^53.  Strings are sequences of one-byte characters.
    - Of the DOM only the lookups by field id are modelled
      ([this.element.find] with the id spliced into an attribute
      selector), because a lookup can raise and so cut a call short.  The
      selector engine is not among the sources; [Jq.find_raises] states
      the part of its grammar that matters here: a double quote inside the
      id ends the quoted attribute value early and the rest fails to
      parse.  Ids with a backslash, and ids whose text after a double
      quote completes a selector of its own, are outside the model
      ([Jq.settled] keeps them out), and so are integer-like ids and
      [__proto__]; the theorems that depend on it keep all of them out by
      [plain_id].
    - An exception of either kind (a [TypeError] of the engine, the syntax
      error of a lookup) is the one completion [Throws]: no code here tells
      them apart.
    - [exampleValues] is absent, an array of strings, or a value that can
      neither be measured nor spread; strings and falsy values other than
      [undefined] and [null] are outside the model.
    - [fieldData] is passed by value; what [addField] writes into it is
      part of the result of the call.
    - [updateExampleValue], which writes one slot of one array, is left
      out. *)

From Stdlib Require Import ZArith Ascii String.
From stdpp Require Import gmap strings list.

#[local] Set Warnings "-register-all".
#[local] Open Scope Z_scope.

(** ** Strings and numbers as the engine treats them *)

Module Js.

Definition quote : ascii := ascii_of_nat 34.
Definition dash : ascii := ascii_of_nat 45.
Definition backslash : ascii := ascii_of_nat 92.
Definition rbracket : ascii := ascii_of_nat 93.
Definition plus : ascii := ascii_of_nat 43.

(** [s.includes(c)] for a one-character needle. *)
Fixpoint includes (c : ascii) (s : string) : bool :=
  match s with
  | EmptyString => false
  | String c' r => if decide (c' = c) then true else includes c r
  end.

(** [s.split(sep)] for a one-character separator. *)
Fixpoint split (sep : ascii) (s : string) : list string :=
  match s with
  | EmptyString => [EmptyString]
  | String c r =>
      if decide (c = sep) then EmptyString :: split sep r
      else match split sep r with
           | seg :: segs => String c seg :: segs
           | [] => [String c EmptyString]
           end
  end.

(** White space skipped by [parseInt] (the characters below 256). *)
Definition is_white_space (c : ascii) : bool :=
  let n := nat_of_ascii c in
  bool_decide (n = 9 ∨ n = 10 ∨ n = 11 ∨ n = 12 ∨ n = 13 ∨ n = 32 ∨ n = 160)%nat.

Fixpoint trim_start (s : string) : string :=
  match s with
  | String c r => if is_white_space c then trim_start r else s
  | EmptyString => s
  end.

(** Value of a character as a digit in the given radix. *)
Definition digit_value (radix : N) (c : ascii) : option N :=
  let n := N_of_ascii c in
  let v :=
    if ((48 <=? n) && (n <=? 57))%N then Some (n - 48)%N
    else if ((97 <=? n) && (n <=? 122))%N then Some (n - 87)%N
    else if ((65 <=? n) && (n <=? 90))%N then Some (n - 55)%N
    else None in
  match v with
  | Some d => if (d <? radix)%N then Some d else None
  | None => None
  end.

(** The longest prefix of digits, read left to right; [None] when the
    prefix is empty. *)
Fixpoint parse_digits (radix : N) (s : string) (acc : option N) : option N :=
  match s with
  | String c r =>
      match digit_value radix c with
      | Some d => parse_digits radix r (Some (radix * default 0%N acc + d)%N)
      | None => acc
      end
  | EmptyString => acc
  end.

(** [parseInt(s)] without a radix argument; [None] stands for [NaN], and
    an [undefined] argument (whose string form has no digit) gives
    [NaN]. *)
Definition parseInt (arg : option string) : option Z :=
  match arg with
  | None => None
  | Some s =>
      let s := trim_start s in
      let '(sign, s) :=
        match s with
        | String c r =>
            if decide (c = dash) then (-1, r)
            else if decide (c = plus) then (1, r)
            else (1, s)
        | EmptyString => (1, s)
        end in
      let '(radix, s) :=
        match s with
        | String c0 (String cx r) =>
            if decide (nat_of_ascii c0 = 48%nat
                       ∧ (nat_of_ascii cx = 120%nat ∨ nat_of_ascii cx = 88%nat))
            then (16%N, r) else (10%N, s)
        | _ => (10%N, s)
        end in
      match parse_digits radix s None with
      | Some n => Some (sign * Z.of_N n)
      | None => None
      end
  end.

(** Decimal digits of a natural number, most significant first. *)
Fixpoint digits (fuel : nat) (n : N) (acc : string) : string :=
  let acc' := String (ascii_of_N (48 + n mod 10)) acc in
  match fuel with
  | O => acc'
  | S fuel' => if (n <? 10)%N then acc' else digits fuel' (n / 10) acc'
  end.

(** The string form of an integer, as a template literal renders it. *)
Definition number_to_string (z : Z) : string :=
  let n := Z.abs_N z in
  let d := digits (N.to_nat (N.log2 n)) n EmptyString in
  if z <? 0 then String dash d else d.

End Js.

(** ** Lookups in the document *)

Module Jq.

(** Whether [this.element.find] raises on a selector that starts with
    [[data-field-id=<quote>fieldId<quote>]]: a double quote inside
    [fieldId] closes the attribute value early, and the text after it does
    not continue the selector. *)
Definition find_raises (fieldId : string) : bool :=
  Js.includes Js.quote fieldId.

(** The ids for which this settles the lookup: those without a backslash,
    which would escape the character after it, and without a closing
    bracket next to a double quote, which could complete a selector inside
    the id. *)
Definition settled (fieldId : string) : bool :=
  negb (Js.includes Js.backslash fieldId)
  && negb (Js.includes Js.quote fieldId && Js.includes Js.rbracket fieldId).

End Jq.

(** ** Data model *)

(** How a call completes: normally with a value, or by raising an
    exception. *)
Inductive completion (A : Type) : Type :=
| Normal (a : A)
| Throws.
Arguments Normal {A} a.
Arguments Throws {A}.

(** The value of the [exampleValues] attribute: absent (or [null], which
    every function here treats alike), an array of strings, or a value that
    is truthy, has no [length] and cannot be spread (a non-zero number,
    [true], an object without [length]). *)
Inductive examples : Type :=
| EVundefined
| EVarray (l : list string)
| EVnoniterable.

(** The value of the [nestedFields] attribute: absent, [null], a number, or
    a mapping from field ids to field records. *)
Inductive nested (F : Type) : Type :=
| NFundefined
| NFnull
| NFnumber (n : Z)
| NFobject (m : list (string * F)).
Arguments NFundefined {F}.
Arguments NFnull {F}.
Arguments NFnumber {F} n.
Arguments NFobject {F} m.

Inductive field : Type := Field {
  name : option string;
  type : option string;
  isDynamic : option bool;
  prompt : option string;
  defaultValue : option string;
  exampleValues : examples;
  nestedFields : nested field }.

(** A mapping from field ids to field records. *)
Abbreviation fields := (list (string * field)).

(** Structural induction that reaches the fields nested in a record. *)
Section field_induction.
Variable P : field → Prop.
Hypothesis step : ∀ n t d p v ev nf,
  (∀ m, nf = NFobject m → Forall (λ kv, P kv.2) m) →
  P (Field n t d p v ev nf).

Fixpoint field_nested_ind (f : field) : P f :=
  match f with
  | Field n t d p v ev nf =>
      step n t d p v ev nf
        (match nf as nf0
               return ∀ m, nf0 = NFobject m → Forall (λ kv, P kv.2) m with
         | NFobject m0 =>
             λ m E,
               match E in _ = y
                     return match y with
                            | NFobject m' => Forall (λ kv, P kv.2) m'
                            | _ => True
                            end with
               | eq_refl =>
                   (fix go (l : fields) : Forall (λ kv, P kv.2) l :=
                      match l with
                      | [] => @List.Forall_nil _ _
                      | kv :: r =>
                          @List.Forall_cons _ _ kv r (field_nested_ind kv.2) (go r)
                      end) m0
               end
         | _ => λ m E, ltac:(discriminate E)
         end)
  end.
End field_induction.

(** *** Objects as ordered mappings *)

Section objects.
Context {V : Type}.

(** [m[k]] *)
Fixpoint obj_get (k : string) (m : list (string * V)) : option V :=
  match m with
  | [] => None
  | (k', v) :: r => if decide (k = k') then Some v else obj_get k r
  end.

(** [m[k] = v] *)
Fixpoint obj_set (k : string) (v : V) (m : list (string * V)) : list (string * V) :=
  match m with
  | [] => [(k, v)]
  | (k', v') :: r =>
      if decide (k = k') then (k, v) :: r else (k', v') :: obj_set k v r
  end.

(** In-place update of the value stored under [k], when there is one. *)
Fixpoint obj_alter (g : V → V) (k : string) (m : list (string * V)) : list (string * V) :=
  match m with
  | [] => []
  | (k', v') :: r =>
      if decide (k = k') then (k', g v') :: r else (k', v') :: obj_alter g k r
  end.

(** [delete m[k]] *)
Fixpoint obj_delete (k : string) (m : list (string * V)) : list (string * V) :=
  match m with
  | [] => []
  | (k', v') :: r =>
      if decide (k = k') then obj_delete k r else (k', v') :: obj_delete k r
  end.

(** [Object.keys(m)] *)
Definition obj_keys (m : list (string * V)) : list string := m.*1.
End objects.

(** *** References into the backend object *)

(** The [nestedFields] mapping of a record, when it is one. *)
Definition nested_obj (f : field) : option fields :=
  match nestedFields f with
  | NFobject m => Some m
  | _ => None
  end.

Definition set_nestedFields (nf : nested field) (f : field) : field :=
  Field (name f) (type f) (isDynamic f) (prompt f) (defaultValue f)
        (exampleValues f) nf.

Definition set_exampleValues (ev : examples) (f : field) : field :=
  Field (name f) (type f) (isDynamic f) (prompt f) (defaultValue f)
        ev (nestedFields f).

(** The mapping a path of field ids refers to: the empty path is the root
    mapping, and [p ++ [id]] is [nestedFields] of the record [id] of the
    mapping at [p]. *)
Fixpoint resolve (p : list string) (m : fields) : option fields :=
  match p with
  | [] => Some m
  | id :: q =>
      match obj_get id m with
      | Some f =>
          match nested_obj f with
          | Some n => resolve q n
          | None => None
          end
      | None => None
      end
  end.

(** The record [parentObject[fieldId]] for [parentObject] at path [p]. *)
Definition get_field (p : list string) (fieldId : string) (m : fields) : option field :=
  match resolve p m with
  | Some n => obj_get fieldId n
  | None => None
  end.

(** The root mapping after the mapping at path [p] was mutated by [g].  A
    path that leads to no mapping stands for no reference of the program,
    and leaves the root as it is. *)
Fixpoint update_at (p : list string) (g : fields → fields) (m : fields) : fields :=
  match p with
  | [] => g m
  | id :: q =>
      obj_alter
        (λ f, match nestedFields f with
              | NFobject n => set_nestedFields (NFobject (update_at q g n)) f
              | _ => f
              end)
        id m
  end.

(** *** Loops that an exception can leave *)

Section loops.
Context {S A V : Type}.

(** [l.forEach(body)] over a state [S]: the first exception ends the
    loop and keeps the state reached so far. *)
Fixpoint forEach (body : A → S → S * completion unit) (l : list A) (s : S)
  : S * completion unit :=
  match l with
  | [] => (s, Normal tt)
  | x :: r =>
      match body x s with
      | (s1, Normal _) => forEach body r s1
      | (s1, Throws) => (s1, Throws)
      end
  end.

(** [Object.entries(m).forEach(body)] where [body] may also mutate the
    value it visits; the mapping is returned with the mutations made up to
    the point where the loop ended. *)
Fixpoint forEachEntry (body : string → V → S → S * V * completion unit)
    (m : list (string * V)) (s : S) : S * list (string * V) * completion unit :=
  match m with
  | [] => (s, [], Normal tt)
  | (k, v) :: r =>
      match body k v s with
      | (s1, v1, Normal _) =>
          let '(s2, r2, c) := forEachEntry body r s1 in (s2, (k, v1) :: r2, c)
      | (s1, v1, Throws) => (s1, (k, v1) :: r, Throws)
      end
  end.
End loops.

(** ** The component: static tables *)

Definition FIELD_TYPES : list (string * string) :=
  [("STRING", "String"); ("ARRAY", "Array"); ("OBJECT", "Object");
   ("FOR_EACH_OBJECT", "For Each Object"); ("ARRAY_OBJECT", "Array Object")]%string.

Definition NESTING_FIELD_TYPES : list string :=
  ["OBJECT"; "FOR_EACH_OBJECT"; "ARRAY_OBJECT"]%string.

(** [TrackerPromptMaker.FIELD_TYPES.STRING] *)
Definition FIELD_TYPES_STRING : string :=
  default EmptyString (obj_get "STRING"%string FIELD_TYPES).

(** The [value] attributes of the options of the type selector, which are
    what [selectFieldType] receives from the change event. *)
Definition type_option_values : list string := obj_keys FIELD_TYPES.

(** [NESTING_FIELD_TYPES.includes(t)], for a possibly absent [t]. *)
Definition isNestingType (t : option string) : bool :=
  match t with
  | Some t => bool_decide (t ∈ NESTING_FIELD_TYPES)
  | None => false
  end.

(** [x || d] on an optional string: absent and empty are both falsy. *)
Definition or_default (x : option string) (d : string) : string :=
  match x with
  | Some (String _ _ as s) => s
  | _ => d
  end.

(** A field id that is neither absent nor empty. *)
Definition truthy_id (fieldId : option string) : option string :=
  match fieldId with
  | Some (String _ _ as s) => Some s
  | _ => None
  end.

(** ** The component: building the tree *)

(** The record [addField] stores for [fieldData] whose example values are
    [l]. *)
Definition new_record (fieldData : field) (l : list string) : field :=
  {| name := Some (or_default (name fieldData) EmptyString);
     type := Some (or_default (type fieldData) FIELD_TYPES_STRING);
     isDynamic := Some (default true (isDynamic fieldData));
     prompt := Some (or_default (prompt fieldData) EmptyString);
     defaultValue := Some (or_default (defaultValue fieldData) EmptyString);
     exampleValues := EVarray l;
     nestedFields := NFobject [] |}.

(** The id [addField] uses and the field counter it leaves. *)
Definition choose_id (fieldId : option string) (fieldCounter : Z) : string * Z :=
  match truthy_id fieldId with
  | None =>
      (String.append "field-" (Js.number_to_string fieldCounter), fieldCounter + 1)
  | Some id =>
      (id,
       match Js.parseInt (Js.split Js.dash id !! 1%nat) with
       | Some idNum => if fieldCounter <=? idNum then idNum + 1 else fieldCounter
       | None => fieldCounter
       end)
  end.

(** [fieldData] after the block that fills an absent [exampleValues]. *)
Definition fill_examples (exampleCounter : Z) (fieldData : field) : field :=
  match exampleValues fieldData with
  | EVundefined =>
      set_exampleValues
        (EVarray (replicate (Z.to_nat exampleCounter) EmptyString)) fieldData
  | _ => fieldData
  end.

(** [addExampleValue(fieldId, parentObject, exampleValue, pushToBackend)]:
    the length of the array is read, the container of the field is looked
    up, and then the value is pushed when [pushToBackend] is set. *)
Definition addExampleValue (fieldId : string) (parentObject : list string)
    (exampleValue : string) (pushToBackend : bool) (backend : fields)
  : fields * completion unit :=
  match get_field parentObject fieldId backend with
  | None => (backend, Throws)
  | Some f =>
      match exampleValues f with
      | EVundefined => (backend, Throws)
      | ev =>
          if Jq.find_raises fieldId then (backend, Throws)
          else if pushToBackend then
            match ev with
            | EVarray l =>
                (update_at parentObject
                   (obj_alter (set_exampleValues (EVarray (l ++ [exampleValue])))
                              fieldId)
                   backend,
                 Normal tt)
            | _ => (backend, Throws)
            end
          else (backend, Normal tt)
      end
  end.

(** The loop of [addField] over the example values of the field it has
    stored: [addExampleValue(fieldId, parentObject, exampleValue, false)]
    for each of them. *)
Definition populate_examples (fieldId : string) (parentObject : list string)
    (l : list string) (backend : fields) : fields * completion unit :=
  forEach (λ exampleValue, addExampleValue fieldId parentObject exampleValue false)
          l backend.

(** The lookup of the wrapper of the parent field, made when
    [parentFieldId] is neither absent nor empty. *)
Definition find_parent_raises (parentFieldId : option string) : bool :=
  match truthy_id parentFieldId with
  | Some id => Jq.find_raises id
  | None => false
  end.

(** [addField(parentObject, parentFieldId, fieldData, fieldId)] on the
    backend object and the field counter.  [parentObject] is the path of the
    mapping the field goes into (the empty path for [null], which selects
    the backend object itself).  The result carries the state reached,
    [fieldData] as the call leaves it, and how the call completed.  The
    lookup of the parent's wrapper and the spreading of a value that is not
    iterable raise before the record is stored; showing the example values
    and building the nested fields come after it. *)
Fixpoint addField (exampleCounter : Z) (parentObject : list string)
    (parentFieldId : option string) (fieldData : field)
    (fieldId : option string) (st : fields * Z)
    {struct fieldData} : (fields * Z) * field * completion unit :=
  let '(fieldId, fieldCounter) := choose_id fieldId st.2 in
  let fieldData1 := fill_examples exampleCounter fieldData in
  if find_parent_raises parentFieldId then
    ((st.1, fieldCounter), fieldData1, Throws)
  else
    match exampleValues fieldData1 with
    | EVarray l =>
        let backend :=
          update_at parentObject (obj_set fieldId (new_record fieldData l)) st.1 in
        match populate_examples fieldId parentObject l backend with
        | (backend, Throws) => ((backend, fieldCounter), fieldData1, Throws)
        | (backend, Normal _) =>
            match nestedFields fieldData with
            | NFobject ((_ :: _) as m) =>
                let '(st', m', c) :=
                  forEachEntry
                    (λ nestedFieldId nestedFieldData,
                       addField exampleCounter (parentObject ++ [fieldId])
                                (Some fieldId) nestedFieldData (Some nestedFieldId))
                    m (backend, fieldCounter) in
                (st', set_nestedFields (NFobject m') fieldData1, c)
            | _ => ((backend, fieldCounter), fieldData1, Normal tt)
            end
        end
    | _ => ((st.1, fieldCounter), fieldData1, Throws)
    end.

(** [buildFieldsFromObject(obj, null, null)] *)
Definition buildFieldsFromObject (exampleCounter : Z) (obj : fields)
    (st : fields * Z) : (fields * Z) * fields * completion unit :=
  forEachEntry
    (λ fieldId fieldData, addField exampleCounter [] None fieldData (Some fieldId))
    obj st.

(** ** The component: the two passes of the loader *)

(** The body of [collectExampleCount] for one record: reading [length] of
    an absent [exampleValues] raises. *)
Fixpoint collectExampleCount_field (f : field) (exampleCounter : Z)
    {struct f} : Z * completion unit :=
  match exampleValues f with
  | EVundefined => (exampleCounter, Throws)
  | ev =>
      let c1 :=
        match ev with
        | EVarray l =>
            if exampleCounter <? Z.of_nat (length l) then Z.of_nat (length l)
            else exampleCounter
        | _ => exampleCounter
        end in
      match nestedFields f with
      | NFobject ((_ :: _) as m) =>
          forEach (λ kv, collectExampleCount_field kv.2) m c1
      | _ => (c1, Normal tt)
      end
  end.

Definition collectExampleCount (obj : fields) (exampleCounter : Z)
  : Z * completion unit :=
  forEach (λ kv, collectExampleCount_field kv.2) obj exampleCounter.

(** [while (a.length < c) a.push(empty)] *)
Definition pad (exampleCounter : Z) (l : list string) : list string :=
  l ++ replicate (Z.to_nat (exampleCounter - Z.of_nat (length l))) EmptyString.

(** The body of [normalizeExampleCount] for one record; the record is
    mutated in place, so the result is the record as the call leaves it. *)
Fixpoint normalizeExampleCount_field (exampleCounter : Z) (f : field)
    {struct f} : field * completion unit :=
  match exampleValues f with
  | EVundefined => (f, Throws)
  | ev =>
      let f1 :=
        match ev with
        | EVarray l => set_exampleValues (EVarray (pad exampleCounter l)) f
        | _ => f
        end in
      match nestedFields f with
      | NFobject ((_ :: _) as m) =>
          let '(_, m', c) :=
            forEachEntry
              (λ _ g (_ : unit),
                 let '(g', c) := normalizeExampleCount_field exampleCounter g in
                 (tt, g', c))
              m tt in
          (set_nestedFields (NFobject m') f1, c)
      | _ => (f1, Normal tt)
      end
  end.

Definition normalizeExampleCount (exampleCounter : Z) (obj : fields)
  : fields * completion unit :=
  let '(_, obj', c) :=
    forEachEntry
      (λ _ g (_ : unit),
         let '(g', c) := normalizeExampleCount_field exampleCounter g in
         (tt, g', c))
      obj tt in
  (obj', c).

(** ** The component: mutators of one field *)

Definition set_name (x : string) (f : field) : field :=
  Field (Some x) (type f) (isDynamic f) (prompt f) (defaultValue f)
        (exampleValues f) (nestedFields f).
Definition set_type (x : string) (f : field) : field :=
  Field (name f) (Some x) (isDynamic f) (prompt f) (defaultValue f)
        (exampleValues f) (nestedFields f).
Definition set_isDynamic (x : bool) (f : field) : field :=
  Field (name f) (type f) (Some x) (prompt f) (defaultValue f)
        (exampleValues f) (nestedFields f).
Definition set_prompt (x : string) (f : field) : field :=
  Field (name f) (type f) (isDynamic f) (Some x) (defaultValue f)
        (exampleValues f) (nestedFields f).
Definition set_defaultValue (x : string) (f : field) : field :=
  Field (name f) (type f) (isDynamic f) (prompt f) (Some x)
        (exampleValues f) (nestedFields f).

(** [parentObject[fieldId].attr = x]: raises when [parentObject] has no
    such record. *)
Definition assign (g : field → field) (fieldId : string)
    (parentObject : list string) (backend : fields) : fields * completion unit :=
  match get_field parentObject fieldId backend with
  | Some _ => (update_at parentObject (obj_alter g fieldId) backend, Normal tt)
  | None => (backend, Throws)
  end.

Definition validateFieldName (newName : string) (fieldId : string)
    (parentObject : list string) (backend : fields) : fields * completion bool :=
  if Js.includes Js.quote newName then (backend, Normal false)
  else
    match assign (set_name newName) fieldId parentObject backend with
    | (backend', Normal _) => (backend', Normal true)
    | (backend', Throws) => (backend', Throws)
    end.

(** The type is assigned before the wrapper of the field is looked up. *)
Definition selectFieldType (newType : string) (fieldId : string)
    (parentObject : list string) (backend : fields) : fields * completion unit :=
  match assign (set_type newType) fieldId parentObject backend with
  | (backend', Normal _) =>
      if Jq.find_raises fieldId then (backend', Throws) else (backend', Normal tt)
  | (backend', Throws) => (backend', Throws)
  end.

Definition toggleStaticDynamic (dynamic : bool) (fieldId : string)
    (parentObject : list string) (backend : fields) : fields * completion unit :=
  assign (set_isDynamic dynamic) fieldId parentObject backend.

Definition updatePrompt (promptText : string) (fieldId : string)
    (parentObject : list string) (backend : fields) : fields * completion unit :=
  assign (set_prompt promptText) fieldId parentObject backend.

Definition updateDefaultValue (value : string) (fieldId : string)
    (parentObject : list string) (backend : fields) : fields * completion unit :=
  assign (set_defaultValue value) fieldId parentObject backend.

(** ** The component: example rounds *)

(** The flat array [allFields]: every record of the tree as the pair of
    the path of its parent mapping and its id, parents before children. *)
Fixpoint collectAllFields_field (parentObject : list string) (fieldId : string)
    (f : field) {struct f} : list (list string * string) :=
  (parentObject, fieldId) ::
  match nestedFields f with
  | NFobject ((_ :: _) as m) =>
      flat_map (λ kv, collectAllFields_field (parentObject ++ [fieldId]) kv.1 kv.2) m
  | _ => []
  end.

Definition collectAllFields (parentObject : list string) (m : fields)
  : list (list string * string) :=
  flat_map (λ kv, collectAllFields_field parentObject kv.1 kv.2) m.

(** The body of the loop of [removeExampleValueFromAllFields]: the last
    value of a non-empty array is removed, then its container is looked
    up. *)
Definition removeLastExampleValue (fieldId : string) (parentObject : list string)
    (backend : fields) : fields * completion unit :=
  match get_field parentObject fieldId backend with
  | None => (backend, Throws)
  | Some f =>
      match exampleValues f with
      | EVarray ((_ :: _) as l) =>
          let backend' :=
            update_at parentObject
              (obj_alter (set_exampleValues (EVarray (removelast l))) fieldId)
              backend in
          if Jq.find_raises fieldId then (backend', Throws)
          else (backend', Normal tt)
      | _ => (backend, Normal tt)
      end
  end.

(** The two round operations on the backend object and the example
    counter, up to the point where the save callback is invoked. *)
Definition addExampleValueToAllFields (st : fields * Z)
  : (fields * Z) * completion unit :=
  let allFields := collectAllFields [] st.1 in
  match forEach (λ r, addExampleValue r.2 r.1 EmptyString true) allFields st.1 with
  | (backend, Normal _) => ((backend, st.2 + 1), Normal tt)
  | (backend, Throws) => ((backend, st.2), Throws)
  end.

Definition removeExampleValueFromAllFields (st : fields * Z)
  : (fields * Z) * completion unit :=
  let allFields := collectAllFields [] st.1 in
  match forEach (λ r, removeLastExampleValue r.2 r.1) allFields st.1 with
  | (backend, Normal _) => ((backend, st.2 - 1), Normal tt)
  | (backend, Throws) => ((backend, st.2), Throws)
  end.

(** ** The component as an object in a heap *)

Definition loc := positive.

(** The heap of shared objects, the attributes of the instance, and the
    arguments the save callback has received, most recent first. *)
Record state : Type := State {
  heap : gmap loc fields;
  backendObject : loc;
  fieldCounter : Z;
  exampleCounter : Z;
  saved : list loc }.

(** What a call of the loader reports to the user. *)
Inductive load_report : Type :=
| Populated
| FailedToLoad.

Module TrackerPromptMaker.

(** The mapping [this.backendObject] refers to. *)
Definition backend (s : state) : fields := heap s !!! backendObject s.

Definition set_backend (m : fields) (s : state) : state :=
  State (<[backendObject s := m]> (heap s)) (backendObject s)
        (fieldCounter s) (exampleCounter s) (saved s).

Definition triggerSaveCallback (s : state) : state :=
  State (heap s) (backendObject s) (fieldCounter s) (exampleCounter s)
        (backendObject s :: saved s).

Definition syncBackendObject (s : state) : state := triggerSaveCallback s.

(** A call that works on the backend object alone. *)
Definition on_backend {A} (op : fields → fields * completion A) (s : state)
  : state * completion A :=
  let '(m, c) := op (backend s) in (set_backend m s, c).

Definition addField (parentObject : list string)
    (parentFieldId : option string) (fieldData : field)
    (fieldId : option string) (s : state) : state * completion unit :=
  let '(st, _, c) :=
    addField (exampleCounter s) parentObject parentFieldId fieldData fieldId
             (backend s, fieldCounter s) in
  (State (<[backendObject s := st.1]> (heap s)) (backendObject s) st.2
         (exampleCounter s) (saved s),
   c).

(** [removeField]; [confirmed] is the answer of the confirmation dialog. *)
Definition removeField (fieldId : string) (parentObject : list string)
    (confirmed : bool) (s : state) : state :=
  if confirmed then
    syncBackendObject
      (set_backend (update_at parentObject (obj_delete fieldId) (backend s)) s)
  else s.

Definition validateFieldName (newName fieldId : string)
    (parentObject : list string) : state → state * completion bool :=
  on_backend (validateFieldName newName fieldId parentObject).

Definition selectFieldType (newType fieldId : string)
    (parentObject : list string) : state → state * completion unit :=
  on_backend (selectFieldType newType fieldId parentObject).

Definition toggleStaticDynamic (dynamic : bool) (fieldId : string)
    (parentObject : list string) : state → state * completion unit :=
  on_backend (toggleStaticDynamic dynamic fieldId parentObject).

Definition updatePrompt (promptText fieldId : string)
    (parentObject : list string) : state → state * completion unit :=
  on_backend (updatePrompt promptText fieldId parentObject).

Definition updateDefaultValue (value fieldId : string)
    (parentObject : list string) : state → state * completion unit :=
  on_backend (updateDefaultValue value fieldId parentObject).

Definition addExampleValueToAllFields (s : state) : state * completion unit :=
  let '(st, c) := addExampleValueToAllFields (backend s, exampleCounter s) in
  let s' := State (<[backendObject s := st.1]> (heap s)) (backendObject s)
                  (fieldCounter s) st.2 (saved s) in
  match c with
  | Normal _ => (syncBackendObject s', Normal tt)
  | Throws => (s', Throws)
  end.

Definition removeExampleValueFromAllFields (s : state) : state * completion unit :=
  let '(st, c) := removeExampleValueFromAllFields (backend s, exampleCounter s) in
  let s' := State (<[backendObject s := st.1]> (heap s)) (backendObject s)
                  (fieldCounter s) st.2 (saved s) in
  match c with
  | Normal _ => (syncBackendObject s', Normal tt)
  | Throws => (s', Throws)
  end.

(** [populateFromExistingObject(existingObject)].  The reset allocates a
    new backend object; the two passes run on the caller's object, which
    the second pass mutates; then the fields are built.  An exception
    anywhere is caught and reported, and the state it interrupted stays. *)
Definition populateFromExistingObject (existingObject : loc) (s : state)
  : state * load_report :=
  let fresh_loc := fresh (dom (heap s)) in
  let heap1 := <[fresh_loc := []]> (heap s) in
  let obj := heap1 !!! existingObject in
  match collectExampleCount obj 0 with
  | (c, Throws) => (State heap1 fresh_loc 0 c (saved s), FailedToLoad)
  | (c, Normal _) =>
      match normalizeExampleCount c obj with
      | (obj1, Throws) =>
          (State (<[existingObject := obj1]> heap1) fresh_loc 0 c (saved s),
           FailedToLoad)
      | (obj1, Normal _) =>
          let '(st, obj2, r) := buildFieldsFromObject c obj1 ([], 0) in
          (State (<[fresh_loc := st.1]> (<[existingObject := obj2]> heap1))
                 fresh_loc st.2 c (saved s),
           match r with
           | Normal _ => Populated
           | Throws => FailedToLoad
           end)
      end
  end.

(** [init(existingObject)] *)
Definition init (existingObject : loc) (s : state) : state :=
  match heap s !!! existingObject with
  | [] => s
  | _ :: _ => (populateFromExistingObject existingObject s).1
  end.

(** [new TrackerPromptMaker(existingObject, onTrackerPromptSave)] in a
    heap that holds [existingObject]. *)
Definition constructor (h : gmap loc fields) (existingObject : loc) : state :=
  let l := fresh (dom h) in
  init existingObject (State (<[l := []]> h) l 0 0 []).

(** [new TrackerPromptMaker()]: the default argument is a new empty
    object. *)
Definition constructor_default : state :=
  constructor {[ 1%positive := [] ]} 1%positive.

End TrackerPromptMaker.

(** ** Sequences of calls *)

(** The calls a user of the component can make.  [OpPopulate] hands the
    loader a newly parsed stored mapping. *)
Inductive op : Type :=
| OpAddField (parentObject : list string) (parentFieldId : option string)
             (fieldData : field) (fieldId : option string)
| OpRemoveField (fieldId : string) (parentObject : list string) (confirmed : bool)
| OpValidateFieldName (newName fieldId : string) (parentObject : list string)
| OpSelectFieldType (newType fieldId : string) (parentObject : list string)
| OpToggleStaticDynamic (dynamic : bool) (fieldId : string) (parentObject : list string)
| OpUpdatePrompt (promptText fieldId : string) (parentObject : list string)
| OpUpdateDefaultValue (value fieldId : string) (parentObject : list string)
| OpAddExampleValueToAllFields
| OpRemoveExampleValueFromAllFields
| OpPopulate (stored : fields).

(** A new object in the heap. *)
Definition alloc (m : fields) (s : state) : loc * state :=
  let l := fresh (dom (heap s)) in
  (l, State (<[l := m]> (heap s)) (backendObject s) (fieldCounter s)
            (exampleCounter s) (saved s)).

Definition step (o : op) (s : state) : state :=
  match o with
  | OpAddField p pf fd id => (TrackerPromptMaker.addField p pf fd id s).1
  | OpRemoveField id p ok => TrackerPromptMaker.removeField id p ok s
  | OpValidateFieldName x id p => (TrackerPromptMaker.validateFieldName x id p s).1
  | OpSelectFieldType x id p => (TrackerPromptMaker.selectFieldType x id p s).1
  | OpToggleStaticDynamic x id p => (TrackerPromptMaker.toggleStaticDynamic x id p s).1
  | OpUpdatePrompt x id p => (TrackerPromptMaker.updatePrompt x id p s).1
  | OpUpdateDefaultValue x id p => (TrackerPromptMaker.updateDefaultValue x id p s).1
  | OpAddExampleValueToAllFields => (TrackerPromptMaker.addExampleValueToAllFields s).1
  | OpRemoveExampleValueFromAllFields =>
      (TrackerPromptMaker.removeExampleValueFromAllFields s).1
  | OpPopulate stored =>
      let '(l, s1) := alloc stored s in
      (TrackerPromptMaker.populateFromExistingObject l s1).1
  end.

Definition run (ops : list op) (s : state) : state :=
  fold_left (λ s o, step o s) ops s.

(** ** Addresses of records *)

(** The record at an address, the list of ids from a root record down to
    it. *)
Fixpoint field_at (a : list string) (m : fields) : option field :=
  match a with
  | [] => None
  | k :: a' =>
      match obj_get k m with
      | Some f =>
          match a' with
          | [] => Some f
          | _ :: _ =>
              match nested_obj f with
              | Some n => field_at a' n
              | None => None
              end
          end
      | None => None
      end
  end.

(** The attributes of a record other than its nested fields. *)
Definition attributes (f : field)
  : option string * option string * option bool * option string
    * option string * examples :=
  (name f, type f, isDynamic f, prompt f, defaultValue f, exampleValues f).

(** ** States used as examples *)

(** A field without any attribute, as the default argument of [addField]
    is. *)
Definition empty_fieldData : field :=
  Field None None None None None EVundefined NFundefined.

(** A new component after one click on the button that adds a field. *)
Definition one_field_state : state :=
  (TrackerPromptMaker.addField [] None empty_fieldData None
     TrackerPromptMaker.constructor_default).1.

(** Whether a call is a load. *)
Definition is_populate (o : op) : bool :=
  match o with
  | OpPopulate _ => true
  | _ => false
  end.

(** ** Notions used to state the properties *)

(** A string of decimal digits. *)
Definition decimal_char (c : ascii) : bool :=
  ((48 <=? N_of_ascii c) && (N_of_ascii c <=? 57))%N.

Fixpoint all_decimal (s : string) : bool :=
  match s with
  | EmptyString => true
  | String c r => decimal_char c && all_decimal r
  end.

(** A key that the engine takes for an array index and lists before the
    other keys; every non-empty string of decimal digits is counted as
    one. *)
Definition integer_like (id : string) : bool :=
  match id with
  | EmptyString => false
  | String _ _ => all_decimal id
  end.

(** An id on which the lookups and the mappings of this model behave as
    those of the program: no double quote and no backslash, so that every
    lookup by this id is a selector that parses; not integer-like and not
    [__proto__], so that assignment under a new id appends an own
    property. *)
Definition plain_id (id : string) : bool :=
  negb (Js.includes Js.quote id)
  && negb (Js.includes Js.backslash id)
  && negb (integer_like id)
  && negb (bool_decide (id = "__proto__"%string)).

Definition plain_option (id : option string) : bool :=
  match id with
  | Some id => plain_id id
  | None => true
  end.

(** The number [addField] reads off a field id. *)
Definition id_number (fieldId : string) : option Z :=
  Js.parseInt (Js.split Js.dash fieldId !! 1%nat).

(** The number of the id, if any, is below the greatest integer up to
    which the engine's arithmetic is exact, so that adding one to it is
    exact too. *)
Definition safe_id (fieldId : string) : bool :=
  match id_number fieldId with
  | Some n => n <? 2 ^ 53 - 1
  | None => true
  end.

(** Every record of a tree with its id, parents before children. *)
Fixpoint records_of (f : field) : list (string * field) :=
  match nestedFields f with
  | NFobject m => flat_map (λ kv, kv :: records_of kv.2) m
  | _ => []
  end.

Definition all_records (m : fields) : list (string * field) :=
  flat_map (λ kv, kv :: records_of kv.2) m.

(** The ids that occur in a tree, at any depth. *)
Definition all_ids (m : fields) : list string := (all_records m).*1.

(** The tree with the example values of every record, at every depth,
    replaced by their image under [g]. *)
Fixpoint map_examples_field (g : examples → examples) (f : field) : field :=
  Field (name f) (type f) (isDynamic f) (prompt f) (defaultValue f)
        (g (exampleValues f))
        (match nestedFields f with
         | NFobject m => NFobject (map (λ kv, (kv.1, map_examples_field g kv.2)) m)
         | nf => nf
         end).

Definition map_examples (g : examples → examples) (m : fields) : fields :=
  map (λ kv, (kv.1, map_examples_field g kv.2)) m.

Definition pad_examples (c : Z) (ev : examples) : examples :=
  match ev with
  | EVarray l => EVarray (pad c l)
  | _ => ev
  end.

(** Some record of the tree, at some depth, has no [exampleValues]. *)
Fixpoint lacks_examples_field (f : field) : bool :=
  match exampleValues f with
  | EVundefined => true
  | _ =>
      match nestedFields f with
      | NFobject m => existsb (λ kv, lacks_examples_field kv.2) m
      | _ => false
      end
  end.

Definition lacks_examples (m : fields) : bool :=
  existsb (λ kv, lacks_examples_field kv.2) m.
(** What the first pass computes: it raises exactly when a record lacks
    its example values, and otherwise leaves the larger of the initial
    counter and the longest array. *)
Definition collect_spec (m : fields) (c c' : Z) (r : completion unit) : Prop :=
  c ≤ c'
  ∧ (r = Throws ↔ lacks_examples m = true)
  ∧ (r = Normal tt →
     (∀ kv l, kv ∈ all_records m → exampleValues kv.2 = EVarray l →
              Z.of_nat (length l) ≤ c')
     ∧ (c' = c ∨ ∃ kv l, kv ∈ all_records m ∧ exampleValues kv.2 = EVarray l
                          ∧ Z.of_nat (length l) = c')).


(** A well-formed tree whose records all satisfy [P]: at every depth the
    ids of a mapping are pairwise distinct, every record satisfies [P], and
    every record has a mapping for its nested fields. *)
Fixpoint field_ok (P : string → field → Prop) (k : string) (f : field) : Prop :=
  P k f
  ∧ match nestedFields f with
    | NFobject m =>
        NoDup m.*1 ∧ foldr (λ kv acc, field_ok P kv.1 kv.2 ∧ acc) True m
    | _ => False
    end.

Definition tree_ok (P : string → field → Prop) (m : fields) : Prop :=
  NoDup m.*1 ∧ Forall (λ kv, field_ok P kv.1 kv.2) m.

(** A property of a record that does not look at its nested fields. *)
Definition own_attributes (P : string → field → Prop) : Prop :=
  ∀ k f nf, P k f → P k (set_nestedFields nf f).

(** The ids [addField] can use when it is given the id [k]: [k] itself,
    or a generated id when [k] is empty. *)
Definition id_for (k id : string) : Prop :=
  match k with
  | EmptyString =>
      ∃ fieldCounter, id = String.append "field-" (Js.number_to_string fieldCounter)
  | String _ _ => id = k
  end.

(** The record [addField] would store for the data [kv.2] under an id it
    can use for [kv.1] satisfies [P]. *)
Definition insertable (P : string → field → Prop) (c : Z) (kv : string * field)
  : Prop :=
  ∀ id l, id_for kv.1 id →
          exampleValues (fill_examples c kv.2) = EVarray l →
          P id (new_record kv.2 l).

(** The example values can be spread. *)
Definition spreadable (kv : string * field) : bool :=
  match exampleValues kv.2 with
  | EVnoniterable => false
  | _ => true
  end.

(** The example values are there. *)
Definition has_examples (kv : string * field) : bool :=
  match exampleValues kv.2 with
  | EVundefined => false
  | _ => true
  end.

(** What a call leaves in the field counter: it never decreases, and
    after a normal completion it is above the number of every id in
    [ids]. *)
Definition counter_spec (ids : list string) (fc : Z)
    (res : (fields * Z) * completion unit) : Prop :=
  fc ≤ res.1.2
  ∧ (res.2 = Normal tt →
     ∀ id n, id ∈ ids → id_number id = Some n → n < res.1.2).


(** The stored mapping as the second pass leaves it when the first pass
    found the count [c]. *)
Definition normalized (stored : fields) : fields :=
  map_examples (pad_examples (collectExampleCount stored 0).1) stored.

(** A stored mapping whose arrays have different lengths, one of them
    nested. *)
Definition stored_uneven : fields :=
  [("field-0"%string,
    Field (Some "place"%string) (Some "OBJECT"%string) (Some true) None None
          (EVarray ["inn"%string; "road"%string])
          (NFobject
             [("field-7"%string,
               Field (Some "town"%string) (Some "STRING"%string) (Some false)
                     None None (EVarray []) NFundefined)]));
   ("field-1"%string,
    Field (Some "mood"%string) (Some "STRING"%string) None None None
          (EVarray ["calm"%string]) NFnull)].

(** A new component and a newly parsed copy of [stored_uneven] next to
    it. *)
Definition state_with_stored : loc * state :=
  alloc stored_uneven TrackerPromptMaker.constructor_default.

(** A stored mapping whose second record has example values that cannot
    be spread. *)
Definition stored_unspreadable : fields :=
  [("field-0"%string,
    Field (Some "mood"%string) None None None None (EVarray []) NFundefined);
   ("field-1"%string,
    Field (Some "place"%string) None None None None EVnoniterable NFundefined)].

(** A stored record that has only its example values, and [null] for its
    nested fields. *)
Definition stored_bare : fields :=
  [("field-0"%string, Field None None None None None (EVarray []) NFnull)].

(** An id with a double quote in it. *)
Definition quoted_id : string := String "a" (String Js.quote "b").

(** A stored mapping whose second record has no example values. *)
Definition stored_lacking : fields :=
  [("field-0"%string,
    Field (Some "mood"%string) None None None None (EVarray ["calm"%string])
          NFundefined);
   ("field-1"%string,
    Field (Some "place"%string) None None None None EVundefined NFundefined)].

(** A stored mapping with two records without example values, the second
    of them under the quoted id. *)
Definition stored_quoted : fields :=
  [("field-0"%string, Field None None None None None (EVarray []) NFundefined);
   (quoted_id, Field None None None None None (EVarray []) NFundefined)].

(** The example values of a record are an array that satisfies [Q]. *)
Definition array_with (Q : list string → Prop) (k : string) (f : field) : Prop :=
  ∃ l, exampleValues f = EVarray l ∧ Q l.

(** What a round does to the example values of one record. *)
Definition push_example (ev : examples) : examples :=
  match ev with
  | EVarray l => EVarray (l ++ [EmptyString])
  | _ => ev
  end.

Definition pop_example (ev : examples) : examples :=
  match ev with
  | EVarray l => EVarray (removelast l)
  | _ => ev
  end.

(** *** Example-count uniformity *)

(** Every record of the backend object, at every depth, has an array of
    example values whose length is the example counter. *)
Definition uniform (s : state) : Prop :=
  ∀ kv, kv ∈ all_records (TrackerPromptMaker.backend s) →
        ∃ l, exampleValues kv.2 = EVarray l
             ∧ Z.of_nat (length l) = exampleCounter s.

(** The same, together with what keeps it true from call to call: the
    tree is well formed and the counter is not negative. *)
Definition uniform_tree (c : Z) (m : fields) : Prop :=
  tree_ok (array_with (λ l, Z.of_nat (length l) = c)) m.

Definition uniform_inv (s : state) : Prop :=
  uniform_tree (exampleCounter s) (TrackerPromptMaker.backend s)
  ∧ 0 ≤ exampleCounter s.

(** A record under a plain id. *)
Definition plain_key (k : string) (f : field) : Prop := plain_id k = true.

(** Every id of the backend object, at every depth, is plain. *)
Definition plain_inv (s : state) : Prop :=
  tree_ok plain_key (TrackerPromptMaker.backend s).

(** Example values that, where given as an array, have [c] entries. *)
Definition fits (c : Z) (kv : string * field) : bool :=
  match exampleValues kv.2 with
  | EVarray l => Z.of_nat (length l) =? c
  | _ => true
  end.

(** A call that brings only plain ids: the id and the parent id given to
    [addField] and the keys of its nested data, and every key of a stored
    mapping. *)
Definition plain_call (o : op) : bool :=
  match o with
  | OpAddField _ pf fd id =>
      plain_option pf && plain_option id
      && forallb plain_id (records_of fd).*1
  | OpPopulate stored => forallb plain_id (all_ids stored)
  | _ => true
  end.

(** The calls under which uniformity is kept: the ids a call brings are
    plain; a field is added with example values of the current length, if
    any, at every depth of its data; a round is removed only while the
    counter is positive. *)
Definition keeps_uniform (o : op) (s : state) : bool :=
  plain_call o
  && match o with
     | OpAddField _ _ fd _ =>
         forallb (fits (exampleCounter s)) ((EmptyString, fd) :: records_of fd)
     | OpRemoveExampleValueFromAllFields => 0 <? exampleCounter s
     | _ => true
     end.

Fixpoint all_keep_uniform (ops : list op) (s : state) : bool :=
  match ops with
  | [] => true
  | o :: r => keeps_uniform o s && all_keep_uniform r (step o s)
  end.

(** *** Round trip *)

(** A record as [addField] writes it: it has a non-empty id, every
    attribute, a non-empty type and an array of example values. *)
Definition complete (k : string) (f : field) : Prop :=
  k ≠ EmptyString
  ∧ is_Some (name f)
  ∧ (∃ t, type f = Some t ∧ t ≠ EmptyString)
  ∧ is_Some (isDynamic f)
  ∧ is_Some (prompt f)
  ∧ is_Some (defaultValue f)
  ∧ ∃ l, exampleValues f = EVarray l.

(** The attributes of a record that a load must bring back unchanged. *)
Definition plain_attributes (f : field)
  : option string * option string * option bool * option string * option string :=
  (name f, type f, isDynamic f, prompt f, defaultValue f).

Definition is_addField (o : op) : bool :=
  match o with
  | OpAddField _ _ _ _ => true
  | _ => false
  end.

(** Data for a nested field and for a field that holds it. *)
Definition town_fieldData : field :=
  Field (Some "town"%string) None None (Some "where it happens"%string) None
        (EVarray ["Bree"%string]) NFundefined.

Definition place_fieldData : field :=
  Field (Some "place"%string) (Some "OBJECT"%string) (Some false) None
        (Some "unknown"%string) EVundefined
        (NFobject [("field-9"%string, town_fieldData)]).

(** Calls that build a tree of three fields, one of them nested and one
    with an example value of its own. *)
Definition build_calls : list op :=
  [OpAddField [] None empty_fieldData None;
   OpAddField [] None place_fieldData None;
   OpAddField ["field-1"%string] (Some "field-1"%string) empty_fieldData None].
(** Adding a complete record under a new id, with plain ids throughout,
    that of the parent included, appends the record and
    its whole subtree to the parent mapping, and completes normally. *)
Definition rebuilds (f : field) : Prop :=
  ∀ c p pf k T fc n,
    field_ok complete k f → field_ok plain_key k f →
    plain_option pf = true →
    resolve p T = Some n → k ∉ n.*1 →
    (addField c p pf f (Some k) (T, fc)).1.1.1
    = update_at p (λ _, n ++ [(k, f)]) T
    ∧ (addField c p pf f (Some k) (T, fc)).2 = Normal tt.


(** What holds of a component on which only [addField] was called, with
    plain ids: its tree is made of complete records under plain ids, and
    its backend object is in the heap. *)
Definition built_inv (s : state) : Prop :=
  tree_ok complete (TrackerPromptMaker.backend s)
  ∧ plain_inv s
  ∧ heap s !! backendObject s = Some (TrackerPromptMaker.backend s).

(** Data that brings one example value of its own. *)
Definition one_example_fieldData : field :=
  Field (Some "weather"%string) None None None None
        (EVarray ["rain"%string]) NFundefined.

(** One field; a load of a stored mapping, which leaves a counter of
    two; a field nested in a loaded one; a round removed; a field that
    brings its one example value; two rounds added and one removed. *)
Definition round_calls : list op :=
  [OpAddField [] None empty_fieldData None;
   OpPopulate stored_uneven;
   OpAddField ["field-0"%string] (Some "field-0"%string) empty_fieldData None;
   OpRemoveExampleValueFromAllFields;
   OpAddField [] None one_example_fieldData None;
   OpAddExampleValueToAllFields;
   OpAddExampleValueToAllFields;
   OpRemoveExampleValueFromAllFields].

(** A field that brings one example value is added under the quoted id,
    then a field without data. *)
Definition quoted_calls : list op :=
  [OpAddField [] None one_example_fieldData (Some quoted_id);
   OpAddField [] None empty_fieldData None].


(** What a walk over one record and the records below it does, when the
    body of the walk replaces the example values [ev] of the record it
    visits by [g ev]: seen from the mapping that holds the record, the
    record and everything below it have had [g] applied. *)
Definition walk_field
    (body : string → list string → fields → fields * completion unit)
    (g : examples → examples) (R : string → field → Prop) (f : field) : Prop :=
  ∀ T p k pre post,
    resolve p T = Some (pre ++ (k, f) :: post) → k ∉ pre.*1 →
    field_ok R k f →
    forEach (λ r, body r.2 r.1) (collectAllFields_field p k f) T
    = (update_at p (λ _, pre ++ (k, map_examples_field g f) :: post) T, Normal tt).

(** ** Notions used for the further properties *)

(** The calls that assign one attribute of one record: the mapping and
    the id they address, and the assignment they make.  A name with a
    double quote is rejected before anything is assigned. *)
Definition mutation (o : op) : option (list string * string * (field → field)) :=
  match o with
  | OpValidateFieldName x id p =>
      if Js.includes Js.quote x then None else Some (p, id, set_name x)
  | OpSelectFieldType x id p => Some (p, id, set_type x)
  | OpToggleStaticDynamic x id p => Some (p, id, set_isDynamic x)
  | OpUpdatePrompt x id p => Some (p, id, set_prompt x)
  | OpUpdateDefaultValue x id p => Some (p, id, set_defaultValue x)
  | _ => None
  end.

(** A record whose example values are an array, of any length. *)
Definition any_array : string → field → Prop := array_with (λ _, True).

(** The number [addField] reads off the id, if any, is below [c]. *)
Definition id_below (c : Z) (k : string) (f : field) : Prop :=
  ∀ n, id_number k = Some n → n < c.

(** The field counter is ahead of the number of every id in a tree. *)
Definition ahead (st : fields * Z) : Prop :=
  0 ≤ st.2 ∧ tree_ok (id_below st.2) st.1.

(** No call of the sequence is a load. *)
Definition no_populate (ops : list op) : bool :=
  forallb (λ o, negb (is_populate o)) ops.

(** The calls as the user interface makes them: a call that keeps
    uniformity, and a type selection that carries the value of an option,
    which is never the empty string. *)
Definition ui_call (o : op) (s : state) : bool :=
  keeps_uniform o s
  && match o with
     | OpSelectFieldType x _ _ => bool_decide (x ≠ EmptyString)
     | _ => true
     end.

Fixpoint all_ui_calls (ops : list op) (s : state) : bool :=
  match ops with
  | [] => true
  | o :: r => ui_call o s && all_ui_calls r (step o s)
  end.

(** What holds of a component driven through its user interface: its
    tree is made of complete records under plain ids, whose example values
    are as many as the counter says, and its backend object is in the
    heap. *)
Definition ui_inv (s : state) : Prop :=
  tree_ok complete (TrackerPromptMaker.backend s)
  ∧ uniform_inv s
  ∧ plain_inv s
  ∧ is_Some (heap s !! backendObject s).

(** Three fields, one of them nested, then a round, a selection of a
    type, a new name, one more nested field and its removal, and two more
    rounds. *)
Definition ui_calls : list op :=
  [OpAddField [] None empty_fieldData None;
   OpAddField [] None empty_fieldData None;
   OpSelectFieldType "OBJECT" "field-1" [];
   OpAddField ["field-1"%string] (Some "field-1"%string) empty_fieldData None;
   OpAddExampleValueToAllFields;
   OpSelectFieldType "ARRAY" "field-0" [];
   OpValidateFieldName "weather" "field-0" [];
   OpAddField ["field-1"%string] (Some "field-1"%string) empty_fieldData None;
   OpRemoveField "field-3" ["field-1"%string] true;
   OpAddExampleValueToAllFields;
   OpRemoveExampleValueFromAllFields].

(** A field counter that either is still [fc] or is one more than the
    number of one of [ids]. *)
Definition counter_from (ids : list string) (fc : Z) (st : fields * Z) : Prop :=
  st.2 = fc ∨ ∃ id n, id ∈ ids ∧ id_number id = Some n ∧ st.2 = n + 1.

(** No id is the empty string. *)
Definition nonempty_ids (ids : list string) : bool :=
  forallb (λ id, bool_decide (id ≠ EmptyString)) ids.

(** The record [addField] makes of [fieldData] under an example counter
    of [c], together with the records it makes of the nested data: every
    attribute that is absent or empty gets its default, absent example
    values become [c] empty strings, and nested fields that are no mapping
    become the empty mapping. *)
Fixpoint defaulted (c : Z) (fieldData : field) : field :=
  set_nestedFields
    (NFobject
       match nestedFields fieldData with
       | NFobject m => map (λ kv, (kv.1, defaulted c kv.2)) m
       | _ => []
       end)
    (new_record fieldData
       match exampleValues fieldData with
       | EVarray l => l
       | _ => replicate (Z.to_nat c) EmptyString
       end).

Definition defaulted_tree (c : Z) (m : fields) : fields :=
  map (λ kv, (kv.1, defaulted c kv.2)) m.

(** Data as an object literal or a parsed text gives it: the keys of a
    mapping are pairwise distinct; in addition every key is plain and not
    the empty string, and the example values can be spread, at every
    depth. *)
Fixpoint data_ok_field (fieldData : field) : bool :=
  spreadable (EmptyString, fieldData)
  && match nestedFields fieldData with
     | NFobject m =>
         bool_decide (NoDup m.*1)
         && forallb (λ kv, bool_decide (kv.1 ≠ EmptyString) && plain_id kv.1
                           && data_ok_field kv.2) m
     | _ => true
     end.

Definition data_ok (m : fields) : bool :=
  bool_decide (NoDup m.*1)
  && forallb (λ kv, bool_decide (kv.1 ≠ EmptyString) && plain_id kv.1
                    && data_ok_field kv.2) m.

(** What [addField] does with data that is well formed, when the parent's
    id and the id given to it are plain: it stores the
    record made of the data, with everything made of the nested data below
    it, under the id it chose, and completes normally. *)
Definition builds (f : field) : Prop :=
  ∀ c p pf oid T fc n,
    data_ok_field f = true → resolve p T = Some n →
    plain_option pf = true →
    plain_option oid = true →
    (addField c p pf f oid (T, fc)).1.1.1
    = update_at p (obj_set (choose_id oid fc).1 (defaulted c f)) T
    ∧ (addField c p pf f oid (T, fc)).2 = Normal tt.

(** A stored mapping whose records lack attributes, with a nested record
    under a record whose type is absent. *)
Definition stored_sparse : fields :=
  [("field-0"%string,
    Field None None None None None (EVarray ["inn"%string])
          (NFobject
             [("field-4"%string,
               Field (Some "town"%string) None (Some false) None None
                     (EVarray []) NFnull)]));
   ("note"%string,
    Field (Some "mood"%string) (Some EmptyString) None (Some "how it feels"%string)
          None (EVarray []) (NFnumber 3))].

(** A name without a double quote, or no name at all. *)
Definition quote_free (kv : string * field) : bool :=
  match name kv.2 with
  | Some nm => negb (Js.includes Js.quote nm)
  | None => true
  end.

(** A call that brings no name with a double quote in its data. *)
Definition clean_call (o : op) : bool :=
  match o with
  | OpAddField _ _ fd _ => forallb quote_free ((EmptyString, fd) :: records_of fd)
  | OpPopulate stored => forallb quote_free (all_records stored)
  | _ => true
  end.

(** A record that has a name, without a double quote. *)
Definition named_clean (k : string) (f : field) : Prop :=
  ∃ nm, name f = Some nm ∧ Js.includes Js.quote nm = false.

(** A field whose name has a double quote. *)
Definition quoted_fieldData : field :=
  Field (Some (String Js.quote "inn")) None None None None EVundefined NFundefined.

(** A record that has a non-empty id, every attribute, and an array of
    example values. *)
Definition full (k : string) (f : field) : Prop :=
  k ≠ EmptyString
  ∧ is_Some (name f)
  ∧ is_Some (type f)
  ∧ is_Some (isDynamic f)
  ∧ is_Some (prompt f)
  ∧ is_Some (defaultValue f)
  ∧ ∃ l, exampleValues f = EVarray l.

(** ** The settings: the target of the popup *)

Module Settings.

(** The two settings [updatePopupDropdown] reads and writes; a setting
    that is absent is [None]. *)
Record popup_settings : Type := PopupSettings {
  generationTarget : option string;
  showPopupFor : option string }.

Section generationTargets.

(** The four values of [generationTargets].  The file that defines them
    is not among the sources; they are taken to be strings, as the values
    of the selectors are. *)
Context (BOTH USER CHARACTER NONE : string).

(** The array the [switch] fills; a target that matches no [case] leaves
    it empty. *)
Definition availablePopupOptions (target : option string) : list string :=
  match target with
  | None => []
  | Some t =>
      if decide (t = CHARACTER) then [USER; NONE]
      else if decide (t = USER) then [CHARACTER; NONE]
      else if decide (t = BOTH) then [NONE]
      else if decide (t = NONE) then [BOTH; USER; CHARACTER; NONE]
      else []
  end.

(** [updatePopupDropdown()]: the settings it leaves, whether it asked for
    the settings to be saved, and the options it puts into the selector,
    in order. *)
Definition updatePopupDropdown (s : popup_settings)
  : popup_settings * bool * list string :=
  let available := availablePopupOptions (generationTarget s) in
  if bool_decide (showPopupFor s ∈ Some <$> available)
  then (s, false, available)
  else (PopupSettings (generationTarget s) (Some NONE), true, available).

End generationTargets.

End Settings.

(** * Properties *)

(** ** Objects *)

Section object_facts.
Context {V : Type}.
Implicit Types (m : list (string * V)) (k : string).

Lemma obj_get_set k v k' m :
  obj_get k' (obj_set k v m) = if decide (k' = k) then Some v else obj_get k' m.
Proof.
  induction m as [|[k0 v0] m IH]; simpl.
  - repeat case_decide; congruence.
  - repeat (case_decide; simpl; subst); try congruence.
Qed.

Lemma obj_get_alter g k k' m :
  obj_get k' (obj_alter g k m)
  = if decide (k' = k) then g <$> obj_get k m else obj_get k' m.
Proof.
  induction m as [|[k0 v0] m IH]; simpl.
  - by case_decide.
  - repeat (case_decide; simpl; subst); try congruence.
Qed.

Lemma obj_get_delete k k' m :
  obj_get k' (obj_delete k m) = if decide (k' = k) then None else obj_get k' m.
Proof.
  induction m as [|[k0 v0] m IH]; simpl.
  - by case_decide.
  - repeat (case_decide; simpl; subst); try congruence.
Qed.

Lemma obj_get_None k m : obj_get k m = None ↔ k ∉ obj_keys m.
Proof.
  unfold obj_keys. induction m as [|[k0 v0] m IH]; simpl.
  - split; [intros _; apply not_elem_of_nil | done].
  - rewrite not_elem_of_cons. case_decide; subst; [|tauto].
    split; [done | intros [? _]; done].
Qed.

Lemma obj_keys_set k v m :
  obj_keys (obj_set k v m)
  = if decide (k ∈ obj_keys m) then obj_keys m else obj_keys m ++ [k].
Proof.
  unfold obj_keys. induction m as [|[k0 v0] m IH].
  - rewrite decide_False; [done | apply not_elem_of_nil].
  - cbn [obj_set]. rewrite !fmap_cons. cbn [fst].
    destruct (decide (k = k0)) as [->|Hne].
    + rewrite decide_True; [done | left].
    + rewrite fmap_cons, IH. cbn [fst].
      destruct (decide (k ∈ m.*1)) as [Hin|Hin].
      * rewrite decide_True; [done | by right].
      * rewrite decide_False; [done |].
        rewrite not_elem_of_cons. done.
Qed.

Lemma obj_keys_alter g k m : obj_keys (obj_alter g k m) = obj_keys m.
Proof.
  unfold obj_keys. induction m as [|[k0 v0] m IH]; [done|].
  cbn [obj_alter]. case_decide; rewrite !fmap_cons; cbn [fst]; congruence.
Qed.

Lemma obj_set_fresh k v m : k ∉ obj_keys m → obj_set k v m = m ++ [(k, v)].
Proof.
  unfold obj_keys. induction m as [|[k0 v0] m IH]; simpl; [done|].
  rewrite not_elem_of_cons. intros [? ?].
  rewrite decide_False by done. by rewrite IH.
Qed.

Lemma obj_alter_app_r g k m1 m2 :
  k ∉ obj_keys m1 → obj_alter g k (m1 ++ m2) = m1 ++ obj_alter g k m2.
Proof.
  unfold obj_keys. induction m1 as [|[k0 v0] m1 IH]; simpl; [done|].
  rewrite not_elem_of_cons. intros [? ?].
  rewrite decide_False by done. by rewrite IH.
Qed.

Lemma obj_alter_ext g h k m :
  (∀ v, obj_get k m = Some v → g v = h v) → obj_alter g k m = obj_alter h k m.
Proof.
  induction m as [|[k0 v0] m IH]; simpl; [done|].
  case_decide; subst.
  - intros Hv. by rewrite Hv.
  - intros Hv. by rewrite IH.
Qed.

Lemma obj_alter_alter g h k m :
  obj_alter g k (obj_alter h k m) = obj_alter (g ∘ h) k m.
Proof.
  induction m as [|[k0 v0] m IH]; simpl; [done|].
  case_decide; subst; simpl.
  - by rewrite decide_True.
  - rewrite decide_False by done. by rewrite IH.
Qed.
End object_facts.

(** ** Paths *)

Lemma nested_obj_set_nestedFields nf f :
  nested_obj (set_nestedFields nf f)
  = match nf with NFobject m => Some m | _ => None end.
Proof. by destruct nf. Qed.

(** Reading below the place that was mutated. *)
Lemma resolve_update_at_app p q g m :
  resolve (p ++ q) (update_at p g m)
  = match resolve p m with Some n => resolve q (g n) | None => None end.
Proof.
  revert m. induction p as [|id p IH]; intros m; simpl; [done|].
  rewrite obj_get_alter, decide_True by done.
  destruct (obj_get id m) as [f|]; simpl; [|done].
  unfold nested_obj.
  destruct (nestedFields f) as [| | |n] eqn:E; simpl; rewrite ?E; done.
Qed.

Lemma resolve_update_at p g m : resolve p (update_at p g m) = g <$> resolve p m.
Proof.
  pose proof (resolve_update_at_app p [] g m) as H.
  rewrite app_nil_r in H. rewrite H. by destruct (resolve p m).
Qed.

Lemma get_field_update_at_alter p id g m :
  get_field p id (update_at p (obj_alter g id) m) = g <$> get_field p id m.
Proof.
  unfold get_field. rewrite resolve_update_at.
  destruct (resolve p m) as [n|]; simpl; [|done].
  by rewrite obj_get_alter, decide_True.
Qed.

Lemma get_field_field_at p id m : get_field p id m = field_at (p ++ [id]) m.
Proof.
  unfold get_field. revert m. induction p as [|k p IH]; intros m; simpl.
  - by destruct (obj_get id m).
  - destruct (obj_get k m) as [f|]; [|done].
    destruct (nested_obj f) as [n|].
    + rewrite IH. destruct (p ++ [id]) eqn:E; [by destruct p | done].
    + destruct (p ++ [id]) eqn:E; [by destruct p | done].
Qed.

(** ** The heap *)

Lemma backend_set_backend m s :
  TrackerPromptMaker.backend (TrackerPromptMaker.set_backend m s) = m.
Proof.
  unfold TrackerPromptMaker.backend, TrackerPromptMaker.set_backend. simpl.
  by rewrite lookup_total_insert_eq.
Qed.

(** ** Removing a field *)

Lemma field_at_delete_below p id a m :
  (p ++ [id]) `prefix_of` a → field_at a (update_at p (obj_delete id) m) = None.
Proof.
  intros [q ->]. revert m. induction p as [|k p IH]; intros m; simpl.
  - by rewrite obj_get_delete, decide_True.
  - rewrite obj_get_alter, decide_True by done.
    destruct (obj_get k m) as [f|]; simpl; [|done].
    destruct ((p ++ [id]) ++ q) eqn:E; [by destruct p|].
    unfold nested_obj.
    destruct (nestedFields f) as [| | |n] eqn:En; simpl; rewrite ?En; try done.
    exact (IH n).
Qed.

Lemma field_at_delete_elsewhere p id a m :
  ¬ (p ++ [id]) `prefix_of` a →
  attributes <$> field_at a (update_at p (obj_delete id) m)
  = attributes <$> field_at a m.
Proof.
  revert a m. induction p as [|k p IH]; intros a m Hpre.
  - destruct a as [|k' a]; [done|]. simpl.
    rewrite obj_get_delete. case_decide; [|done]. subst.
    destruct Hpre. by apply prefix_cons, prefix_nil.
  - destruct a as [|k' a]; [done|]. simpl.
    rewrite obj_get_alter. case_decide; [|done]. subst k'.
    destruct (obj_get k m) as [f|]; simpl; [|done].
    assert (¬ (p ++ [id]) `prefix_of` a) as Hpre'.
    { intros H. apply Hpre. simpl. by apply prefix_cons. }
    destruct a as [|k' a].
    + by destruct (nestedFields f).
    + unfold nested_obj.
      destruct (nestedFields f) as [| | |n] eqn:En; simpl; rewrite ?En; try done.
      exact (IH (k' :: a) n Hpre').
Qed.

(** C8. After [removeField] was confirmed, no address at or below the
    removed field leads to a record any more, and every other address
    leads to a record exactly when it did before, with the same
    attributes. *)
Theorem removeField_no_orphan (s : state) (fieldId : string)
    (parentObject a : list string) :
  let s' := TrackerPromptMaker.removeField fieldId parentObject true s in
  ((parentObject ++ [fieldId]) `prefix_of` a →
     field_at a (TrackerPromptMaker.backend s') = None)
  ∧ (¬ (parentObject ++ [fieldId]) `prefix_of` a →
     attributes <$> field_at a (TrackerPromptMaker.backend s')
     = attributes <$> field_at a (TrackerPromptMaker.backend s)).
Proof.
  simpl. unfold TrackerPromptMaker.syncBackendObject.
  assert (∀ t, TrackerPromptMaker.backend (TrackerPromptMaker.triggerSaveCallback t)
               = TrackerPromptMaker.backend t) as -> by done.
  rewrite backend_set_backend. split.
  - apply field_at_delete_below.
  - apply field_at_delete_elsewhere.
Qed.

Lemma removeField_no_orphan_witness :
  let s := run build_calls TrackerPromptMaker.constructor_default in
  let s' := TrackerPromptMaker.removeField "field-1" [] true s in
  field_at ["field-1"; "field-9"]%string (TrackerPromptMaker.backend s') = None
  ∧ attributes <$> field_at ["field-0"]%string (TrackerPromptMaker.backend s')
    = attributes <$> field_at ["field-0"]%string (TrackerPromptMaker.backend s).
Proof.
  split.
  - apply (removeField_no_orphan
             (run build_calls TrackerPromptMaker.constructor_default)
             "field-1" [] ["field-1"; "field-9"]%string).
    by exists ["field-9"%string].
  - apply (removeField_no_orphan
             (run build_calls TrackerPromptMaker.constructor_default)
             "field-1" [] ["field-0"]%string).
    intros [k Hk]. discriminate Hk.
Defined.

(** ** Renaming a field *)

(** C6. For a record that exists, a new name with a double quote is
    rejected: the call returns [false] without raising and the backend
    object is unchanged; any other name is stored in the record, whose
    other attributes stay, and the call returns [true]. *)
Theorem validateFieldName_validates (s : state) (newName fieldId : string)
    (parentObject : list string) (f : field) :
  get_field parentObject fieldId (TrackerPromptMaker.backend s) = Some f →
  let r := TrackerPromptMaker.validateFieldName newName fieldId parentObject s in
  if Js.includes Js.quote newName
  then r.2 = Normal false
       ∧ TrackerPromptMaker.backend r.1 = TrackerPromptMaker.backend s
       ∧ name <$> get_field parentObject fieldId (TrackerPromptMaker.backend r.1)
         = Some (name f)
  else r.2 = Normal true
       ∧ get_field parentObject fieldId (TrackerPromptMaker.backend r.1)
         = Some (set_name newName f)
       ∧ name (set_name newName f) = Some newName.
Proof.
  intros Hf. simpl.
  unfold TrackerPromptMaker.validateFieldName, TrackerPromptMaker.on_backend,
    validateFieldName, assign.
  destruct (Js.includes Js.quote newName); simpl.
  - rewrite backend_set_backend. by rewrite Hf.
  - rewrite Hf. simpl. rewrite backend_set_backend.
    by rewrite get_field_update_at_alter, Hf.
Qed.

Lemma validateFieldName_validates_witness :
  let r := TrackerPromptMaker.validateFieldName "status" "field-0" [] one_field_state in
  r.2 = Normal true
  ∧ name <$> get_field [] "field-0" (TrackerPromptMaker.backend r.1)
    = Some (Some "status"%string).
Proof.
  pose proof (validateFieldName_validates one_field_state "status" "field-0" []
                (new_record empty_fieldData [])
                eq_refl) as H.
  simpl in H. destruct H as (H1 & H2 & _). split; [exact H1|].
  by rewrite H2.
Defined.

(** ** The object handed to the save callback *)

Lemma backendObject_step o s :
  is_populate o = false → backendObject (step o s) = backendObject s.
Proof.
  destruct o; simpl; try done; intros _;
    unfold TrackerPromptMaker.addField, TrackerPromptMaker.removeField,
      TrackerPromptMaker.validateFieldName, TrackerPromptMaker.selectFieldType,
      TrackerPromptMaker.toggleStaticDynamic, TrackerPromptMaker.updatePrompt,
      TrackerPromptMaker.updateDefaultValue,
      TrackerPromptMaker.addExampleValueToAllFields,
      TrackerPromptMaker.removeExampleValueFromAllFields,
      TrackerPromptMaker.on_backend;
    repeat match goal with
           | |- context [let '(_, _) := ?x in _] => destruct x
           | |- context [match ?x with Normal _ => _ | Throws => _ end] => destruct x
           | |- context [if ?x then _ else _] => destruct x
           end; done.
Qed.

Lemma backendObject_run ops s :
  no_populate ops = true → backendObject (run ops s) = backendObject s.
Proof.
  revert s. induction ops as [|o ops IH]; intros s Hops; [done|].
  cbn [no_populate forallb] in Hops. apply andb_prop in Hops as [Ho Hops].
  apply negb_true_iff in Ho. cbn [run fold_left].
  etrans; [by apply IH|]. by apply backendObject_step.
Qed.

(** C3, as the code has it.  The save callback receives the backend object
    itself, not a copy: what it is given reads as the tree does at that
    time, and after every later sequence of calls without a load, however
    each of them completes, it reads exactly as the backend object does
    then.  So a rename to a valid name made at any later time shows in the
    object the callback was given. *)
Theorem triggerSaveCallback_hands_out_backendObject (s : state) (ops : list op) :
  no_populate ops = true →
  let s1 := TrackerPromptMaker.triggerSaveCallback s in
  let s2 := run ops s1 in
  ∃ snapshot,
    head (saved s1) = Some snapshot
    ∧ heap s1 !!! snapshot = TrackerPromptMaker.backend s
    ∧ heap s2 !!! snapshot = TrackerPromptMaker.backend s2
    ∧ ∀ newName fieldId parentObject f,
        get_field parentObject fieldId (TrackerPromptMaker.backend s2) = Some f →
        Js.includes Js.quote newName = false →
        get_field parentObject fieldId
          (heap (step (OpValidateFieldName newName fieldId parentObject) s2)
             !!! snapshot)
        = Some (set_name newName f).
Proof.
  intros Hops. cbn zeta. exists (backendObject s).
  assert (backendObject (run ops (TrackerPromptMaker.triggerSaveCallback s))
          = backendObject s) as Hb by (by rewrite backendObject_run).
  split_and!; [done | done | |].
  - unfold TrackerPromptMaker.backend. by rewrite Hb.
  - intros newName fieldId parentObject f Hf Hname.
    set (s2 := run ops (TrackerPromptMaker.triggerSaveCallback s)) in *.
    cbn [step]. unfold TrackerPromptMaker.validateFieldName,
      TrackerPromptMaker.on_backend, validateFieldName, assign.
    rewrite Hname, Hf. cbn. rewrite Hb, lookup_total_insert_eq.
    by rewrite get_field_update_at_alter, Hf.
Qed.

Lemma triggerSaveCallback_hands_out_backendObject_witness :
  let s1 := TrackerPromptMaker.triggerSaveCallback one_field_state in
  let s2 := run [OpAddExampleValueToAllFields;
                 OpAddField [] None empty_fieldData None;
                 OpSelectFieldType "OBJECT" "field-1" []] s1 in
  ∃ snapshot,
    head (saved s1) = Some snapshot
    ∧ heap s2 !!! snapshot = TrackerPromptMaker.backend s2
    ∧ name <$> get_field [] "field-0"
                 (heap (step (OpValidateFieldName "status" "field-0" []) s2)
                    !!! snapshot)
      = Some (Some "status"%string).
Proof.
  destruct (triggerSaveCallback_hands_out_backendObject one_field_state
              [OpAddExampleValueToAllFields;
               OpAddField [] None empty_fieldData None;
               OpSelectFieldType "OBJECT" "field-1" []] eq_refl)
    as (snapshot & H1 & _ & H2 & H3).
  exists snapshot. split; [exact H1|]. split; [exact H2|].
  cbn zeta in H3.
  rewrite (H3 "status"%string "field-0"%string []
             (new_record empty_fieldData [EmptyString]) eq_refl eq_refl).
  reflexivity.
Defined.

(** C3, as stated, fails: a rename after the callback changes what the
    object given to the callback holds. *)
Lemma snapshot_follows_later_rename :
  let s1 := TrackerPromptMaker.triggerSaveCallback one_field_state in
  let s2 := step (OpValidateFieldName "status" "field-0" []) s1 in
  ∃ snapshot, head (saved s1) = Some snapshot
    ∧ name <$> get_field [] "field-0" (heap s1 !!! snapshot) = Some (Some EmptyString)
    ∧ name <$> get_field [] "field-0" (heap s2 !!! snapshot) = Some (Some "status"%string).
Proof. exists (backendObject one_field_state). by vm_compute. Qed.

(** ** Removing an example round at zero *)

(** C4 fails on the code: with the counter at zero the removal leaves the
    arrays empty but still decrements the counter, and the next round that
    is added gives arrays of length one under a counter of zero. *)
Theorem removeExampleValueFromAllFields_at_zero :
  let s1 := step OpRemoveExampleValueFromAllFields one_field_state in
  let s2 := step OpAddExampleValueToAllFields s1 in
  exampleCounter one_field_state = 0
  ∧ exampleCounter s1 = -1
  ∧ exampleValues <$> get_field [] "field-0" (TrackerPromptMaker.backend s1)
    = Some (EVarray [])
  ∧ exampleCounter s2 = 0
  ∧ exampleValues <$> get_field [] "field-0" (TrackerPromptMaker.backend s2)
    = Some (EVarray [EmptyString]).
Proof. by vm_compute. Qed.

(** ** The type attribute *)

(** C9 fails on the code: a field added without a type stores the display
    label of [STRING], which is none of the values the selector and the
    nesting test work with, while a later selection stores such a value. *)
Theorem addField_default_type_is_a_label :
  let s1 := step (OpSelectFieldType "OBJECT" "field-0" []) one_field_state in
  type <$> get_field [] "field-0" (TrackerPromptMaker.backend one_field_state)
    = Some (Some "String"%string)
  ∧ ("String"%string ∉ type_option_values)
  ∧ type <$> get_field [] "field-0" (TrackerPromptMaker.backend s1)
    = Some (Some "OBJECT"%string)
  ∧ ("OBJECT"%string ∈ type_option_values)
  ∧ NESTING_FIELD_TYPES ⊆ type_option_values.
Proof.
  simpl. split_and!; try (by vm_compute).
  - by apply (bool_decide_unpack _).
  - by apply (bool_decide_unpack _).
  - by apply (bool_decide_unpack _).
Qed.

(** ** Numbers and their decimal form *)

Lemma decimal_char_facts c :
  decimal_char c = true →
  Js.is_white_space c = false ∧ c ≠ Js.dash ∧ c ≠ Js.plus
  ∧ nat_of_ascii c ≠ 120%nat ∧ nat_of_ascii c ≠ 88%nat.
Proof.
  destruct c as [[] [] [] [] [] [] [] []]; vm_compute; intros H;
    try discriminate H; split_and!; done.
Qed.

Lemma digit_value_decimal d :
  (d < 10)%N → Js.digit_value 10 (ascii_of_N (48 + d)) = Some d
              ∧ decimal_char (ascii_of_N (48 + d)) = true.
Proof.
  intros Hd. unfold Js.digit_value, decimal_char.
  rewrite N_ascii_embedding by lia.
  assert ((48 <=? 48 + d)%N = true) as -> by (apply N.leb_le; lia).
  assert ((48 + d <=? 57)%N = true) as -> by (apply N.leb_le; lia).
  simpl. replace (48 + d - 48)%N with d by lia.
  by assert ((d <? 10)%N = true) as -> by (apply N.ltb_lt; lia).
Qed.

Lemma digits_spec fuel : ∀ n rest,
  (n < 10 ^ N.of_nat (S fuel))%N →
  (all_decimal rest = true → all_decimal (Js.digits fuel n rest) = true)
  ∧ Js.digits fuel n rest ≠ EmptyString
  ∧ ∃ k, ∀ acc,
      Js.parse_digits 10 (Js.digits fuel n rest) acc
      = Js.parse_digits 10 rest (Some (10 ^ k * default 0%N acc + n)%N).
Proof.
  induction fuel as [|fuel IH]; intros n rest Hn.
  - assert (n < 10)%N as Hlt by (by change (10 ^ N.of_nat 1)%N with 10%N in Hn).
    cbn [Js.digits]. rewrite N.mod_small by done.
    destruct (digit_value_decimal n Hlt) as [Hv Hc].
    split_and!; [by cbn; rewrite Hc | done |].
    exists 1%N. intros acc. cbn [Js.parse_digits]. rewrite Hv.
    by rewrite N.pow_1_r.
  - cbn [Js.digits]. destruct (n <? 10)%N eqn:Hlt.
    + apply N.ltb_lt in Hlt. rewrite N.mod_small by done.
      destruct (digit_value_decimal n Hlt) as [Hv Hc].
      split_and!; [by cbn; rewrite Hc | done |].
      exists 1%N. intros acc. cbn [Js.parse_digits]. rewrite Hv.
      by rewrite N.pow_1_r.
    + apply N.ltb_ge in Hlt.
      assert (n mod 10 < 10)%N as Hmod by (apply N.mod_lt; lia).
      destruct (digit_value_decimal _ Hmod) as [Hv Hc].
      assert (n / 10 < 10 ^ N.of_nat (S fuel))%N as Hdiv.
      { apply N.Div0.div_lt_upper_bound.
        rewrite <- N.pow_succ_r'. by rewrite <- Nat2N.inj_succ. }
      destruct (IH (n / 10)%N (String (ascii_of_N (48 + n mod 10)) rest) Hdiv)
        as (Hdec & Hne & k & Hk).
      split_and!; [| done |].
      * intros Hrest. apply Hdec. cbn. by rewrite Hc.
      * exists (N.succ k). intros acc. rewrite Hk. cbn [Js.parse_digits].
        rewrite Hv. do 2 f_equal. rewrite N.pow_succ_r', <- N.mul_assoc.
        pose proof (N.Div0.div_mod n 10).
        change (default 0%N (Some ?x)) with x. lia.
Qed.

Lemma number_to_string_spec n :
  0 ≤ n →
  all_decimal (Js.number_to_string n) = true
  ∧ Js.number_to_string n ≠ EmptyString
  ∧ Js.parse_digits 10 (Js.number_to_string n) None = Some (Z.to_N n).
Proof.
  intros Hn. unfold Js.number_to_string.
  assert ((n <? 0) = false) as -> by lia.
  assert (Z.abs_N n = Z.to_N n) as -> by lia.
  destruct (digits_spec (N.to_nat (N.log2 (Z.to_N n))) (Z.to_N n) EmptyString)
    as (Hdec & Hne & k & Hk).
  { rewrite Nat2N.inj_succ, N2Nat.id.
    destruct (decide (Z.to_N n = 0%N)) as [->|Hz]; [done|].
    eapply N.lt_le_trans; [apply N.log2_spec; lia|].
    apply N.pow_le_mono_l. lia. }
  split_and!; [by apply Hdec | done |].
  rewrite Hk. simpl. f_equal. lia.
Qed.

Lemma parseInt_decimal s :
  all_decimal s = true →
  Js.parseInt (Some s) = Z.of_N <$> Js.parse_digits 10 s None.
Proof.
  intros Hs. unfold Js.parseInt.
  destruct s as [|c r]; [done|].
  cbn in Hs. apply andb_prop in Hs as [Hc Hr].
  destruct (decimal_char_facts c Hc) as (Hws & Hd & Hp & _).
  cbn [Js.trim_start]. rewrite Hws.
  rewrite decide_False by done. rewrite decide_False by done.
  assert ((let '(radix, s0) :=
             match String c r with
             | String c0 (String cx r0) =>
                 if decide (nat_of_ascii c0 = 48%nat
                            ∧ (nat_of_ascii cx = 120%nat ∨ nat_of_ascii cx = 88%nat))
                 then (16%N, r0) else (10%N, String c r)
             | _ => (10%N, String c r)
             end in
           match Js.parse_digits radix s0 None with
           | Some n => Some (1 * Z.of_N n)
           | None => None
           end)
          = Z.of_N <$> Js.parse_digits 10 (String c r) None) as ->; [|done].
  assert (∀ o : option N,
            match o with Some n => Some (1 * Z.of_N n) | None => None end
            = Z.of_N <$> o) as Hone.
  { intros [n|]; simpl; [f_equal; lia | done]. }
  destruct r as [|cx r]; [apply Hone|].
  cbn in Hr. apply andb_prop in Hr as [Hcx _].
  destruct (decimal_char_facts cx Hcx) as (_ & _ & _ & Hx & HX).
  rewrite decide_False by tauto. apply Hone.
Qed.

Lemma split_decimal s : all_decimal s = true → Js.split Js.dash s = [s].
Proof.
  induction s as [|c r IH]; [done|]. cbn [all_decimal].
  intros [Hc Hr]%andb_prop. cbn [Js.split].
  destruct (decimal_char_facts c Hc) as (_ & Hd & _).
  rewrite decide_False by done. by rewrite IH.
Qed.

Lemma split_generated d :
  Js.split Js.dash (String.append "field-" d)
  = "field"%string :: Js.split Js.dash d.
Proof. reflexivity. Qed.

(** The id made from a counter value reads back as that value. *)
Lemma id_number_generated n :
  0 ≤ n → id_number (String.append "field-" (Js.number_to_string n)) = Some n.
Proof.
  intros Hn. destruct (number_to_string_spec n Hn) as (Hdec & _ & Hparse).
  unfold id_number. rewrite split_generated, split_decimal by done.
  cbn [lookup list_lookup].
  rewrite parseInt_decimal, Hparse by done. simpl. f_equal. lia.
Qed.

(** ** Generated ids are plain *)

Lemma decimal_char_plain c :
  decimal_char c = true → c ≠ Js.quote ∧ c ≠ Js.backslash.
Proof.
  destruct c as [[] [] [] [] [] [] [] []]; vm_compute; intros H;
    try discriminate H; split; done.
Qed.

Lemma digit_decimal n : decimal_char (ascii_of_N (48 + n mod 10)) = true.
Proof. apply digit_value_decimal, N.mod_lt. lia. Qed.

Lemma digits_includes c fuel : ∀ n rest,
  (∀ d, decimal_char d = true → d ≠ c) →
  Js.includes c rest = false → Js.includes c (Js.digits fuel n rest) = false.
Proof.
  induction fuel as [|fuel IH]; intros n rest Hc Hrest; cbn [Js.digits].
  - cbn [Js.includes]. rewrite decide_False; [done | apply Hc, digit_decimal].
  - assert (Js.includes c (String (ascii_of_N (48 + n mod 10)) rest) = false) as H.
    { cbn [Js.includes]. rewrite decide_False; [done | apply Hc, digit_decimal]. }
    destruct (n <? 10)%N; [done | by apply IH].
Qed.

Lemma number_to_string_includes c z :
  (∀ d, decimal_char d = true → d ≠ c) → c ≠ Js.dash →
  Js.includes c (Js.number_to_string z) = false.
Proof.
  intros Hc Hdash. unfold Js.number_to_string.
  pose proof (digits_includes c (N.to_nat (N.log2 (Z.abs_N z))) (Z.abs_N z)
                EmptyString Hc eq_refl) as H.
  destruct (z <? 0); [|done]. cbn [Js.includes]. by rewrite decide_False.
Qed.

Lemma plain_id_generated z :
  plain_id (String.append "field-" (Js.number_to_string z)) = true.
Proof.
  unfold plain_id.
  assert (Js.includes Js.quote (String.append "field-" (Js.number_to_string z))
          = false) as ->.
  { apply (number_to_string_includes Js.quote z); [|done].
    intros d Hd. by apply decimal_char_plain. }
  assert (Js.includes Js.backslash
            (String.append "field-" (Js.number_to_string z)) = false) as ->.
  { apply (number_to_string_includes Js.backslash z); [|done].
    intros d Hd. by apply decimal_char_plain. }
  done.
Qed.

Lemma plain_id_find_raises id : plain_id id = true → Jq.find_raises id = false.
Proof.
  unfold plain_id, Jq.find_raises. by destruct (Js.includes Js.quote id).
Qed.

Lemma find_raises_generated z :
  Jq.find_raises (String.append "field-" (Js.number_to_string z)) = false.
Proof. apply plain_id_find_raises, plain_id_generated. Qed.

Lemma find_parent_raises_Some id :
  Jq.find_raises id = false → find_parent_raises (Some id) = false.
Proof. unfold find_parent_raises, truthy_id. by destruct id. Qed.

Lemma plain_option_find_parent_raises pf :
  plain_option pf = true → find_parent_raises pf = false.
Proof.
  destruct pf as [id|]; [|done]. intros H.
  by apply find_parent_raises_Some, plain_id_find_raises.
Qed.

(** ** Unfolding the recursive calls *)

Lemma set_nestedFields_same f : set_nestedFields (nestedFields f) f = f.
Proof. by destruct f. Qed.

Lemma nestedFields_fill_examples c f :
  nestedFields (fill_examples c f) = nestedFields f.
Proof. unfold fill_examples. by destruct (exampleValues f). Qed.

(** With [pushToBackend] false, [addExampleValue] leaves the backend
    object as it is. *)
Lemma addExampleValue_shown id p x m :
  (addExampleValue id p x false m).1 = m.
Proof.
  unfold addExampleValue. destruct (get_field p id m) as [f|]; [|done].
  destruct (exampleValues f); try done; by destruct (Jq.find_raises id).
Qed.

Lemma populate_examples_state id p l m : (populate_examples id p l m).1 = m.
Proof.
  unfold populate_examples. induction l as [|x l IH]; [done|]. cbn [forEach].
  pose proof (addExampleValue_shown id p x m) as Hx.
  destruct (addExampleValue id p x false m) as [m1 [[]|]]; cbn [fst] in *;
    by subst.
Qed.

(** The loop completes when the container of the field can be looked up
    and the record is there with its array. *)
Lemma populate_examples_completes id p l m f l' :
  Jq.find_raises id = false →
  get_field p id m = Some f → exampleValues f = EVarray l' →
  (populate_examples id p l m).2 = Normal tt.
Proof.
  intros Hid Hf Hl. unfold populate_examples.
  induction l as [|x l IH]; [done|]. cbn [forEach].
  unfold addExampleValue at 1. by rewrite Hf, Hl, Hid.
Qed.

(** It raises at the first value when the lookup raises. *)
Lemma populate_examples_raises id p x l m :
  Jq.find_raises id = true → (populate_examples id p (x :: l) m).2 = Throws.
Proof.
  intros Hid. unfold populate_examples. cbn [forEach]. unfold addExampleValue.
  destruct (get_field p id m) as [f|]; [|done].
  destruct (exampleValues f); try done; by rewrite Hid.
Qed.

Lemma addField_unfold c p pf fd oid st :
  addField c p pf fd oid st
  = let fieldData1 := fill_examples c fd in
    if find_parent_raises pf
    then ((st.1, (choose_id oid st.2).2), fieldData1, Throws)
    else
      match exampleValues fieldData1 with
      | EVarray l =>
          let backend :=
            update_at p (obj_set (choose_id oid st.2).1 (new_record fd l)) st.1 in
          match (populate_examples (choose_id oid st.2).1 p l backend).2 with
          | Throws => ((backend, (choose_id oid st.2).2), fieldData1, Throws)
          | Normal _ =>
              match nestedFields fd with
              | NFobject m =>
                  let '(st', m', r) :=
                    forEachEntry
                      (λ k g, addField c (p ++ [(choose_id oid st.2).1])
                                       (Some (choose_id oid st.2).1) g (Some k))
                      m (backend, (choose_id oid st.2).2) in
                  (st', set_nestedFields (NFobject m') fieldData1, r)
              | _ => ((backend, (choose_id oid st.2).2), fieldData1, Normal tt)
              end
          end
      | _ => ((st.1, (choose_id oid st.2).2), fieldData1, Throws)
      end.
Proof.
  destruct fd as [n t d pr v ev nf]. cbn [addField].
  destruct (choose_id oid st.2) as [id fc]. cbn [fst snd].
  destruct (find_parent_raises pf); [done|].
  destruct (exampleValues _) as [|l|]; try done.
  match goal with
  | |- context [populate_examples ?i ?q ?x ?b] =>
      pose proof (populate_examples_state i q x b) as Hb;
      destruct (populate_examples i q x b) as [b' [[]|]]
  end; cbn [fst snd] in *; subst; [|done].
  cbn [nestedFields]. destruct nf as [| | |[|kv m]]; try done.
  cbn [forEachEntry].
  rewrite <- (set_nestedFields_same (fill_examples _ _)) at 1.
  by rewrite nestedFields_fill_examples.
Qed.

Lemma collectExampleCount_field_unfold f c :
  collectExampleCount_field f c
  = match exampleValues f with
    | EVundefined => (c, Throws)
    | ev =>
        let c1 :=
          match ev with
          | EVarray l => if c <? Z.of_nat (length l) then Z.of_nat (length l) else c
          | _ => c
          end in
        match nestedFields f with
        | NFobject m => collectExampleCount m c1
        | _ => (c1, Normal tt)
        end
    end.
Proof.
  destruct f as [n t d pr v ev nf]. cbn [collectExampleCount_field exampleValues nestedFields].
  destruct ev; try done; by destruct nf as [| | |[|kv m]].
Qed.

Lemma normalizeExampleCount_field_unfold c f :
  normalizeExampleCount_field c f
  = match exampleValues f with
    | EVundefined => (f, Throws)
    | ev =>
        let f1 :=
          match ev with
          | EVarray l => set_exampleValues (EVarray (pad c l)) f
          | _ => f
          end in
        match nestedFields f with
        | NFobject m =>
            let '(m', r) := normalizeExampleCount c m in
            (set_nestedFields (NFobject m') f1, r)
        | _ => (f1, Normal tt)
        end
    end.
Proof.
  destruct f as [n t d pr v ev nf].
  cbn [normalizeExampleCount_field exampleValues nestedFields].
  destruct ev; try done; destruct nf as [| | |[|kv m]]; try done.
  - unfold normalizeExampleCount.
    by destruct (forEachEntry _ _ _) as [[? ?] ?].
  - unfold normalizeExampleCount.
    by destruct (forEachEntry _ _ _) as [[? ?] ?].
Qed.

Lemma collectAllFields_field_unfold p id f :
  collectAllFields_field p id f
  = (p, id) :: match nestedFields f with
               | NFobject m => collectAllFields (p ++ [id]) m
               | _ => []
               end.
Proof. destruct f as [n t d pr v ev nf]. by destruct nf as [| | |[|kv m]]. Qed.

(** ** The first pass of the loader *)

Lemma all_records_cons k f m :
  all_records ((k, f) :: m)
  = (k, f) :: match nestedFields f with NFobject n => all_records n | _ => [] end
    ++ all_records m.
Proof.
  unfold all_records at 1. cbn [flat_map]. f_equal. f_equal.
  destruct f as [? ? ? ? ? ? nf]. by destruct nf.
Qed.

Lemma lacks_examples_cons k f m :
  lacks_examples ((k, f) :: m)
  = match exampleValues f with
    | EVundefined => true
    | _ => match nestedFields f with NFobject n => lacks_examples n | _ => false end
    end || lacks_examples m.
Proof.
  unfold lacks_examples at 1. cbn [existsb]. f_equal.
  destruct f as [? ? ? ? ? ev nf]. by destruct ev, nf.
Qed.

Lemma collectExampleCount_cons k f m c :
  collectExampleCount ((k, f) :: m) c
  = match collectExampleCount_field f c with
    | (c1, Normal _) => collectExampleCount m c1
    | (c1, Throws) => (c1, Throws)
    end.
Proof. done. Qed.

Lemma collectExampleCount_list m :
  Forall (λ kv, ∀ k c, collect_spec [(k, kv.2)] c
                         (collectExampleCount_field kv.2 c).1
                         (collectExampleCount_field kv.2 c).2) m →
  ∀ c, collect_spec m c (collectExampleCount m c).1 (collectExampleCount m c).2.
Proof.
  induction 1 as [|[k f] m Hf _ IH]; intros c.
  - split_and!; [done | done |]. intros _. split; [|by left].
    intros kv l H. by apply elem_of_nil in H.
  - rewrite collectExampleCount_cons. specialize (Hf k c). cbn [snd] in Hf.
    destruct (collectExampleCount_field f c) as [c1 [[]|]]; cbn [fst snd] in *.
    + specialize (IH c1).
      destruct (collectExampleCount m c1) as [c2 r2]; cbn [fst snd] in *.
      destruct Hf as (Hle1 & Hthrow1 & Hok1), IH as (Hle2 & Hthrow2 & Hok2).
      destruct (Hok1 eq_refl) as [Hub1 Hwit1].
      assert (lacks_examples [(k, f)] = false) as Hno.
      { destruct (lacks_examples [(k, f)]); [|done].
        by destruct Hthrow1 as [_ H']; specialize (H' eq_refl). }
      assert (lacks_examples ((k, f) :: m) = lacks_examples m) as Hl.
      { rewrite lacks_examples_cons. rewrite lacks_examples_cons in Hno.
        rewrite orb_false_r in Hno. by rewrite Hno. }
      assert (all_records ((k, f) :: m) = all_records [(k, f)] ++ all_records m)
        as Hrec.
      { rewrite !all_records_cons. simpl. by rewrite app_nil_r. }
      split_and!; [lia | by rewrite Hl |].
      intros ->. destruct (Hok2 eq_refl) as [Hub2 Hwit2]. split.
      * intros kv l. rewrite Hrec, elem_of_app. intros [Hin|Hin] Hev.
        -- specialize (Hub1 kv l Hin Hev). lia.
        -- by apply (Hub2 kv l).
      * destruct Hwit2 as [->|(kv & l & Hin & Hev & Hlen)].
        -- destruct Hwit1 as [->|(kv & l & Hin & Hev & Hlen)]; [by left|].
           right. exists kv, l. rewrite Hrec, elem_of_app. eauto.
        -- right. exists kv, l. rewrite Hrec, elem_of_app. eauto.
    + destruct Hf as (Hle1 & Hthrow1 & _).
      split_and!; [done | | done].
      rewrite lacks_examples_cons.
      destruct Hthrow1 as [H' _]. specialize (H' eq_refl).
      rewrite lacks_examples_cons, orb_false_r in H'. by rewrite H'.
Qed.

Lemma collectExampleCount_field_spec f : ∀ k c,
  collect_spec [(k, f)] c (collectExampleCount_field f c).1
    (collectExampleCount_field f c).2.
Proof.
  induction f as [n t d pr v ev nf IH] using field_nested_ind. intros k c.
  rewrite collectExampleCount_field_unfold. cbn [exampleValues nestedFields].
  unfold collect_spec. rewrite lacks_examples_cons, all_records_cons.
  cbn [exampleValues nestedFields]. rewrite orb_false_r, app_nil_r.
  destruct ev as [|l|]; [by split_and! | |].
  - set (c1 := if c <? Z.of_nat (length l) then Z.of_nat (length l) else c).
    assert (c ≤ c1 ∧ Z.of_nat (length l) ≤ c1
            ∧ (c1 = c ∨ c1 = Z.of_nat (length l))) as (Hc1 & Hl1 & Hw1).
    { unfold c1. destruct (Z.ltb_spec c (Z.of_nat (length l))); lia. }
    destruct nf as [| | |m]; cbn [fst snd];
      try (split_and!; [done | by split | ]; intros _; split;
           [ intros kv l' ->%list_elem_of_singleton; cbn; intros [= ->]; done
           | destruct Hw1 as [->| ->]; [by left|];
             right; eexists (k, _), l;
             split_and!; [by apply list_elem_of_singleton | |]; done ]).
    pose proof (collectExampleCount_list m (IH m eq_refl) c1) as Hm.
    destruct (collectExampleCount m c1) as [c2 r2]; cbn [fst snd] in *.
    destruct Hm as (Hle2 & Hthrow2 & Hok2).
    split_and!; [lia | done |].
    intros ->. destruct (Hok2 eq_refl) as [Hub2 Hwit2]. split.
    + intros kv l'. rewrite elem_of_cons. intros [->|Hin]; cbn.
      * intros [= ->]. lia.
      * by apply Hub2.
    + destruct Hwit2 as [->|(kv & l' & Hin & Hev & Hlen)].
      * destruct Hw1 as [->| ->]; [by left|].
        right. exists (k, Field n t d pr v (EVarray l) (NFobject m)), l.
        split_and!; [left | |]; done.
      * right. exists kv, l'. split_and!; [by right | |]; done.
  - destruct nf as [| | |m]; cbn [fst snd];
      try (split_and!; [done | by split |]; intros _; split;
           [ intros kv l' ->%list_elem_of_singleton; cbn; done | by left ]).
    pose proof (collectExampleCount_list m (IH m eq_refl) c) as Hm.
    destruct (collectExampleCount m c) as [c2 r2]; cbn [fst snd] in *.
    destruct Hm as (Hle2 & Hthrow2 & Hok2).
    split_and!; [lia | done |].
    intros ->. destruct (Hok2 eq_refl) as [Hub2 Hwit2]. split.
    + intros kv l'. rewrite elem_of_cons. intros [->|Hin]; cbn; [done|].
      by apply Hub2.
    + destruct Hwit2 as [->|(kv & l' & Hin & Hev & Hlen)]; [by left|].
      right. exists kv, l'. split_and!; [by right | |]; done.
Qed.

Lemma collectExampleCount_spec m c :
  collect_spec m c (collectExampleCount m c).1 (collectExampleCount m c).2.
Proof.
  apply collectExampleCount_list, Forall_forall.
  intros [k f] _ k' c'. apply collectExampleCount_field_spec.
Qed.

(** ** Algebra of updates along a path *)

Lemma update_at_ext p g h m :
  (∀ n, resolve p m = Some n → g n = h n) → update_at p g m = update_at p h m.
Proof.
  revert m. induction p as [|id p IH]; intros m H; simpl; [by apply H|].
  apply obj_alter_ext. intros f Hf.
  destruct (nestedFields f) as [| | |n] eqn:En; try done.
  rewrite (IH n); [done|]. intros n' Hn'. apply H. simpl.
  rewrite Hf. unfold nested_obj. by rewrite En.
Qed.

Lemma update_at_compose p g h m :
  update_at p g (update_at p h m) = update_at p (g ∘ h) m.
Proof.
  revert m. induction p as [|id p IH]; intros m; simpl; [done|].
  rewrite obj_alter_alter. apply obj_alter_ext. intros f _. simpl.
  destruct (nestedFields f) as [| | |n] eqn:En; simpl; rewrite ?En; try done.
  by rewrite IH.
Qed.

Lemma update_at_app p q g m :
  update_at (p ++ q) g m = update_at p (update_at q g) m.
Proof.
  revert m. induction p as [|id p IH]; intros m; simpl; [done|].
  apply obj_alter_ext. intros f _.
  destruct (nestedFields f) as [| | |n] eqn:En; try done. by rewrite IH.
Qed.

Lemma update_at_unresolved p g m : resolve p m = None → update_at p g m = m.
Proof.
  revert m. induction p as [|id p IH]; intros m; simpl; [done|].
  induction m as [|[k f] m IHm]; simpl; [done|].
  case_decide; subst.
  - unfold nested_obj. destruct (nestedFields f) as [| | |n] eqn:En; try done.
    intros Hn. rewrite (IH n Hn). f_equal. f_equal.
    rewrite <- En. apply set_nestedFields_same.
  - intros H'. by rewrite IHm.
Qed.

(** ** Well-formed trees *)

Lemma field_ok_unfold P k f :
  field_ok P k f
  ↔ P k f ∧ ∃ m, nestedFields f = NFobject m ∧ tree_ok P m.
Proof.
  assert (∀ m, foldr (λ kv acc, field_ok P kv.1 kv.2 ∧ acc) True m
               ↔ Forall (λ kv, field_ok P kv.1 kv.2) m) as Hfold.
  { induction m as [|kv m IH]; simpl; [by split|].
    rewrite Forall_cons, IH. done. }
  destruct f as [? ? ? ? ? ? nf]. unfold tree_ok.
  destruct nf as [| | |m]; simpl; try rewrite Hfold;
    (split; [intros [? ?]; split; [done|]; eauto; try done
           | intros [? (m' & [= <-] & ?)]; tauto || done]).
Qed.

Lemma tree_ok_nil P : tree_ok P [].
Proof. split; [apply NoDup_nil_2 | apply Forall_nil_2]. Qed.

Lemma tree_ok_lookup P k f m :
  tree_ok P m → obj_get k m = Some f → field_ok P k f.
Proof.
  intros [_ Hall]. induction Hall as [|[k0 f0] m H0 _ IH]; simpl; [done|].
  case_decide; subst; [by intros [= ->] | done].
Qed.

Lemma tree_ok_resolve P p m n :
  tree_ok P m → resolve p m = Some n → tree_ok P n.
Proof.
  revert m. induction p as [|id p IH]; intros m Hm; simpl; [by intros [= ->]|].
  destruct (obj_get id m) as [f|] eqn:Hf; [|done].
  apply (tree_ok_lookup P _ _ _ Hm), field_ok_unfold in Hf
    as (_ & n' & Hn' & Hok).
  unfold nested_obj. rewrite Hn'. by apply IH.
Qed.

Lemma tree_ok_alter P h k m :
  tree_ok P m →
  (∀ f, obj_get k m = Some f → field_ok P k f → field_ok P k (h f)) →
  tree_ok P (obj_alter h k m).
Proof.
  intros [Hnd Hall] Hh. split.
  { pose proof (obj_keys_alter h k m) as E. unfold obj_keys in E. by rewrite E. }
  clear Hnd. induction Hall as [|[k0 f0] m H0 Hall IH]; simpl; [done|].
  simpl in Hh. destruct (decide (k = k0)) as [->|Hne].
  - constructor; [|done]. by apply Hh.
  - constructor; [done|]. by apply IH.
Qed.

Lemma tree_ok_set P k f m :
  tree_ok P m → field_ok P k f → tree_ok P (obj_set k f m).
Proof.
  intros [Hnd Hall] Hf. split.
  - pose proof (obj_keys_set k f m) as Hk. unfold obj_keys in Hk. rewrite Hk.
    case_decide; [done|]. apply NoDup_app. split_and!; [done | | apply NoDup_singleton].
    intros x Hx ->%list_elem_of_singleton. done.
  - clear Hnd. induction Hall as [|[k0 f0] m H0 Hall IH]; simpl.
    + by constructor.
    + case_decide; subst; constructor; auto.
Qed.

Lemma tree_ok_delete P k m : tree_ok P m → tree_ok P (obj_delete k m).
Proof.
  intros [Hnd Hall]. split.
  - clear Hall. induction m as [|[k0 f0] m IH]; simpl; [done|].
    apply NoDup_cons in Hnd as [Hk0 Hnd]. case_decide; [by apply IH|].
    rewrite fmap_cons. apply NoDup_cons. split; [|by apply IH].
    intros Hin. apply Hk0. clear -Hin.
    induction m as [|[k1 f1] m IH]; simpl in *; [done|].
    case_decide; [right; by apply IH|].
    rewrite fmap_cons in Hin. apply elem_of_cons in Hin as [->|Hin];
      [left | right; by apply IH].
  - clear Hnd. induction Hall as [|[k0 f0] m H0 Hall IH]; simpl; [done|].
    case_decide; [done | by constructor].
Qed.

Lemma tree_ok_update_at P p g m :
  own_attributes P → tree_ok P m →
  (∀ n, resolve p m = Some n → tree_ok P n → tree_ok P (g n)) →
  tree_ok P (update_at p g m).
Proof.
  intros Hown. revert m. induction p as [|id p IH]; intros m Hm Hg; simpl.
  - by apply Hg.
  - apply tree_ok_alter; [done|]. intros f Hget Hf.
    apply field_ok_unfold in Hf as (HP & n & Hn & Hok). rewrite Hn.
    apply field_ok_unfold. split; [by apply Hown|].
    exists (update_at p g n). split; [done|].
    apply IH; [done|]. intros n' Hn'. apply Hg. simpl.
    rewrite Hget. unfold nested_obj. by rewrite Hn.
Qed.

(** ** Records of a tree *)

Lemma records_of_unfold f :
  records_of f
  = match nestedFields f with NFobject n => all_records n | _ => [] end.
Proof. by destruct f as [? ? ? ? ? ? []]. Qed.

Lemma Forall_all_records_cons (Q : string * field → Prop) k f m :
  Forall Q (all_records ((k, f) :: m))
  ↔ Q (k, f) ∧ Forall Q (records_of f) ∧ Forall Q (all_records m).
Proof.
  rewrite all_records_cons, Forall_cons, Forall_app, records_of_unfold. done.
Qed.

Lemma lacks_examples_list m :
  Forall (λ kv, ∀ k : string,
            lacks_examples [(k, kv.2)] = false
            ↔ Forall (λ kv, has_examples kv = true) (all_records [(k, kv.2)])) m →
  lacks_examples m = false ↔ Forall (λ kv, has_examples kv = true) (all_records m).
Proof.
  induction 1 as [|[k f] m Hf _ IH]; [done|].
  rewrite lacks_examples_cons, Forall_all_records_cons, <- IH.
  specialize (Hf k).
  rewrite lacks_examples_cons, Forall_all_records_cons in Hf.
  cbn in Hf. rewrite orb_false_r in Hf. rewrite orb_false_iff, Hf.
  split; [intros [(? & ? & _) ?]; by split_and! | intros (? & ? & ?); by split_and!].
Qed.

Lemma lacks_examples_field_has_examples f : ∀ k : string,
  lacks_examples [(k, f)] = false
  ↔ Forall (λ kv, has_examples kv = true) (all_records [(k, f)]).
Proof.
  induction f as [n t d pr v ev nf IH] using field_nested_ind. intros k.
  rewrite lacks_examples_cons, Forall_all_records_cons, records_of_unfold.
  cbn [exampleValues nestedFields]. unfold has_examples at 1. cbn.
  rewrite orb_false_r.
  destruct ev as [|l|]; [split; [done | by intros [? _]] | |].
  all: destruct nf as [| | |m]; try (split; [by repeat constructor | done]).
  all: rewrite (lacks_examples_list m (IH m eq_refl)).
  all: split; [by repeat constructor | by intros (_ & ? & _)].
Qed.

Lemma lacks_examples_has_examples m :
  lacks_examples m = false ↔ Forall (λ kv, has_examples kv = true) (all_records m).
Proof.
  apply lacks_examples_list, Forall_forall. intros [k f] _ k'.
  apply lacks_examples_field_has_examples.
Qed.

(** ** How [addField] picks the id *)

Lemma choose_id_nonempty oid fc : (choose_id oid fc).1 ≠ EmptyString.
Proof.
  unfold choose_id, truthy_id. destruct oid as [[|a s]|]; try done.
Qed.

Lemma choose_id_given id fc :
  id ≠ EmptyString → (choose_id (Some id) fc).1 = id.
Proof. by destruct id. Qed.

Lemma choose_id_id_for oid fc :
  id_for (default EmptyString oid) (choose_id oid fc).1.
Proof.
  unfold choose_id, truthy_id, id_for. destruct oid as [[|a s]|]; cbn; eauto.
Qed.

Lemma id_for_nonempty k id : id_for k id → id ≠ EmptyString.
Proof. unfold id_for. destruct k; [by intros [fc ->] | by intros ->]. Qed.

Lemma find_raises_choose_id oid fc :
  Jq.find_raises (default EmptyString oid) = false →
  Jq.find_raises (choose_id oid fc).1 = false.
Proof.
  unfold choose_id, truthy_id.
  destruct oid as [[|a s]|]; cbn [fst default]; intros H;
    [apply find_raises_generated | done | apply find_raises_generated].
Qed.

Lemma plain_id_choose_id oid fc :
  plain_id (default EmptyString oid) = true →
  plain_id (choose_id oid fc).1 = true.
Proof.
  unfold choose_id, truthy_id.
  destruct oid as [[|a s]|]; cbn [fst default]; intros H;
    [apply plain_id_generated | done | apply plain_id_generated].
Qed.

Lemma choose_id_counter oid fc :
  fc ≤ (choose_id oid fc).2
  ∧ ∀ id n, oid = Some id → id_number id = Some n → n < (choose_id oid fc).2.
Proof.
  unfold choose_id, truthy_id. destruct oid as [[|a s]|]; cbn [snd].
  - split; [lia|]. intros id n [= <-]. done.
  - fold (id_number (String a s)).
    destruct (id_number (String a s)) as [x|] eqn:Hx.
    + destruct (Z.leb_spec fc x); (split; [lia|]);
        intros id n [= <-] Hn; rewrite Hx in Hn; injection Hn as <-; lia.
    + split; [lia|]. intros id n [= <-] Hn. by rewrite Hx in Hn.
  - split; [lia | done].
Qed.

(** ** Loops *)

Lemma forEachEntry_cons {S V} (body : string → V → S → S * V * completion unit)
    k v r s :
  forEachEntry body ((k, v) :: r) s
  = match body k v s with
    | (s1, v1, Normal _) =>
        let '(s2, r2, c) := forEachEntry body r s1 in (s2, (k, v1) :: r2, c)
    | (s1, v1, Throws) => (s1, (k, v1) :: r, Throws)
    end.
Proof. done. Qed.

(** A property of the state that every iteration keeps holds when the
    loop ends, however it ends. *)
Lemma forEachEntry_invariant {S V} (I : S → Prop)
    (body : string → V → S → S * V * completion unit) m s :
  Forall (λ kv, ∀ s, I s → I (body kv.1 kv.2 s).1.1) m →
  I s → I (forEachEntry body m s).1.1.
Proof.
  intros Hall. revert s. induction Hall as [|[k v] m Hkv _ IH]; intros s Hs; [done|].
  rewrite forEachEntry_cons. specialize (Hkv s Hs). cbn [fst snd] in Hkv.
  destruct (body k v s) as [[s1 v1] [[]|]]; cbn [fst] in *; [|done].
  specialize (IH s1 Hkv).
  by destruct (forEachEntry body m s1) as [[s2 r2] c2].
Qed.

Lemma forEach_invariant {S A} (I : S → Prop)
    (body : A → S → S * completion unit) l s :
  Forall (λ x, ∀ s, I s → I (body x s).1) l → I s → I (forEach body l s).1.
Proof.
  intros Hall. revert s. induction Hall as [|x l Hx _ IH]; intros s Hs; [done|].
  cbn [forEach]. specialize (Hx s Hs).
  destruct (body x s) as [s1 [[]|]]; cbn [fst] in *; [by apply IH | done].
Qed.

(** ** [addField] keeps the tree well formed *)

Section addField_tree_ok.
Context (P : string → field → Prop) (c : Z).
Hypothesis Hown : own_attributes P.

Lemma addField_tree_ok fd : ∀ p pf oid st,
  Forall (insertable P c) ((default EmptyString oid, fd) :: records_of fd) →
  tree_ok P st.1 → tree_ok P (addField c p pf fd oid st).1.1.1.
Proof.
  induction fd as [n t d pr v ev nf IH] using field_nested_ind.
  intros p pf oid st [Hins Hrec]%Forall_cons Hst.
  rewrite addField_unfold. cbn zeta.
  destruct (find_parent_raises pf); [done|].
  destruct (exampleValues (fill_examples c _)) as [|l|] eqn:Hev; [done | | done].
  assert (tree_ok P
            (update_at p
               (obj_set (choose_id oid st.2).1
                  (new_record (Field n t d pr v ev nf) l)) st.1)) as Hst1.
  { apply tree_ok_update_at; [done | done |]. intros n0 _ Hn0.
    apply tree_ok_set; [done|]. apply field_ok_unfold. split.
    - apply (Hins _ l); [apply choose_id_id_for | done].
    - exists []. split; [done | apply tree_ok_nil]. }
  destruct (populate_examples _ _ _ _).2 as [[]|]; [|done].
  cbn [nestedFields]. destruct nf as [| | |m]; try done.
  rewrite records_of_unfold in Hrec. cbn [nestedFields] in Hrec.
  match goal with
  | |- context [forEachEntry ?b m ?s] =>
      pose proof (forEachEntry_invariant (λ st, tree_ok P st.1) b m s) as Hloop
  end.
  destruct (forEachEntry _ m _) as [[st' m'] r]. cbn [fst] in *.
  apply Hloop; [|done]. clear Hloop.
  specialize (IH m eq_refl). clear -IH Hrec.
  induction IH as [|[k' f'] m H' _ IHm]; [done|].
  apply Forall_all_records_cons in Hrec as (H1 & H2 & H3).
  constructor; [|by apply IHm].
  intros s Hs. cbn [fst snd]. apply H'; [|done]. by constructor.
Qed.
End addField_tree_ok.

Lemma forEachEntry_completes {S V}
    (body : string → V → S → S * V * completion unit) m s :
  Forall (λ kv, ∀ s, (body kv.1 kv.2 s).2 = Normal tt) m →
  (forEachEntry body m s).2 = Normal tt.
Proof.
  intros Hall. revert s. induction Hall as [|[k v] m Hkv _ IH]; intros s; [done|].
  rewrite forEachEntry_cons. specialize (Hkv s). cbn [fst snd] in Hkv.
  destruct (body k v s) as [[s1 v1] [[]|]]; [|done].
  specialize (IH s1). by destruct (forEachEntry body m s1) as [[s2 r2] c2].
Qed.

Lemma forEachEntry_keeps {S V}
    (body : string → V → S → S * V * completion unit) m s :
  Forall (λ kv, ∀ s, (body kv.1 kv.2 s).1.2 = kv.2) m →
  (forEachEntry body m s).1.2 = m.
Proof.
  intros Hall. revert s. induction Hall as [|[k v] m Hkv _ IH]; intros s; [done|].
  rewrite forEachEntry_cons. specialize (Hkv s). cbn [fst snd] in Hkv.
  destruct (body k v s) as [[s1 v1] [[]|]]; cbn [fst snd] in *; subst; [|done].
  specialize (IH s1). destruct (forEachEntry body m s1) as [[s2 r2] c2].
  cbn [fst snd] in *. by subst.
Qed.

(** ** When [addField] completes, and what it does to its argument *)

Lemma exampleValues_fill_examples c f :
  exampleValues (fill_examples c f)
  = match exampleValues f with
    | EVundefined => EVarray (replicate (Z.to_nat c) EmptyString)
    | ev => ev
    end.
Proof. unfold fill_examples. by destruct f as [? ? ? ? ? [] ?]. Qed.


Lemma get_field_update_at_set p id r m :
  is_Some (resolve p m) → get_field p id (update_at p (obj_set id r) m) = Some r.
Proof.
  intros [n Hn]. unfold get_field. rewrite resolve_update_at, Hn. simpl.
  by rewrite obj_get_set, decide_True.
Qed.





Lemma addField_keeps_fieldData fd : ∀ c p pf oid st,
  Forall (λ kv, has_examples kv = true)
    ((default EmptyString oid, fd) :: records_of fd) →
  (addField c p pf fd oid st).1.2 = fd.
Proof.
  induction fd as [n t d pr v ev nf IH] using field_nested_ind.
  intros c p pf oid st [Hev Hrec]%Forall_cons.
  rewrite addField_unfold. cbn zeta.
  unfold has_examples in Hev. cbn [snd exampleValues nestedFields] in *.
  rewrite records_of_unfold in Hrec. cbn [nestedFields] in Hrec.
  destruct (find_parent_raises pf); [by destruct ev|].
  destruct ev as [|l|]; [done| |done].
  unfold fill_examples. cbn [exampleValues].
  destruct (populate_examples _ _ _ _).2 as [[]|]; [|done].
  destruct nf as [| | |m]; try done.
  match goal with
  | |- context [forEachEntry ?b m ?s] =>
      pose proof (forEachEntry_keeps b m s) as Hloop
  end.
  destruct (forEachEntry _ m _) as [[st' m'] r]. cbn [fst snd] in *.
  rewrite Hloop; [done|]. clear Hloop.
  specialize (IH m eq_refl). clear -IH Hrec.
  induction IH as [|[k' f'] m H' _ IHm]; [done|].
  apply Forall_all_records_cons in Hrec as (H1 & H2 & H3).
  constructor; [|by apply IHm].
  intros s. cbn [fst snd]. apply H'. by constructor.
Qed.

(** ** The field counter stays ahead of the ids it has seen *)

Lemma addField_counter_list c m :
  Forall (λ kv, ∀ p pf oid st,
            counter_spec (from_option (λ id, [id]) [] oid ++ (records_of kv.2).*1)
              st.2 ((addField c p pf kv.2 oid st).1.1,
                    (addField c p pf kv.2 oid st).2)) m →
  ∀ p pf st,
    let res := forEachEntry (λ k g, addField c p pf g (Some k)) m st in
    counter_spec (all_records m).*1 st.2 (res.1.1, res.2).
Proof.
  unfold counter_spec.
  induction 1 as [|[k f] m Hf _ IH]; intros p pf st.
  - split; [done|]. intros _ id n H. by apply elem_of_nil in H.
  - cbn zeta. rewrite forEachEntry_cons.
    specialize (Hf p pf (Some k) st). cbn [snd from_option] in Hf.
    destruct (addField c p pf f (Some k) st) as [[st1 f1] r1]. cbn [fst snd] in Hf.
    destruct Hf as [Hle1 Hb1]. destruct r1 as [[]|]; [|by split].
    specialize (IH p pf st1). cbn zeta in IH.
    destruct (forEachEntry _ m st1) as [[st2 m2] r2]. cbn [fst snd] in *.
    destruct IH as [Hle2 Hb2]. split; [lia|]. intros -> id n Hin Hid.
    rewrite all_records_cons, <- records_of_unfold, fmap_cons, fmap_app in Hin.
    cbn [fst] in Hin.
    apply elem_of_cons in Hin as [->|[Hin|Hin]%elem_of_app].
    + specialize (Hb1 eq_refl k n ltac:(by left) Hid). lia.
    + specialize (Hb1 eq_refl id n ltac:(by right) Hid). lia.
    + by apply (Hb2 eq_refl id n).
Qed.

Lemma addField_counter c fd : ∀ p pf oid st,
  counter_spec (from_option (λ id, [id]) [] oid ++ (records_of fd).*1)
    st.2 ((addField c p pf fd oid st).1.1, (addField c p pf fd oid st).2).
Proof.
  unfold counter_spec.
  induction fd as [nm t d pr v ev nf IH] using field_nested_ind.
  intros p pf oid st. rewrite addField_unfold. cbn zeta.
  destruct (choose_id_counter oid st.2) as [Hle Hb].
  rewrite records_of_unfold. cbn [nestedFields].
  destruct (find_parent_raises pf); [by split|].
  destruct (exampleValues (fill_examples c _)) as [|l|]; try by split.
  destruct (populate_examples _ _ _ _).2 as [[]|]; [|by split].
  destruct nf as [| |z|m].
  1-3: split; cbn [fst snd]; [done|]; intros _ id n Hin Hid;
       rewrite app_nil_r in Hin; destruct oid as [id'|];
       [apply list_elem_of_singleton in Hin as ->; by apply (Hb id')
       | by apply elem_of_nil in Hin].
  pose proof (addField_counter_list c m (IH m eq_refl)
                (p ++ [(choose_id oid st.2).1]) (Some (choose_id oid st.2).1)
                (update_at p (obj_set (choose_id oid st.2).1
                                (new_record (Field nm t d pr v ev (NFobject m)) l))
                   st.1, (choose_id oid st.2).2)) as Hm.
  cbn zeta in Hm. destruct (forEachEntry _ m _) as [[st' m'] r].
  destruct Hm as [Hle' Hb']. cbn [fst snd] in *. split; [lia|].
  intros -> id n [Hin|Hin]%elem_of_app Hid.
  - destruct oid as [id'|]; [|by apply elem_of_nil in Hin].
    apply list_elem_of_singleton in Hin as ->.
    specialize (Hb id' n eq_refl Hid). lia.
  - by apply (Hb' eq_refl id n).
Qed.

(** ** The second pass of the loader *)

Lemma map_examples_cons g k f m :
  map_examples g ((k, f) :: m) = (k, map_examples_field g f) :: map_examples g m.
Proof. done. Qed.

Lemma map_examples_field_unfold g f :
  map_examples_field g f
  = Field (name f) (type f) (isDynamic f) (prompt f) (defaultValue f)
          (g (exampleValues f))
          (match nestedFields f with
           | NFobject m => NFobject (map_examples g m)
           | nf => nf
           end).
Proof. by destruct f as [? ? ? ? ? ? []]. Qed.

Lemma normalizeExampleCount_cons c k f m :
  normalizeExampleCount c ((k, f) :: m)
  = match normalizeExampleCount_field c f with
    | (f1, Normal _) =>
        let '(m1, r) := normalizeExampleCount c m in ((k, f1) :: m1, r)
    | (f1, Throws) => ((k, f1) :: m, Throws)
    end.
Proof.
  unfold normalizeExampleCount. rewrite forEachEntry_cons.
  destruct (normalizeExampleCount_field c f) as [f1 [[]|]]; [|done].
  by destruct (forEachEntry _ m tt) as [[[] m1] r].
Qed.

Lemma normalizeExampleCount_list c m :
  Forall (λ kv, Forall (λ kv, has_examples kv = true) ((kv.1, kv.2) :: records_of kv.2) →
                normalizeExampleCount_field c kv.2
                = (map_examples_field (pad_examples c) kv.2, Normal tt)) m →
  Forall (λ kv, has_examples kv = true) (all_records m) →
  normalizeExampleCount c m = (map_examples (pad_examples c) m, Normal tt).
Proof.
  induction 1 as [|[k f] m Hf _ IH]; intros Hall; [done|].
  apply Forall_all_records_cons in Hall as (H1 & H2 & H3).
  cbn [fst snd] in Hf.
  rewrite normalizeExampleCount_cons, Hf by by constructor.
  by rewrite IH.
Qed.

Lemma normalizeExampleCount_field_has_examples c f : ∀ k : string,
  Forall (λ kv, has_examples kv = true) ((k, f) :: records_of f) →
  normalizeExampleCount_field c f
  = (map_examples_field (pad_examples c) f, Normal tt).
Proof.
  induction f as [nm t d pr v ev nf IH] using field_nested_ind.
  intros k [Hev Hrec]%Forall_cons.
  rewrite normalizeExampleCount_field_unfold, map_examples_field_unfold.
  unfold has_examples in Hev. cbn [snd exampleValues nestedFields] in *.
  rewrite records_of_unfold in Hrec. cbn [nestedFields] in Hrec.
  destruct ev as [|l|]; [done| |].
  all: destruct nf as [| |z|m]; try done.
  all: rewrite (normalizeExampleCount_list c m); [done | | done].
  all: eapply Forall_impl; [exact (IH m eq_refl)|]; intros [k' f'] H'; apply H'.
Qed.

(** On a mapping in which every record has example values, the second
    pass pads every array and completes normally. *)
Lemma normalizeExampleCount_has_examples c m :
  lacks_examples m = false →
  normalizeExampleCount c m = (map_examples (pad_examples c) m, Normal tt).
Proof.
  intros Hm%lacks_examples_has_examples.
  apply normalizeExampleCount_list; [|done].
  apply Forall_forall. intros [k f] _. apply normalizeExampleCount_field_has_examples.
Qed.

(** ** Records of a tree with its example values transformed *)

Lemma all_records_map_examples_list g m :
  Forall (λ kv, ∀ k : string,
            all_records (map_examples g [(k, kv.2)])
            = map (λ kv, (kv.1, map_examples_field g kv.2)) (all_records [(k, kv.2)])) m →
  all_records (map_examples g m)
  = map (λ kv, (kv.1, map_examples_field g kv.2)) (all_records m).
Proof.
  induction 1 as [|[k f] m Hf _ IH]; [done|].
  specialize (Hf k). cbn [snd] in Hf.
  rewrite map_examples_cons, !all_records_cons in Hf.
  change (map_examples g []) with (@nil (string * field)) in Hf.
  change (all_records []) with (@nil (string * field)) in Hf.
  rewrite !app_nil_r, map_cons in Hf. injection Hf as Hf.
  rewrite map_examples_cons, !all_records_cons, map_cons, map_app.
  by rewrite Hf, IH.
Qed.

Lemma all_records_map_examples_field g f : ∀ k : string,
  all_records (map_examples g [(k, f)])
  = map (λ kv, (kv.1, map_examples_field g kv.2)) (all_records [(k, f)]).
Proof.
  induction f as [nm t d pr v ev nf IH] using field_nested_ind. intros k.
  rewrite map_examples_cons, !all_records_cons, map_examples_field_unfold.
  cbn [nestedFields map_examples all_records map flat_map fst snd].
  rewrite !app_nil_r, map_examples_field_unfold. cbn [nestedFields].
  f_equal. destruct nf as [| |z|m]; try done.
  apply all_records_map_examples_list, (IH m eq_refl).
Qed.

Lemma all_records_map_examples g m :
  all_records (map_examples g m)
  = map (λ kv, (kv.1, map_examples_field g kv.2)) (all_records m).
Proof.
  apply all_records_map_examples_list, Forall_forall. intros [k f] _ k'.
  apply all_records_map_examples_field.
Qed.

Lemma all_ids_map_examples g m : all_ids (map_examples g m) = all_ids m.
Proof.
  unfold all_ids. rewrite all_records_map_examples, <- list_fmap_compose.
  by apply list_fmap_ext.
Qed.

Lemma exampleValues_map_examples_field g f :
  exampleValues (map_examples_field g f) = g (exampleValues f).
Proof. by destruct f. Qed.

(** ** The loader, phase by phase *)

Lemma has_examples_map_pad c m :
  Forall (λ kv, has_examples kv = true) (all_records m) →
  Forall (λ kv, has_examples kv = true)
    (all_records (map_examples (pad_examples c) m)).
Proof.
  intros H. rewrite all_records_map_examples, Forall_map.
  eapply Forall_impl; [exact H|].
  intros [k f]. unfold has_examples. cbn [snd].
  rewrite exampleValues_map_examples_field. by destruct (exampleValues f).
Qed.

Lemma buildFieldsFromObject_keeps c m st :
  Forall (λ kv, has_examples kv = true) (all_records m) →
  (buildFieldsFromObject c m st).1.2 = m.
Proof.
  intros Hm. apply forEachEntry_keeps.
  induction m as [|[k f] m IH]; [done|].
  apply Forall_all_records_cons in Hm as (H1 & H2 & H3).
  constructor; [|by apply IH]. intros s.
  apply addField_keeps_fieldData. by constructor.
Qed.

(** A load that finds a record without example values stops in the first
    pass: the failure is reported, the new backend object is empty, the field
    counter is zero and the stored mapping is untouched. *)
Lemma populate_lacking existing s stored :
  heap s !! existing = Some stored →
  lacks_examples stored = true →
  let res := TrackerPromptMaker.populateFromExistingObject existing s in
  res.2 = FailedToLoad
  ∧ TrackerPromptMaker.backend res.1 = []
  ∧ fieldCounter res.1 = 0
  ∧ heap res.1 !! existing = Some stored.
Proof.
  intros Hex Hlack. cbn zeta.
  unfold TrackerPromptMaker.populateFromExistingObject.
  assert (fresh (dom (heap s)) ≠ existing) as Hne.
  { intros <-. apply (is_fresh (dom (heap s))). apply elem_of_dom. eauto. }
  assert (<[fresh (dom (heap s)) := []]> (heap s) !!! existing = stored) as ->.
  { apply lookup_total_correct. by rewrite lookup_insert_ne. }
  pose proof (collectExampleCount_spec stored 0) as (_ & Hthrow & _).
  destruct (collectExampleCount stored 0) as [c [[]|]]; cbn [fst snd] in *.
  - destruct Hthrow as [_ H']. by specialize (H' Hlack).
  - unfold TrackerPromptMaker.backend. cbn.
    rewrite lookup_total_insert_eq, lookup_insert_ne by done. done.
Qed.

(** A load of a mapping in which every record has example values runs
    both passes: the counter is the count found, the stored mapping is
    padded in place, and the fields are built from the padded mapping. *)
Lemma populate_having existing s stored :
  heap s !! existing = Some stored →
  lacks_examples stored = false →
  let res := TrackerPromptMaker.populateFromExistingObject existing s in
  let built :=
    buildFieldsFromObject (collectExampleCount stored 0).1 (normalized stored)
      ([], 0) in
  exampleCounter res.1 = (collectExampleCount stored 0).1
  ∧ heap res.1 !!! existing = normalized stored
  ∧ backendObject res.1 ≠ existing
  ∧ TrackerPromptMaker.backend res.1 = built.1.1.1
  ∧ fieldCounter res.1 = built.1.1.2
  ∧ res.2 = match built.2 with Normal _ => Populated | Throws => FailedToLoad end.
Proof.
  intros Hex Hlack. cbn zeta.
  unfold TrackerPromptMaker.populateFromExistingObject, normalized.
  assert (fresh (dom (heap s)) ≠ existing) as Hne.
  { intros <-. apply (is_fresh (dom (heap s))). apply elem_of_dom. eauto. }
  assert (<[fresh (dom (heap s)) := []]> (heap s) !!! existing = stored) as ->.
  { apply lookup_total_correct. by rewrite lookup_insert_ne. }
  pose proof (collectExampleCount_spec stored 0) as (_ & Hthrow & _).
  destruct (collectExampleCount stored 0) as [c [[]|]]; cbn [fst snd] in *.
  2:{ destruct Hthrow as [H' _]. specialize (H' eq_refl). congruence. }
  rewrite normalizeExampleCount_has_examples by done.
  pose proof (buildFieldsFromObject_keeps c
                (map_examples (pad_examples c) stored) ([], 0)) as Hkeep.
  destruct (buildFieldsFromObject c _ _) as [[st obj2] r]. cbn [fst snd] in *.
  rewrite Hkeep by by apply has_examples_map_pad, lacks_examples_has_examples.
  unfold TrackerPromptMaker.backend. cbn.
  rewrite lookup_total_insert_eq, lookup_total_insert_ne by done.
  rewrite lookup_total_insert_eq. done.
Qed.

Lemma obj_get_map_examples g k m :
  obj_get k (map_examples g m) = map_examples_field g <$> obj_get k m.
Proof.
  induction m as [|[k0 f0] m IH]; [done|].
  rewrite map_examples_cons. simpl. by case_decide.
Qed.

Lemma field_at_map_examples g a m :
  field_at a (map_examples g m) = map_examples_field g <$> field_at a m.
Proof.
  revert m. induction a as [|k a IH]; intros m; [done|]. simpl.
  rewrite obj_get_map_examples. destruct (obj_get k m) as [f|]; [|done]. simpl.
  destruct a as [|k' a]; [done|].
  unfold nested_obj. rewrite map_examples_field_unfold. cbn [nestedFields].
  destruct (nestedFields f) as [| |z|n]; try done.
Qed.





(** ** The loader normalises the caller's object *)

(** C10. When every record of the stored mapping has example values, the
    counter the load leaves is the greatest array length found in the
    mapping, every array shorter than that has been extended with empty
    strings inside the caller's own object, which is not the backend
    object, and the backend object is what the builder makes of the object
    so padded. *)
Theorem populate_pads_the_stored_object (s : state) (existing : loc)
    (stored : fields) :
  heap s !! existing = Some stored →
  lacks_examples stored = false →
  let s' := (TrackerPromptMaker.populateFromExistingObject existing s).1 in
  let c := exampleCounter s' in
  (∀ kv l, kv ∈ all_records stored → exampleValues kv.2 = EVarray l →
           Z.of_nat (length l) ≤ c)
  ∧ (c = 0 ∨ ∃ kv l, kv ∈ all_records stored ∧ exampleValues kv.2 = EVarray l
                      ∧ Z.of_nat (length l) = c)
  ∧ backendObject s' ≠ existing
  ∧ (∀ a f l, field_at a stored = Some f → exampleValues f = EVarray l →
       exampleValues <$> field_at a (heap s' !!! existing)
       = Some (EVarray
                 (l ++ replicate (Z.to_nat (c - Z.of_nat (length l))) EmptyString)))
  ∧ TrackerPromptMaker.backend s'
    = (buildFieldsFromObject c (heap s' !!! existing) ([], 0)).1.1.1.
Proof.
  intros Hex Hlack.
  destruct (populate_having existing s stored Hex Hlack)
    as (Hc & Hin & Hne & Hb & _).
  cbn zeta in *. rewrite Hc, Hin.
  pose proof (collectExampleCount_spec stored 0) as (_ & Hthrow & Hok).
  assert ((collectExampleCount stored 0).2 = Normal tt) as Hnormal.
  { destruct (collectExampleCount stored 0).2 as [[]|]; [done|].
    destruct Hthrow as [H' _]. specialize (H' eq_refl). congruence. }
  destruct (Hok Hnormal) as [Hub Hwit].
  split_and!; try done.
  intros a f l Ha Hl. unfold normalized.
  rewrite field_at_map_examples, Ha. simpl.
  by rewrite exampleValues_map_examples_field, Hl.
Qed.

Lemma populate_pads_the_stored_object_witness :
  let s' := (TrackerPromptMaker.populateFromExistingObject
               state_with_stored.1 state_with_stored.2).1 in
  exampleCounter s' = 2
  ∧ exampleValues <$> field_at ["field-0"; "field-7"]%string
                        (heap s' !!! state_with_stored.1)
    = Some (EVarray [EmptyString; EmptyString]).
Proof.
  destruct (populate_pads_the_stored_object state_with_stored.2
              state_with_stored.1 stored_uneven eq_refl eq_refl)
    as (_ & _ & _ & Hpad & _).
  split; [reflexivity|].
  exact (Hpad ["field-0"; "field-7"]%string _ [] eq_refl eq_refl).
Defined.

(** ** Stored mappings the loader cannot read *)

(** Where example values cannot be spread, the exception comes while the
    fields are being built: the failure is reported, and the fields built
    before it stay in the backend object. *)
Lemma populate_stops_at_unspreadable_examples :
  let st := alloc stored_unspreadable TrackerPromptMaker.constructor_default in
  let res := TrackerPromptMaker.populateFromExistingObject st.1 st.2 in
  res.2 = FailedToLoad
  ∧ obj_keys (TrackerPromptMaker.backend res.1) = ["field-0"%string]
  ∧ fieldCounter res.1 = 2.
Proof. by vm_compute. Qed.

(** So it is where the container of a field cannot be looked up: the
    record with the quoted id is stored before the lookup raises, and the
    records after it are not built. *)
Lemma populate_stops_at_quoted_id :
  let stored := [("field-0"%string, new_record one_example_fieldData ["rain"%string]);
                 (quoted_id, new_record one_example_fieldData ["rain"%string]);
                 ("field-2"%string, new_record one_example_fieldData ["rain"%string])] in
  let st := alloc stored TrackerPromptMaker.constructor_default in
  let res := TrackerPromptMaker.populateFromExistingObject st.1 st.2 in
  lacks_examples stored = false
  ∧ res.2 = FailedToLoad
  ∧ obj_keys (TrackerPromptMaker.backend res.1) = ["field-0"%string; quoted_id]
  ∧ fieldCounter res.1 = 1.
Proof. by vm_compute. Qed.

(** C5, as stated, fails: a stored record without name, type, dynamic
    flag, prompt and default value, whose nested fields are [null], is
    loaded without any failure report. *)
Lemma populate_accepts_bare_record :
  let st := alloc stored_bare TrackerPromptMaker.constructor_default in
  let res := TrackerPromptMaker.populateFromExistingObject st.1 st.2 in
  (name <$> obj_get "field-0" stored_bare = Some None)
  ∧ (nestedFields <$> obj_get "field-0" stored_bare = Some NFnull)
  ∧ res.2 = Populated
  ∧ TrackerPromptMaker.backend res.1
    = [("field-0"%string, new_record empty_fieldData [])].
Proof. by vm_compute. Qed.

(** ** Ids after a load *)

Lemma buildFieldsFromObject_counter c m st :
  counter_spec (all_ids m) st.2
    ((buildFieldsFromObject c m st).1.1, (buildFieldsFromObject c m st).2).
Proof.
  apply (addField_counter_list c m), Forall_forall.
  intros [k f] _ p oid st'. apply addField_counter.
Qed.

(** What a click on the button that adds a field does. *)
Lemma addField_button s :
  0 ≤ fieldCounter s →
  let newId := String.append "field-" (Js.number_to_string (fieldCounter s)) in
  let res := TrackerPromptMaker.addField [] None empty_fieldData None s in
  res.2 = Normal tt
  ∧ TrackerPromptMaker.backend res.1
    = obj_set newId
        (new_record empty_fieldData
           (replicate (Z.to_nat (exampleCounter s)) EmptyString))
        (TrackerPromptMaker.backend s)
  ∧ id_number newId = Some (fieldCounter s)
  ∧ fieldCounter res.1 = fieldCounter s + 1.
Proof.
  intros Hfc. cbn zeta. unfold TrackerPromptMaker.addField.
  rewrite addField_unfold.
  cbn [find_parent_raises truthy_id empty_fieldData fill_examples exampleValues
       set_exampleValues nestedFields choose_id fst snd update_at].
  cbn zeta.
  rewrite (populate_examples_completes _ [] _ _
             (new_record empty_fieldData
                (replicate (Z.to_nat (exampleCounter s)) EmptyString))
             (replicate (Z.to_nat (exampleCounter s)) EmptyString));
    [| apply find_raises_generated
     | unfold get_field; cbn [resolve]; by rewrite obj_get_set, decide_True
     | done].
  cbn.
  unfold TrackerPromptMaker.backend at 1. cbn.
  rewrite lookup_total_insert_eq. split_and!; try done.
  by apply id_number_generated.
Qed.

(** C7. After a load that reported no failure of a stored mapping in
    which the id [field-7] occurs at some depth, the field counter is above
    seven, so the next field added without an id gets the id made from a
    number above seven; and that id differs from every id of the stored
    mapping that is made from a number.  The ids of the stored mapping are
    taken to carry numbers on which the engine's arithmetic is exact, as
    the integers of this model are. *)
Theorem populate_then_addField_fresh_id (s : state) (existing : loc)
    (stored : fields) :
  heap s !! existing = Some stored →
  forallb safe_id (all_ids stored) = true →
  (TrackerPromptMaker.populateFromExistingObject existing s).2 = Populated →
  "field-7"%string ∈ all_ids stored →
  let s' := (TrackerPromptMaker.populateFromExistingObject existing s).1 in
  let newId := String.append "field-" (Js.number_to_string (fieldCounter s')) in
  let res := TrackerPromptMaker.addField [] None empty_fieldData None s' in
  7 < fieldCounter s'
  ∧ res.2 = Normal tt
  ∧ TrackerPromptMaker.backend res.1
    = obj_set newId
        (new_record empty_fieldData
           (replicate (Z.to_nat (exampleCounter s')) EmptyString))
        (TrackerPromptMaker.backend s')
  ∧ id_number newId = Some (fieldCounter s')
  ∧ ∀ n, 0 ≤ n →
         String.append "field-" (Js.number_to_string n) ∈ all_ids stored →
         n < fieldCounter s'
         ∧ newId ≠ String.append "field-" (Js.number_to_string n).
Proof.
  intros Hex _ Hpop H7. cbn zeta.
  destruct (lacks_examples stored) eqn:Hlack.
  { destruct (populate_lacking existing s stored Hex Hlack) as (Hr & _).
    cbn zeta in Hr. congruence. }
  destruct (populate_having existing s stored Hex Hlack)
    as (_ & _ & _ & _ & Hfc & Hr).
  cbn zeta in *. rewrite Hpop in Hr.
  pose proof (buildFieldsFromObject_counter (collectExampleCount stored 0).1
                (normalized stored) ([], 0)) as [Hle Hbound].
  destruct (buildFieldsFromObject _ _ _) as [[st obj2] [[]|]]; [|done].
  cbn [fst snd] in *. rewrite <- Hfc in *.
  unfold normalized in Hbound. rewrite all_ids_map_examples in Hbound.
  specialize (Hbound eq_refl).
  assert (7 < fieldCounter
                (TrackerPromptMaker.populateFromExistingObject existing s).1) as H8.
  { by apply (Hbound "field-7"%string 7 H7). }
  destruct (addField_button
              (TrackerPromptMaker.populateFromExistingObject existing s).1)
    as (Hn & Hb & Hid & _); [lia|].
  cbn zeta in *. split_and!; try done.
  intros n Hn0 Hin.
  assert (n < fieldCounter
                (TrackerPromptMaker.populateFromExistingObject existing s).1) as Hlt.
  { apply (Hbound _ n Hin). by apply id_number_generated. }
  split; [done|]. intros Heq. rewrite Heq, id_number_generated in Hid by done.
  injection Hid as ->. lia.
Qed.

Lemma populate_then_addField_fresh_id_witness :
  let s' := (TrackerPromptMaker.populateFromExistingObject
               state_with_stored.1 state_with_stored.2).1 in
  7 < fieldCounter s'
  ∧ obj_keys (TrackerPromptMaker.backend
                (TrackerPromptMaker.addField [] None empty_fieldData None s').1)
    = ["field-0"; "field-1"; "field-8"]%string.
Proof.
  destruct (populate_then_addField_fresh_id state_with_stored.2
              state_with_stored.1 stored_uneven eq_refl eq_refl eq_refl)
    as (H7 & _ & Hb & _).
  { by apply (bool_decide_unpack _). }
  split; [exact H7|]. cbn zeta in Hb. rewrite Hb. reflexivity.
Defined.

(** ** A walk over all fields is a map over the tree *)

Lemma forEach_app {S A} (body : A → S → S * completion unit) l1 l2 s :
  forEach body (l1 ++ l2) s
  = match forEach body l1 s with
    | (s1, Normal _) => forEach body l2 s1
    | (s1, Throws) => (s1, Throws)
    end.
Proof.
  revert s. induction l1 as [|x l1 IH]; intros s; [done|]. simpl.
  destruct (body x s) as [s1 [[]|]]; [apply IH | done].
Qed.

Lemma collectAllFields_cons p k f m :
  collectAllFields p ((k, f) :: m)
  = collectAllFields_field p k f ++ collectAllFields p m.
Proof. done. Qed.

Lemma obj_get_app_fresh {V} k (v : V) pre post :
  k ∉ pre.*1 → obj_get k (pre ++ (k, v) :: post) = Some v.
Proof.
  induction pre as [|[k0 v0] pre IH]; simpl.
  - intros _. by rewrite decide_True.
  - rewrite not_elem_of_cons. intros [? ?]. rewrite decide_False by done. auto.
Qed.

Lemma obj_alter_app_fresh {V} (h : V → V) k v pre post :
  k ∉ pre.*1 → obj_alter h k (pre ++ (k, v) :: post) = pre ++ (k, h v) :: post.
Proof.
  intros Hk. rewrite obj_alter_app_r by done. simpl. by rewrite decide_True.
Qed.

Section walk.
Context (body : string → list string → fields → fields * completion unit).
Context (g : examples → examples) (R : string → field → Prop).
Hypothesis R_array : ∀ k f, R k f → ∃ l, exampleValues f = EVarray l.
Hypothesis body_spec : ∀ id p T f l,
  get_field p id T = Some f → exampleValues f = EVarray l → R id f →
  body id p T
  = (update_at p (obj_alter (set_exampleValues (g (EVarray l))) id) T, Normal tt).

Lemma walk_list n :
  Forall (λ kv, walk_field body g R kv.2) n →
  ∀ T p pre,
    resolve p T = Some (pre ++ n) → NoDup (pre ++ n).*1 →
    Forall (λ kv, field_ok R kv.1 kv.2) n →
    forEach (λ r, body r.2 r.1) (collectAllFields p n) T
    = (update_at p (λ _, pre ++ map_examples g n) T, Normal tt).
Proof.
  induction 1 as [|[k f] n Hf _ IH]; intros T p pre Hres Hnd Hok.
  - simpl. f_equal. rewrite app_nil_r in *.
    rewrite <- (update_at_ext p id); [|by intros n' Hn'; rewrite Hres in Hn'; injection Hn' as <-].
    clear. revert T. induction p as [|k p IHp]; intros T; simpl; [done|].
    induction T as [|[k0 f0] T IHT]; simpl; [done|].
    case_decide; subst; [|by rewrite <- IHT].
    destruct (nestedFields f0) as [| |z|n] eqn:En; try done.
    rewrite <- IHp, <- En. by rewrite set_nestedFields_same.
  - apply Forall_cons in Hok as [Hokf Hokn].
    assert (k ∉ pre.*1) as Hk.
    { rewrite fmap_app, fmap_cons in Hnd. apply NoDup_app in Hnd as (_ & Hd & _).
      intros Hin. apply (Hd k Hin). left. }
    rewrite collectAllFields_cons, forEach_app.
    unfold walk_field in Hf. cbn [snd] in Hf.
    rewrite (Hf T p k pre n Hres Hk Hokf).
    rewrite (IH _ p (pre ++ [(k, map_examples_field g f)])).
    + f_equal. rewrite update_at_compose. apply update_at_ext.
      intros n' _. simpl. by rewrite <- app_assoc.
    + rewrite resolve_update_at, Hres. simpl. by rewrite <- app_assoc.
    + rewrite <- app_assoc. simpl.
      rewrite fmap_app, fmap_cons in *. done.
    + done.
Qed.

Lemma walk_field_all f : walk_field body g R f.
Proof.
  induction f as [nm t d pr v ev nf IH] using field_nested_ind.
  intros T p k pre post Hres Hk Hok.
  apply field_ok_unfold in Hok as (HR & m & Hm & Hokm).
  destruct (R_array _ _ HR) as [l Hev].
  cbn [exampleValues nestedFields] in *. subst ev nf.
  rewrite collectAllFields_field_unfold. cbn [nestedFields forEach fst snd].
  set (f := Field nm t d pr v (EVarray l) (NFobject m)).
  set (f1 := set_exampleValues (g (EVarray l)) f).
  rewrite (body_spec k p T f l); [|unfold get_field; rewrite Hres;
                                   by apply obj_get_app_fresh | done | done].
  assert (update_at p (obj_alter (set_exampleValues (g (EVarray l))) k) T
          = update_at p (λ _, pre ++ (k, f1) :: post) T) as ->.
  { apply update_at_ext. intros n Hn. rewrite Hres in Hn. injection Hn as <-.
    by apply obj_alter_app_fresh. }
  destruct Hokm as [Hndm Hallm].
  rewrite (walk_list m (IH m eq_refl) _ (p ++ [k]) []).
  - f_equal. rewrite update_at_app, update_at_compose. apply update_at_ext.
    intros n' _. simpl. by rewrite obj_alter_app_fresh.
  - rewrite resolve_update_at_app, Hres. simpl.
    by rewrite obj_get_app_fresh.
  - done.
  - done.
Qed.

Lemma walk_all_fields m :
  tree_ok R m →
  forEach (λ r, body r.2 r.1) (collectAllFields [] m) m
  = (map_examples g m, Normal tt).
Proof.
  intros [Hnd Hall].
  rewrite (walk_list m (proj2 (Forall_forall _ _) (λ kv _, walk_field_all kv.2))
             m [] []); done.
Qed.
End walk.

(** ** Well-formed trees, continued *)

Lemma field_ok_and P Q f : ∀ k,
  field_ok P k f → field_ok Q k f → field_ok (λ k f, P k f ∧ Q k f) k f.
Proof.
  induction f as [n t d pr v ev nf IH] using field_nested_ind. intros k.
  rewrite !field_ok_unfold.
  intros (HP & m & Hm & Hnd & HallP) (HQ & m' & Hm' & _ & HallQ).
  rewrite Hm in Hm'. injection Hm' as <-. split; [done|].
  exists m. split; [done|]. split; [done|].
  cbn [nestedFields] in Hm. specialize (IH m Hm). clear -IH HallP HallQ.
  induction IH as [|[k' f'] m H' _ IHm]; [done|].
  apply Forall_cons in HallP as [? ?]. apply Forall_cons in HallQ as [? ?].
  constructor; [by apply H' | by apply IHm].
Qed.

Lemma tree_ok_and P Q m :
  tree_ok P m → tree_ok Q m → tree_ok (λ k f, P k f ∧ Q k f) m.
Proof.
  intros [Hnd HP] [_ HQ]. split; [done|]. clear Hnd.
  induction HP as [|[k f] m H _ IH]; [done|].
  apply Forall_cons in HQ as [? ?].
  constructor; [by apply field_ok_and | by apply IH].
Qed.

Lemma tree_ok_map_examples_list P P' g m :
  Forall (λ kv, ∀ k, field_ok P k kv.2 → field_ok P' k (map_examples_field g kv.2)) m →
  tree_ok P m → tree_ok P' (map_examples g m).
Proof.
  intros Hall [Hnd Hok]. split.
  - unfold map_examples. rewrite <- list_fmap_compose.
    by rewrite (list_fmap_ext _ fst m) by done.
  - clear Hnd. induction Hall as [|[k f] m Hf _ IH]; [done|].
    apply Forall_cons in Hok as [Hokf Hokm].
    rewrite map_examples_cons. constructor; [by apply Hf | by apply IH].
Qed.

Lemma field_ok_map_examples P P' g :
  (∀ k f, P k f → P' k (map_examples_field g f)) →
  ∀ f k, field_ok P k f → field_ok P' k (map_examples_field g f).
Proof.
  intros HP. induction f as [nm t d pr v ev nf IH] using field_nested_ind.
  intros k (HPf & m & Hm & Hokm)%field_ok_unfold.
  apply field_ok_unfold. split; [by apply HP|].
  cbn [nestedFields] in Hm. subst nf.
  exists (map_examples g m). split; [done|].
  by apply (tree_ok_map_examples_list P); [apply (IH m eq_refl)|].
Qed.

Lemma tree_ok_map_examples P P' g m :
  (∀ k f, P k f → P' k (map_examples_field g f)) →
  tree_ok P m → tree_ok P' (map_examples g m).
Proof.
  intros HP. apply tree_ok_map_examples_list, Forall_forall.
  intros [k f] _ k'. by apply (field_ok_map_examples P).
Qed.

Lemma tree_ok_all_records_list P m :
  Forall (λ kv, ∀ k, field_ok P k kv.2 →
                     Forall (λ kv, P kv.1 kv.2) ((k, kv.2) :: records_of kv.2)) m →
  tree_ok P m → Forall (λ kv, P kv.1 kv.2) (all_records m).
Proof.
  intros Hall [_ Hok]. induction Hall as [|[k f] m Hf _ IH]; [done|].
  apply Forall_cons in Hok as [Hokf Hokm].
  apply Forall_all_records_cons. specialize (Hf k Hokf).
  apply Forall_cons in Hf as [? ?]. split_and!; [done | done | by apply IH].
Qed.

Lemma field_ok_all_records P f : ∀ k,
  field_ok P k f → Forall (λ kv, P kv.1 kv.2) ((k, f) :: records_of f).
Proof.
  induction f as [nm t d pr v ev nf IH] using field_nested_ind.
  intros k (HPf & m & Hm & Hokm)%field_ok_unfold.
  constructor; [done|]. rewrite records_of_unfold, Hm.
  cbn [nestedFields] in Hm. subst nf.
  by apply tree_ok_all_records_list; [apply (IH m eq_refl)|].
Qed.

Lemma tree_ok_all_records P m :
  tree_ok P m → Forall (λ kv, P kv.1 kv.2) (all_records m).
Proof.
  apply tree_ok_all_records_list, Forall_forall.
  intros [k f] _ k'. apply field_ok_all_records.
Qed.

Lemma own_attributes_array_with Q : own_attributes (array_with Q).
Proof. intros k f nf. unfold array_with. by destruct f. Qed.

Lemma field_ok_array_with_setter Q (h : field → field) k f :
  (∀ f, exampleValues (h f) = exampleValues f
        ∧ nestedFields (h f) = nestedFields f) →
  field_ok (array_with Q) k f → field_ok (array_with Q) k (h f).
Proof.
  intros Hh. rewrite !field_ok_unfold. unfold array_with.
  destruct (Hh f) as [-> ->]. done.
Qed.

Lemma buildFieldsFromObject_tree_ok P c m st :
  own_attributes P →
  Forall (insertable P c) (all_records m) →
  tree_ok P st.1 → tree_ok P (buildFieldsFromObject c m st).1.1.1.
Proof.
  intros Hown Hins Hst.
  apply (forEachEntry_invariant (λ st, tree_ok P st.1)); [|done].
  clear st Hst. induction m as [|[k f] m IH]; [done|].
  apply Forall_all_records_cons in Hins as (H1 & H2 & H3).
  constructor; [|by apply IH]. intros s Hs. cbn [fst snd].
  apply (addField_tree_ok P c Hown f); [by constructor | done].
Qed.

(** ** What every call keeps of a well-formed tree *)

Lemma mutation_keeps o p id g :
  mutation o = Some (p, id, g) →
  ∀ f, exampleValues (g f) = exampleValues f ∧ nestedFields (g f) = nestedFields f.
Proof.
  destruct o; cbn [mutation]; try done;
    try (by intros [= <- <- <-] []).
  destruct (Js.includes Js.quote newName); [done|]. by intros [= <- <- <-] [].
Qed.

Lemma backend_State h l m fc ec sv :
  TrackerPromptMaker.backend (State (<[l := m]> h) l fc ec sv) = m.
Proof. unfold TrackerPromptMaker.backend. cbn. apply lookup_total_insert_eq. Qed.

Lemma backend_on_backend {A} (f : fields → fields * completion A) s :
  TrackerPromptMaker.backend (TrackerPromptMaker.on_backend f s).1
  = (f (TrackerPromptMaker.backend s)).1.
Proof.
  unfold TrackerPromptMaker.on_backend.
  destruct (f (TrackerPromptMaker.backend s)) as [m r]. cbn [fst].
  apply backend_set_backend.
Qed.

(** The lookup in [selectFieldType] comes after the assignment. *)
Lemma selectFieldType_state x id p m :
  (selectFieldType x id p m).1 = (assign (set_type x) id p m).1.
Proof.
  unfold selectFieldType. destruct (assign _ _ _ _) as [m' [[]|]]; [|done].
  by destruct (Jq.find_raises id).
Qed.

(** The tree a call of one of the assignments leaves. *)
Lemma step_mutation o p id g s :
  mutation o = Some (p, id, g) →
  TrackerPromptMaker.backend (step o s)
  = (assign g id p (TrackerPromptMaker.backend s)).1.
Proof.
  destruct o; cbn [mutation step]; try done.
  - destruct (Js.includes Js.quote newName) eqn:Hq; [done|]. intros [= <- <- <-].
    unfold TrackerPromptMaker.validateFieldName. rewrite backend_on_backend.
    unfold validateFieldName. rewrite Hq.
    by destruct (assign _ _ _ _) as [m [[]|]].
  - intros [= <- <- <-]. unfold TrackerPromptMaker.selectFieldType.
    by rewrite backend_on_backend, selectFieldType_state.
  - intros [= <- <- <-]. unfold TrackerPromptMaker.toggleStaticDynamic.
    by rewrite backend_on_backend.
  - intros [= <- <- <-]. unfold TrackerPromptMaker.updatePrompt.
    by rewrite backend_on_backend.
  - intros [= <- <- <-]. unfold TrackerPromptMaker.updateDefaultValue.
    by rewrite backend_on_backend.
Qed.

(** A renaming that is rejected leaves the tree as it is. *)
Lemma step_rejected_name x id p s :
  Js.includes Js.quote x = true →
  TrackerPromptMaker.backend (step (OpValidateFieldName x id p) s)
  = TrackerPromptMaker.backend s.
Proof.
  intros Hq. cbn [step]. unfold TrackerPromptMaker.validateFieldName.
  rewrite backend_on_backend. unfold validateFieldName. by rewrite Hq.
Qed.

Section tree_invariant.
Context (P : string → field → Prop).
Hypothesis Hown : own_attributes P.
Hypothesis Hex : ∀ k f l, P k f → P k (set_exampleValues (EVarray l) f).

Lemma field_ok_setter (h : field → field) k f :
  (P k f → P k (h f)) → nestedFields (h f) = nestedFields f →
  field_ok P k f → field_ok P k (h f).
Proof.
  intros HP Hnf. rewrite !field_ok_unfold. intros [Hf (m & Hm & Hok)].
  split; [by apply HP|]. exists m. by rewrite Hnf.
Qed.

Lemma assign_tree_ok (h : field → field) id p m :
  (∀ k f, P k f → P k (h f)) → (∀ f, nestedFields (h f) = nestedFields f) →
  tree_ok P m → tree_ok P (assign h id p m).1.
Proof.
  intros HP Hnf Hm. unfold assign. destruct (get_field p id m); [|done]. cbn [fst].
  apply tree_ok_update_at; [done..|].
  intros n _ Hn. apply tree_ok_alter; [done|]. intros f' _.
  apply field_ok_setter; [apply HP | apply Hnf].
Qed.

Lemma set_examples_tree_ok l id p m :
  tree_ok P m →
  tree_ok P (update_at p (obj_alter (set_exampleValues (EVarray l)) id) m).
Proof.
  intros Hm. apply tree_ok_update_at; [done..|].
  intros n _ Hn. apply tree_ok_alter; [done|]. intros f' _.
  apply field_ok_setter; [apply Hex | done].
Qed.

Lemma addExampleValue_tree_ok id p x b m :
  tree_ok P m → tree_ok P (addExampleValue id p x b m).1.
Proof.
  intros Hm. unfold addExampleValue.
  destruct (get_field p id m) as [f|]; [|done].
  destruct (exampleValues f) as [|l|]; [done| |];
    (destruct (Jq.find_raises id); [done|]); (destruct b; [|done]); [|done].
  by apply set_examples_tree_ok.
Qed.

Lemma removeLastExampleValue_tree_ok id p m :
  tree_ok P m → tree_ok P (removeLastExampleValue id p m).1.
Proof.
  intros Hm. unfold removeLastExampleValue.
  destruct (get_field p id m) as [f|]; [|done].
  destruct (exampleValues f) as [|[|x l]|]; try done.
  cbn zeta. destruct (Jq.find_raises id); by apply set_examples_tree_ok.
Qed.

Lemma addExampleValueToAllFields_tree_ok st :
  tree_ok P st.1 → tree_ok P (addExampleValueToAllFields st).1.1.
Proof.
  intros Hm. unfold addExampleValueToAllFields.
  pose proof (forEach_invariant (tree_ok P)
                (λ r, addExampleValue r.2 r.1 EmptyString true)
                (collectAllFields [] st.1) st.1) as H.
  destruct (forEach _ _ _) as [m [[]|]]; cbn [fst] in *; apply H; try done;
    apply Forall_forall; intros r _ T HT; by apply addExampleValue_tree_ok.
Qed.

Lemma removeExampleValueFromAllFields_tree_ok st :
  tree_ok P st.1 → tree_ok P (removeExampleValueFromAllFields st).1.1.
Proof.
  intros Hm. unfold removeExampleValueFromAllFields.
  pose proof (forEach_invariant (tree_ok P)
                (λ r, removeLastExampleValue r.2 r.1)
                (collectAllFields [] st.1) st.1) as H.
  destruct (forEach _ _ _) as [m [[]|]]; cbn [fst] in *; apply H; try done;
    apply Forall_forall; intros r _ T HT; by apply removeLastExampleValue_tree_ok.
Qed.

(** Every call but [addField] and the loader keeps the tree well formed,
    provided the assignment it makes, if any, keeps [P]. *)
Lemma step_tree_ok_rest o s :
  is_addField o = false → is_populate o = false →
  (∀ p id g, mutation o = Some (p, id, g) → ∀ k f, P k f → P k (g f)) →
  tree_ok P (TrackerPromptMaker.backend s) →
  tree_ok P (TrackerPromptMaker.backend (step o s)).
Proof.
  intros Hadd Hpop Hmut Hs.
  destruct (mutation o) as [[[p id] g]|] eqn:Hm.
  { rewrite (step_mutation o p id g s Hm).
    apply assign_tree_ok; [by apply (Hmut p id g) | | done].
    intros f. by apply (mutation_keeps o p id g Hm). }
  destruct o as [p pf fd id|id p ok|x id p|x id p|x id p|x id p|x id p| | |stored];
    try done.
  - cbn [step]. unfold TrackerPromptMaker.removeField. destruct ok; [|done].
    unfold TrackerPromptMaker.syncBackendObject.
    change (tree_ok P
              (TrackerPromptMaker.backend
                 (TrackerPromptMaker.set_backend
                    (update_at p (obj_delete id) (TrackerPromptMaker.backend s)) s))).
    rewrite backend_set_backend.
    apply tree_ok_update_at; [done..|]. intros n _ Hn. by apply tree_ok_delete.
  - cbn [mutation] in Hm. destruct (Js.includes Js.quote x) eqn:Hq; [|done].
    by rewrite step_rejected_name.
  - cbn [step]. unfold TrackerPromptMaker.addExampleValueToAllFields.
    pose proof (addExampleValueToAllFields_tree_ok
                  (TrackerPromptMaker.backend s, exampleCounter s) Hs) as H.
    destruct (addExampleValueToAllFields _) as [st [[]|]]; cbn [fst] in *.
    + unfold TrackerPromptMaker.syncBackendObject, TrackerPromptMaker.triggerSaveCallback.
      cbn [heap backendObject fieldCounter exampleCounter saved].
      by rewrite backend_State.
    + by rewrite backend_State.
  - cbn [step]. unfold TrackerPromptMaker.removeExampleValueFromAllFields.
    pose proof (removeExampleValueFromAllFields_tree_ok
                  (TrackerPromptMaker.backend s, exampleCounter s) Hs) as H.
    destruct (removeExampleValueFromAllFields _) as [st [[]|]]; cbn [fst] in *.
    + unfold TrackerPromptMaker.syncBackendObject, TrackerPromptMaker.triggerSaveCallback.
      cbn [heap backendObject fieldCounter exampleCounter saved].
      by rewrite backend_State.
    + by rewrite backend_State.
Qed.

End tree_invariant.

Lemma populate_tree_ok P existing s :
  own_attributes P → (∀ c kv, insertable P c kv) →
  tree_ok P (TrackerPromptMaker.backend
               (TrackerPromptMaker.populateFromExistingObject existing s).1).
Proof.
  intros Hown Hins. unfold TrackerPromptMaker.populateFromExistingObject.
  destruct (decide (existing = fresh (dom (heap s)))) as [->|Hne].
  { rewrite lookup_total_insert_eq.
    change (collectExampleCount [] 0) with (0, @Normal unit tt). cbv iota beta.
    change (normalizeExampleCount 0 []) with (@nil (string * field), @Normal unit tt).
    cbv iota beta.
    change (buildFieldsFromObject 0 [] ([], 0))
      with (@nil (string * field), 0, @nil (string * field), @Normal unit tt).
    cbv iota beta. cbn [fst snd]. rewrite backend_State. apply tree_ok_nil. }
  destruct (collectExampleCount _ 0) as [c [[]|]].
  2:{ cbn [fst]. rewrite backend_State. apply tree_ok_nil. }
  destruct (normalizeExampleCount c _) as [obj1 [[]|]].
  2:{ cbn [fst]. unfold TrackerPromptMaker.backend. cbn.
      rewrite lookup_total_insert_ne by done. rewrite lookup_total_insert_eq.
      apply tree_ok_nil. }
  pose proof (buildFieldsFromObject_tree_ok P c obj1 ([], 0) Hown) as H.
  destruct (buildFieldsFromObject c obj1 ([], 0)) as [[st obj2] r]. cbn [fst snd] in *.
  rewrite backend_State. apply H; [|apply tree_ok_nil].
  apply Forall_forall. intros kv _. apply Hins.
Qed.

Lemma backend_addField p pf fd id s :
  TrackerPromptMaker.backend (TrackerPromptMaker.addField p pf fd id s).1
  = (addField (exampleCounter s) p pf fd id
       (TrackerPromptMaker.backend s, fieldCounter s)).1.1.1.
Proof.
  unfold TrackerPromptMaker.addField.
  destruct (addField _ _ _ _ _ _) as [[st fd'] r]. cbn [fst]. apply backend_State.
Qed.

(** Every call keeps the tree well formed for a property [P] of records
    that holds of every record [addField] writes, that does not look at
    nested fields or at the example values, and that the assignment made
    by the call, if any, keeps. *)
Lemma step_tree_ok P o s :
  own_attributes P →
  (∀ k f l, P k f → P k (set_exampleValues (EVarray l) f)) →
  (∀ c kv, insertable P c kv) →
  (∀ p id g, mutation o = Some (p, id, g) → ∀ k f, P k f → P k (g f)) →
  tree_ok P (TrackerPromptMaker.backend s) →
  tree_ok P (TrackerPromptMaker.backend (step o s)).
Proof.
  intros Hown Hex Hins Hmut Hs.
  destruct (is_addField o) eqn:Hadd.
  { destruct o as [p pf fd id| | | | | | | | |]; try done. cbn [step].
    rewrite backend_addField.
    apply (addField_tree_ok P (exampleCounter s) Hown fd); [|done].
    apply Forall_forall. intros kv _. apply Hins. }
  destruct (is_populate o) eqn:Hpop.
  { destruct o as [| | | | | | | | |stored]; try done. cbn [step]. unfold alloc.
    by apply populate_tree_ok. }
  by apply step_tree_ok_rest.
Qed.

(** ** What [addField] leaves alone *)

Lemma field_at_set_elsewhere p id r a m :
  ¬ (p ++ [id]) `prefix_of` a →
  attributes <$> field_at a (update_at p (obj_set id r) m)
  = attributes <$> field_at a m.
Proof.
  revert a m. induction p as [|k p IH]; intros a m Hpre.
  - destruct a as [|k' a]; [done|]. cbn [update_at field_at].
    rewrite obj_get_set. case_decide; [|done]. subst.
    destruct Hpre. by apply prefix_cons, prefix_nil.
  - destruct a as [|k' a]; [done|]. cbn [update_at field_at].
    rewrite obj_get_alter. case_decide; [|done]. subst k'.
    destruct (obj_get k m) as [f|]; cbn [fmap option_fmap option_map]; [|done].
    assert (¬ (p ++ [id]) `prefix_of` a) as Hpre'.
    { intros H. apply Hpre. cbn [app]. by apply prefix_cons. }
    destruct a as [|k' a].
    + by destruct f as [? ? ? ? ? ? [| | |?]].
    + unfold nested_obj.
      destruct (nestedFields f) as [| | |n] eqn:En; rewrite ?En; try done.
      cbn [set_nestedFields nestedFields].
      exact (IH (k' :: a) n Hpre').
Qed.

Lemma addField_elsewhere fd : ∀ c p pf oid st a,
  ¬ (p ++ [(choose_id oid st.2).1]) `prefix_of` a →
  attributes <$> field_at a (addField c p pf fd oid st).1.1.1
  = attributes <$> field_at a st.1.
Proof.
  induction fd as [nm t d pr v ev nf IH] using field_nested_ind.
  intros c p pf oid [T fc] a Hpre. rewrite addField_unfold. cbn [fst snd] in *.
  set (fd := Field nm t d pr v ev nf) in *. cbn zeta.
  destruct (find_parent_raises pf); [done|].
  destruct (exampleValues (fill_examples c fd)) as [|l|]; try done.
  pose proof (field_at_set_elsewhere p (choose_id oid fc).1 (new_record fd l) a T Hpre)
    as Hset.
  destruct (populate_examples _ _ _ _).2 as [[]|]; [|done].
  destruct (nestedFields fd) as [| |z|m] eqn:Hnf; try done.
  pose proof (forEachEntry_invariant
                (λ st, attributes <$> field_at a st.1 = attributes <$> field_at a T)
                (λ k g, addField c (p ++ [(choose_id oid fc).1])
                                 (Some (choose_id oid fc).1) g (Some k)) m
                (update_at p (obj_set (choose_id oid fc).1 (new_record fd l)) T,
                 (choose_id oid fc).2)) as Hloop.
  destruct (forEachEntry _ m _) as [[st' m'] r]. cbn [fst snd] in *.
  apply Hloop; [|done]. clear Hloop.
  eapply Forall_impl; [exact (IH m Hnf)|].
  intros [k g] Hg s Hs. cbn [fst snd] in *. rewrite <- Hs. apply Hg.
  intros H. apply Hpre. etrans; [|exact H]. by apply prefix_app_r.
Qed.

(** ** Example-count uniformity *)

Lemma uniform_inv_uniform s : uniform_inv s → uniform s.
Proof.
  intros [Htree _] kv Hkv.
  apply tree_ok_all_records in Htree.
  by apply (proj1 (Forall_forall _ _) Htree kv Hkv).
Qed.

Lemma length_pad c l :
  Z.of_nat (length l) ≤ c → Z.of_nat (length (pad c l)) = c.
Proof. intros H. unfold pad. rewrite length_app, length_replicate. lia. Qed.

Lemma populate_exampleCounter existing s stored :
  heap s !! existing = Some stored →
  exampleCounter (TrackerPromptMaker.populateFromExistingObject existing s).1
  = (collectExampleCount stored 0).1.
Proof.
  intros Hex. unfold TrackerPromptMaker.populateFromExistingObject.
  assert (fresh (dom (heap s)) ≠ existing) as Hne.
  { intros <-. apply (is_fresh (dom (heap s))). apply elem_of_dom. eauto. }
  assert (<[fresh (dom (heap s)) := []]> (heap s) !!! existing = stored) as ->.
  { apply lookup_total_correct. by rewrite lookup_insert_ne. }
  destruct (collectExampleCount stored 0) as [c [[]|]]; [|done].
  destruct (normalizeExampleCount c stored) as [obj1 [[]|]]; [|done].
  by destruct (buildFieldsFromObject c obj1 ([], 0)) as [[st obj2] r].
Qed.

(** A load always leaves a uniform tree, whatever the stored mapping and
    however the load ends. *)
Lemma populate_uniform_inv existing s stored :
  heap s !! existing = Some stored →
  uniform_inv (TrackerPromptMaker.populateFromExistingObject existing s).1.
Proof.
  intros Hex. unfold uniform_inv.
  rewrite (populate_exampleCounter existing s stored Hex).
  pose proof (collectExampleCount_spec stored 0) as (Hle & Hthrow & Hok).
  split; [|done].
  destruct (lacks_examples stored) eqn:Hlack.
  { destruct (populate_lacking existing s stored Hex Hlack) as (_ & -> & _).
    apply tree_ok_nil. }
  destruct (populate_having existing s stored Hex Hlack) as (_ & _ & _ & -> & _).
  assert ((collectExampleCount stored 0).2 = Normal tt) as Hnormal.
  { destruct (collectExampleCount stored 0).2 as [[]|]; [done|].
    destruct Hthrow as [H' _]. specialize (H' eq_refl). congruence. }
  destruct (Hok Hnormal) as [Hub _].
  apply buildFieldsFromObject_tree_ok;
    [apply own_attributes_array_with | | apply tree_ok_nil].
  unfold normalized. rewrite all_records_map_examples, Forall_map.
  apply Forall_forall. intros [k f] Hkf id l _. cbn [fst snd].
  rewrite exampleValues_fill_examples, exampleValues_map_examples_field.
  apply lacks_examples_has_examples in Hlack.
  pose proof (proj1 (Forall_forall _ _) Hlack _ Hkf) as Hhas.
  unfold has_examples in Hhas. cbn [snd] in Hhas.
  destruct (exampleValues f) as [|l0|] eqn:Hev; [done| |done].
  cbn [pad_examples]. intros [= <-]. exists (pad (collectExampleCount stored 0).1 l0).
  split; [done|]. apply length_pad. by apply (Hub (k, f) l0).
Qed.

Lemma own_attributes_plain_key : own_attributes plain_key.
Proof. by intros k f nf. Qed.

Lemma insertable_plain_key c kv :
  plain_id kv.1 = true → insertable plain_key c kv.
Proof.
  intros Hk id l Hid _. unfold plain_key, id_for in *.
  destruct kv.1; [destruct Hid as [fc ->]; apply plain_id_generated | by subst].
Qed.

Lemma plain_option_default id :
  plain_option id = true → plain_id (default EmptyString id) = true.
Proof. by destruct id. Qed.

(** The ids of the tree stay plain as long as the calls bring plain ids
    only. *)
Lemma step_plain_inv o s :
  plain_call o = true → plain_inv s → plain_inv (step o s).
Proof.
  unfold plain_inv. intros Ho Hs.
  destruct (is_addField o) eqn:Hadd.
  { destruct o as [p pf fd id| | | | | | | | |]; try done. cbn [step plain_call] in *.
    apply andb_prop in Ho as [[Hpf Hid]%andb_prop Hfd].
    rewrite backend_addField.
    apply (addField_tree_ok plain_key (exampleCounter s)
             own_attributes_plain_key fd); [|done].
    constructor; [by apply insertable_plain_key, plain_option_default|].
    apply List.Forall_forall. intros kv Hkv. apply insertable_plain_key.
    apply (proj1 (forallb_forall _ _) Hfd). by apply in_map. }
  destruct (is_populate o) eqn:Hpop.
  { destruct o as [| | | | | | | | |stored]; try done. cbn [step plain_call] in *.
    unfold alloc.
    set (s1 := State _ _ _ _ _).
    assert (heap s1 !! fresh (dom (heap s)) = Some stored) as Hex
      by apply lookup_insert_eq.
    destruct (lacks_examples stored) eqn:Hlack.
    - destruct (populate_lacking _ s1 stored Hex Hlack) as (_ & -> & _).
      apply tree_ok_nil.
    - destruct (populate_having _ s1 stored Hex Hlack) as (_ & _ & _ & -> & _).
      apply buildFieldsFromObject_tree_ok;
        [apply own_attributes_plain_key | | apply tree_ok_nil].
      unfold normalized. rewrite all_records_map_examples, Forall_fmap.
      apply List.Forall_forall. intros [k f] Hkf. apply insertable_plain_key.
      apply (proj1 (forallb_forall _ _) Ho). by apply (in_map fst) in Hkf. }
  apply step_tree_ok_rest; try done. apply own_attributes_plain_key.
Qed.

Lemma step_addField_uniform_inv p pf fd id s :
  keeps_uniform (OpAddField p pf fd id) s = true →
  uniform_inv s → uniform_inv (step (OpAddField p pf fd id) s).
Proof.
  intros [_ Hfits]%andb_prop [Htree Hc]. cbn [step].
  unfold TrackerPromptMaker.addField, uniform_inv.
  pose proof (addField_tree_ok (array_with (λ l, Z.of_nat (length l) = exampleCounter s))
                (exampleCounter s) (own_attributes_array_with _) fd
                p pf id (TrackerPromptMaker.backend s, fieldCounter s)) as Hadd.
  destruct (addField _ _ _ _ _ _) as [[st fd'] r]. cbn [fst snd] in *.
  unfold TrackerPromptMaker.backend at 1. cbn.
  rewrite lookup_total_insert_eq. split; [|done]. apply Hadd; [|done].
  assert (∀ kv k, fits (exampleCounter s) kv = true →
            insertable (array_with (λ l, Z.of_nat (length l) = exampleCounter s))
              (exampleCounter s) (k, kv.2)) as Hins.
  { intros kv k Hfit idx l _. cbn [snd].
    unfold fits in Hfit. rewrite exampleValues_fill_examples.
    destruct (exampleValues kv.2) as [|l0|]; [| |done].
    - intros [= <-]. eexists. split; [done|]. rewrite length_replicate. lia.
    - intros [= <-]. eexists. split; [done|]. lia. }
  cbn [forallb] in Hfits. apply andb_prop in Hfits as [Hfd Hfits].
  constructor; [by apply (Hins (EmptyString, fd))|].
  apply List.Forall_forall. intros [k f] Hkv. apply (Hins (k, f)).
  by apply (proj1 (forallb_forall _ _) Hfits).
Qed.

Lemma step_add_round_uniform_inv s :
  uniform_inv s → plain_inv s →
  uniform_inv (step OpAddExampleValueToAllFields s).
Proof.
  intros [Htree Hc] Hplain. cbn [step].
  unfold TrackerPromptMaker.addExampleValueToAllFields, addExampleValueToAllFields.
  cbn [fst snd].
  pose proof (walk_all_fields (λ id p, addExampleValue id p EmptyString true)
                push_example
                (λ k f, array_with (λ l, Z.of_nat (length l) = exampleCounter s) k f
                        ∧ plain_key k f)) as Hwalk.
  cbv beta in Hwalk. rewrite Hwalk; [| | | by apply tree_ok_and].
  2:{ intros k f [(l & Hl & _) _]. eauto. }
  2:{ intros id p T f l Hf Hev [_ Hid%plain_id_find_raises].
      unfold addExampleValue. by rewrite Hf, Hev, Hid. }
  unfold uniform_inv, TrackerPromptMaker.backend. cbn.
  rewrite lookup_total_insert_eq. split; [|lia].
  eapply tree_ok_map_examples; [|exact Htree].
  intros k f (l & Hev & Hl). exists (l ++ [EmptyString]).
  rewrite exampleValues_map_examples_field, Hev. split; [done|].
  rewrite length_app. simpl. lia.
Qed.

Lemma step_remove_round_uniform_inv s :
  keeps_uniform OpRemoveExampleValueFromAllFields s = true →
  uniform_inv s → plain_inv s →
  uniform_inv (step OpRemoveExampleValueFromAllFields s).
Proof.
  intros Hpos [Htree Hc] Hplain. cbn [step keeps_uniform plain_call andb] in *.
  apply Z.ltb_lt in Hpos.
  unfold TrackerPromptMaker.removeExampleValueFromAllFields,
    removeExampleValueFromAllFields.
  cbn [fst snd].
  pose proof (walk_all_fields (λ id p, removeLastExampleValue id p)
                pop_example
                (λ k f, array_with (λ l, Z.of_nat (length l) = exampleCounter s) k f
                        ∧ plain_key k f)) as Hwalk.
  cbv beta in Hwalk. rewrite Hwalk; [| | | by apply tree_ok_and].
  2:{ intros k f [(l & Hl & _) _]. eauto. }
  2:{ intros id p T f l Hf Hev [(l' & Hl' & Hlen) Hid%plain_id_find_raises].
      unfold removeLastExampleValue. rewrite Hf, Hev. cbn zeta. rewrite Hid.
      rewrite Hev in Hl'. injection Hl' as <-.
      destruct l; [simpl in Hlen; lia | done]. }
  unfold uniform_inv, TrackerPromptMaker.backend. cbn.
  rewrite lookup_total_insert_eq. split; [|lia].
  eapply tree_ok_map_examples; [|exact Htree].
  intros k f (l & Hev & Hl). exists (removelast l).
  rewrite exampleValues_map_examples_field, Hev. split; [done|].
  destruct l as [|x l] using rev_ind; [simpl in Hl; lia|].
  rewrite removelast_last. rewrite length_app in Hl. simpl in Hl. lia.
Qed.

Lemma assign_uniform_tree c (h : field → field) id p m :
  (∀ f, exampleValues (h f) = exampleValues f
        ∧ nestedFields (h f) = nestedFields f) →
  uniform_tree c m → uniform_tree c (assign h id p m).1.
Proof.
  intros Hh Hm. unfold assign. destruct (get_field p id m); [|done]. cbn [fst].
  apply tree_ok_update_at; [apply own_attributes_array_with | done |].
  intros n _ Hn. apply tree_ok_alter; [done|]. intros f' _.
  by apply field_ok_array_with_setter.
Qed.

Lemma step_uniform_inv o s :
  keeps_uniform o s = true → uniform_inv s → plain_inv s → uniform_inv (step o s).
Proof.
  intros Ho Hs Hplain. revert Ho Hs.
  destruct o as [p pf fd id|id p ok|x id p|x id p|x id p|x id p|x id p| | |stored].
  - apply step_addField_uniform_inv.
  - intros _ [Htree Hc]. cbn [step]. unfold TrackerPromptMaker.removeField.
    destruct ok; [|done]. split; [|done].
    unfold TrackerPromptMaker.syncBackendObject.
    change (uniform_tree (exampleCounter s)
              (TrackerPromptMaker.backend
                 (TrackerPromptMaker.set_backend
                    (update_at p (obj_delete id) (TrackerPromptMaker.backend s)) s))).
    rewrite backend_set_backend.
    apply tree_ok_update_at; [apply own_attributes_array_with | done |].
    intros n _ Hn. by apply tree_ok_delete.
  - intros _ [Htree Hc]. cbn [step].
    unfold TrackerPromptMaker.validateFieldName, TrackerPromptMaker.on_backend,
      validateFieldName.
    destruct (Js.includes Js.quote x).
    + split; [|done]. cbn [fst]. change (exampleCounter _) with (exampleCounter s).
      by rewrite backend_set_backend.
    + pose proof (assign_uniform_tree (exampleCounter s) (set_name x) id p
                    (TrackerPromptMaker.backend s) ltac:(by intros []) Htree) as H.
      destruct (assign _ _ _ _) as [m' [[]|]]; cbn [fst] in *;
        (split; [|done]); change (exampleCounter _) with (exampleCounter s);
        by rewrite backend_set_backend.
  - intros _ [Htree Hc]. cbn [step].
    unfold TrackerPromptMaker.selectFieldType, TrackerPromptMaker.on_backend.
    pose proof (assign_uniform_tree (exampleCounter s) (set_type x) id p
                  (TrackerPromptMaker.backend s) ltac:(by intros []) Htree) as H.
    rewrite <- selectFieldType_state in H.
    destruct (selectFieldType _ _ _ _) as [m' r]; cbn [fst] in *.
    split; [|done]. change (exampleCounter _) with (exampleCounter s).
    by rewrite backend_set_backend.
  - intros _ [Htree Hc]. cbn [step].
    unfold TrackerPromptMaker.toggleStaticDynamic, TrackerPromptMaker.on_backend,
      toggleStaticDynamic.
    pose proof (assign_uniform_tree (exampleCounter s) (set_isDynamic x) id p
                  (TrackerPromptMaker.backend s) ltac:(by intros []) Htree) as H.
    destruct (assign _ _ _ _) as [m' r]; cbn [fst] in *.
    split; [|done]. change (exampleCounter _) with (exampleCounter s).
    by rewrite backend_set_backend.
  - intros _ [Htree Hc]. cbn [step].
    unfold TrackerPromptMaker.updatePrompt, TrackerPromptMaker.on_backend,
      updatePrompt.
    pose proof (assign_uniform_tree (exampleCounter s) (set_prompt x) id p
                  (TrackerPromptMaker.backend s) ltac:(by intros []) Htree) as H.
    destruct (assign _ _ _ _) as [m' r]; cbn [fst] in *.
    split; [|done]. change (exampleCounter _) with (exampleCounter s).
    by rewrite backend_set_backend.
  - intros _ [Htree Hc]. cbn [step].
    unfold TrackerPromptMaker.updateDefaultValue, TrackerPromptMaker.on_backend,
      updateDefaultValue.
    pose proof (assign_uniform_tree (exampleCounter s) (set_defaultValue x) id p
                  (TrackerPromptMaker.backend s) ltac:(by intros []) Htree) as H.
    destruct (assign _ _ _ _) as [m' r]; cbn [fst] in *.
    split; [|done]. change (exampleCounter _) with (exampleCounter s).
    by rewrite backend_set_backend.
  - intros _ Hs. by apply step_add_round_uniform_inv.
  - intros Ho Hs. by apply step_remove_round_uniform_inv.
  - intros _ _. cbn [step]. unfold alloc.
    apply (populate_uniform_inv _ _ stored). cbn. apply lookup_insert_eq.
Qed.

Lemma exampleValues_of_attributes (o1 o2 : option field) :
  attributes <$> o1 = attributes <$> o2 → exampleValues <$> o1 = exampleValues <$> o2.
Proof.
  destruct o1 as [f1|], o2 as [f2|]; cbn; try done.
  unfold attributes. by intros [= _ _ _ _ _ ->].
Qed.

(** Example values given to [addField] as an array are stored as they
    are, whatever their number. *)
Lemma addField_stores_given_examples fd c p pf oid st n l :
  exampleValues fd = EVarray l →
  find_parent_raises pf = false →
  resolve p st.1 = Some n →
  exampleValues <$> get_field p (choose_id oid st.2).1
                      (addField c p pf fd oid st).1.1.1
  = Some (EVarray l).
Proof.
  intros Hl Hpf Hres. rewrite addField_unfold. cbn zeta. rewrite Hpf.
  rewrite exampleValues_fill_examples, Hl.
  set (id := (choose_id oid st.2).1).
  assert (exampleValues <$> get_field p id
                              (update_at p (obj_set id (new_record fd l)) st.1)
          = Some (EVarray l)) as Hb.
  { by rewrite get_field_update_at_set by (by rewrite Hres). }
  destruct (populate_examples _ _ _ _).2 as [[]|]; [|done].
  destruct (nestedFields fd) as [| | |m]; try done.
  match goal with
  | |- context [forEachEntry ?b m ?s0] =>
      pose proof (forEachEntry_invariant
                    (λ s', exampleValues <$> get_field p id s'.1 = Some (EVarray l))
                    b m s0) as Hloop
  end.
  destruct (forEachEntry _ m _) as [[st' m'] r]. cbn [fst] in *.
  apply Hloop; [|done]. apply Forall_forall. intros [k g] _ s Hs. cbn [fst snd].
  rewrite <- Hs. rewrite !get_field_field_at.
  apply exampleValues_of_attributes, addField_elsewhere.
  intros H%prefix_length. rewrite !length_app in H. simpl in H. lia.
Qed.

(** C1, as the code has it.  From a new component, after any sequence of
    calls that bring plain ids only, in which every added field brings
    example values of the current length or none, and no round is removed
    at a counter of zero, every record at every depth has exactly as many
    example values as the counter says.  A field added then with an array
    of example values of its own has that array stored as it is given,
    whatever its length. *)
Theorem uniform_after_run (ops : list op) :
  all_keep_uniform ops TrackerPromptMaker.constructor_default = true →
  let s := run ops TrackerPromptMaker.constructor_default in
  uniform s
  ∧ ∀ parentObject n parentFieldId fieldData fieldId l,
      resolve parentObject (TrackerPromptMaker.backend s) = Some n →
      plain_option parentFieldId = true →
      exampleValues fieldData = EVarray l →
      exampleValues
        <$> get_field parentObject (choose_id fieldId (fieldCounter s)).1
              (TrackerPromptMaker.backend
                 (step (OpAddField parentObject parentFieldId fieldData fieldId) s))
      = Some (EVarray l).
Proof.
  intros Hops s. split.
  2:{ intros p n pf fd oid l Hres Hpf%plain_option_find_parent_raises Hl.
      cbn [step]. rewrite backend_addField.
      by apply (addField_stores_given_examples fd _ p pf oid
                  (TrackerPromptMaker.backend s, fieldCounter s) n l). }
  subst s. apply uniform_inv_uniform.
  assert (uniform_inv TrackerPromptMaker.constructor_default) as Hinit.
  { split; [apply tree_ok_nil | done]. }
  assert (plain_inv TrackerPromptMaker.constructor_default) as Hplain.
  { apply tree_ok_nil. }
  revert Hops Hinit Hplain. generalize TrackerPromptMaker.constructor_default.
  induction ops as [|o ops IH]; intros s Hops Hs Hplain; [done|].
  cbn [all_keep_uniform] in Hops. apply andb_prop in Hops as [Ho Hops].
  cbn [run fold_left]. apply IH; [done | by apply step_uniform_inv |].
  apply step_plain_inv; [|done]. unfold keeps_uniform in Ho.
  by apply andb_prop in Ho as [? _].
Qed.

(** ** What [addField] makes of a record it wrote itself *)

Lemma own_attributes_complete : own_attributes complete.
Proof. intros k f nf. unfold complete. by destruct f. Qed.

Lemma insertable_complete c kv : insertable complete c kv.
Proof.
  intros id l Hid%id_for_nonempty _. unfold complete, new_record. cbn.
  split_and!; eauto.
  exists (or_default (type kv.2) FIELD_TYPES_STRING). split; [done|].
  unfold or_default. by destruct (type kv.2) as [[|? ?]|].
Qed.

Lemma new_record_complete k f l :
  complete k f → exampleValues f = EVarray l →
  new_record f l = set_nestedFields (NFobject []) f.
Proof.
  intros (_ & [nm Hn] & (t & Ht & Hne) & [d Hd] & [pr Hp] & [v Hv] & _) Hl.
  destruct f as [? ? ? ? ? ? ?]. cbn in *. subst.
  unfold new_record, set_nestedFields. cbn. f_equal.
  - by destruct nm.
  - by destruct t.
  - by destruct pr.
  - by destruct v.
Qed.

Lemma rebuilds_list m :
  Forall (λ kv, rebuilds kv.2) m →
  ∀ c p pf T fc pre,
    resolve p T = Some pre → NoDup (pre ++ m).*1 →
    Forall (λ kv, field_ok complete kv.1 kv.2) m →
    Forall (λ kv, field_ok plain_key kv.1 kv.2) m →
    plain_option pf = true →
    let res := forEachEntry (λ k g, addField c p pf g (Some k)) m (T, fc) in
    res.1.1.1 = update_at p (λ _, pre ++ m) T ∧ res.2 = Normal tt.
Proof.
  induction 1 as [|[k f] m Hf _ IH]; intros c p pf T fc pre Hres Hnd Hok Hpl Hpf.
  - cbn. split; [|done]. rewrite app_nil_r.
    rewrite (update_at_ext p _ id); [|by intros n' Hn'; rewrite Hres in Hn'; injection Hn' as <-].
    clear. revert T. induction p as [|k p IHp]; intros T; simpl; [done|].
    induction T as [|[k0 f0] T IHT]; simpl; [done|].
    case_decide; subst; [|by rewrite <- IHT].
    destruct (nestedFields f0) as [| |z|n] eqn:En; try done.
    rewrite <- IHp, <- En. by rewrite set_nestedFields_same.
  - apply Forall_cons in Hok as [Hokf Hokm].
    apply Forall_cons in Hpl as [Hplf Hplm].
    assert (k ∉ pre.*1) as Hk.
    { rewrite fmap_app, fmap_cons in Hnd. apply NoDup_app in Hnd as (_ & Hd & _).
      intros Hin. apply (Hd k Hin). left. }
    cbn zeta. rewrite forEachEntry_cons.
    destruct (Hf c p pf k T fc pre Hokf Hplf Hpf Hres Hk) as [Htree Hnormal].
    cbn [snd] in *.
    destruct (addField c p pf f (Some k) (T, fc)) as [[[T1 fc1] f1] r1].
    cbn [fst snd] in *. subst.
    specialize (IH c p pf (update_at p (λ _, pre ++ [(k, f)]) T) fc1
                  (pre ++ [(k, f)])).
    cbn zeta in IH.
    destruct (forEachEntry _ m _) as [[st2 m2] r2]. cbn [fst snd] in *.
    destruct IH as [-> ->].
    + rewrite resolve_update_at, Hres. done.
    + by rewrite <- app_assoc.
    + done.
    + done.
    + done.
    + split; [|done]. rewrite update_at_compose. apply update_at_ext.
      intros n' _. simpl. by rewrite <- app_assoc.
Qed.

Lemma rebuilds_all f : rebuilds f.
Proof.
  induction f as [nm t d pr v ev nf IH] using field_nested_ind.
  intros c p pf k T fc n Hok Hpl Hpf Hres Hk.
  pose proof Hok as (Hcomplete & m & Hm & Hokm)%field_ok_unfold.
  pose proof Hpl as (Hplk & m0 & Hm0 & Hplm)%field_ok_unfold.
  pose proof Hcomplete as (Hkne & _ & _ & _ & _ & _ & l & Hl).
  cbn [exampleValues nestedFields] in *. subst ev nf.
  injection Hm0 as <-.
  set (f := Field nm t d pr v (EVarray l) (NFobject m)) in *.
  rewrite addField_unfold. cbn zeta.
  rewrite (plain_option_find_parent_raises _ Hpf).
  rewrite exampleValues_fill_examples. cbn [exampleValues nestedFields f snd].
  rewrite choose_id_given by done.
  rewrite (new_record_complete k f l) by done. cbn [fst].
  rewrite (populate_examples_completes k p l _
             (set_nestedFields (NFobject []) f) l);
    [| by apply plain_id_find_raises
     | apply get_field_update_at_set; by rewrite Hres
     | done].
  assert (update_at p (obj_set k (set_nestedFields (NFobject []) f)) T
          = update_at p (λ _, n ++ [(k, set_nestedFields (NFobject []) f)]) T) as ->.
  { apply update_at_ext. intros n' Hn'. rewrite Hres in Hn'. injection Hn' as <-.
    by apply obj_set_fresh. }
  destruct Hokm as [Hndm Hallm].
  destruct Hplm as [_ Hplm].
  pose proof (rebuilds_list m (IH m eq_refl) c (p ++ [k]) (Some k)
                (update_at p (λ _, n ++ [(k, set_nestedFields (NFobject []) f)]) T)
                (choose_id (Some k) fc).2 []) as Hm.
  cbn zeta in Hm.
  destruct (forEachEntry _ m _) as [[st' m'] r]. cbn [fst snd] in *.
  destruct Hm as [-> ->]; [| done | done | done | |].
  - rewrite resolve_update_at_app, Hres. simpl.
    by rewrite obj_get_app_fresh.
  - done.
  - split; [|done]. rewrite update_at_app, update_at_compose.
    apply update_at_ext. intros n' _. simpl.
    by rewrite obj_alter_app_fresh.
Qed.

(** Building from a tree of complete records gives that tree back. *)
Lemma buildFieldsFromObject_rebuilds c m fc :
  tree_ok complete m → tree_ok plain_key m →
  (buildFieldsFromObject c m ([], fc)).1.1.1 = m
  ∧ (buildFieldsFromObject c m ([], fc)).2 = Normal tt.
Proof.
  intros [Hnd Hok] [_ Hpl].
  apply (rebuilds_list m (proj2 (Forall_forall _ _) (λ kv _, rebuilds_all kv.2))
           c [] None [] fc []); done.
Qed.

(** ** Round trip *)

Lemma built_inv_run ops s :
  forallb is_addField ops = true → forallb plain_call ops = true →
  built_inv s → built_inv (run ops s).
Proof.
  revert s. induction ops as [|o ops IH]; intros s Hops Hpl Hs; [done|].
  cbn [forallb] in Hops, Hpl. apply andb_prop in Hops as [Ho Hops].
  apply andb_prop in Hpl as [Hplo Hpl].
  cbn [run fold_left]. apply IH; [done | done |]. clear IH Hops Hpl.
  destruct Hs as (Htree & Hplain & Hheap).
  pose proof (step_plain_inv o s Hplo Hplain) as Hplain'.
  destruct o as [p pf fd id| | | | | | | | |]; try done. clear Ho.
  split_and!; [| done |].
  - cbn [step]. rewrite backend_addField.
    apply (addField_tree_ok complete (exampleCounter s) own_attributes_complete fd);
      [|done].
    apply Forall_forall. intros kv _. apply insertable_complete.
  - cbn [step]. unfold TrackerPromptMaker.addField.
    destruct (addField _ _ _ _ _ _) as [[st fd'] r]. cbn [fst snd].
    unfold TrackerPromptMaker.backend. cbn.
    by rewrite lookup_total_insert_eq, lookup_insert_eq.
Qed.

Lemma built_inv_constructor_default :
  built_inv TrackerPromptMaker.constructor_default.
Proof. split_and!; [apply tree_ok_nil | apply tree_ok_nil | done]. Qed.

Lemma complete_has_examples m :
  tree_ok complete m → lacks_examples m = false.
Proof.
  intros Hm%tree_ok_all_records. apply lacks_examples_has_examples.
  eapply Forall_impl; [exact Hm|].
  intros [k f] (_ & _ & _ & _ & _ & _ & l & Hl). unfold has_examples.
  cbn [snd] in *. by rewrite Hl.
Qed.

Lemma plain_attributes_map_examples_field g f :
  plain_attributes (map_examples_field g f) = plain_attributes f.
Proof. by destruct f. Qed.

(** C2, as the code has it.  Take a component on which only [addField]
    was called, with plain ids only, hand its backend object to the save
    callback, and load from the object the callback received.  The load
    reports no failure; the new backend
    object equals the object that was handed out, as the load padded it;
    it has the same ids in the same order at every depth; at every address
    the name, type, dynamic flag, prompt and default value are those of
    the original; the example values are those of the original followed by
    empty strings up to the new counter; and the new tree is uniform. *)
Theorem serialize_then_populate (ops : list op) :
  forallb is_addField ops = true →
  forallb plain_call ops = true →
  let s := TrackerPromptMaker.triggerSaveCallback
             (run ops TrackerPromptMaker.constructor_default) in
  ∃ snapshot, head (saved s) = Some snapshot ∧
  let original := TrackerPromptMaker.backend s in
  let res := TrackerPromptMaker.populateFromExistingObject snapshot s in
  let rebuilt := TrackerPromptMaker.backend res.1 in
  res.2 = Populated
  ∧ rebuilt = heap res.1 !!! snapshot
  ∧ all_ids rebuilt = all_ids original
  ∧ (∀ a, plain_attributes <$> field_at a rebuilt
          = plain_attributes <$> field_at a original)
  ∧ (∀ a f l, field_at a original = Some f → exampleValues f = EVarray l →
       exampleValues <$> field_at a rebuilt
       = Some (EVarray
                 (l ++ replicate
                         (Z.to_nat (exampleCounter res.1 - Z.of_nat (length l)))
                         EmptyString)))
  ∧ uniform res.1.
Proof.
  intros Hops Hplain. cbn zeta.
  destruct (built_inv_run ops _ Hops Hplain built_inv_constructor_default)
    as (Htree & Hpl & Hheap).
  set (s0 := run ops TrackerPromptMaker.constructor_default) in *.
  exists (backendObject s0). split; [done|].
  set (s := TrackerPromptMaker.triggerSaveCallback s0).
  change (TrackerPromptMaker.backend s) with (TrackerPromptMaker.backend s0).
  set (original := TrackerPromptMaker.backend s0) in *.
  assert (heap s !! backendObject s0 = Some original) as Hex by done.
  pose proof (complete_has_examples original Htree) as Hlack.
  destruct (populate_having (backendObject s0) s original Hex Hlack)
    as (Hc & Hin & _ & Hb & _ & Hr).
  cbn zeta in *.
  assert (tree_ok complete (normalized original)) as Hnorm.
  { unfold normalized. eapply tree_ok_map_examples; [|exact Htree].
    intros k f. unfold complete. rewrite exampleValues_map_examples_field.
    destruct f as [? ? ? ? ? ev ?]. cbn.
    intros (? & ? & ? & ? & ? & ? & l & ->). split_and!; eauto. }
  assert (tree_ok plain_key (normalized original)) as Hnormpl.
  { unfold normalized. eapply tree_ok_map_examples; [|exact Hpl]. done. }
  destruct (buildFieldsFromObject_rebuilds (collectExampleCount original 0).1
              (normalized original) 0 Hnorm Hnormpl) as [Hbuilt Hnormal].
  rewrite Hbuilt in Hb. rewrite Hnormal in Hr.
  rewrite Hb, Hin, Hc. split_and!; try done.
  - apply all_ids_map_examples.
  - intros a. unfold normalized. rewrite field_at_map_examples.
    destruct (field_at a original); [|done]. simpl.
    by rewrite plain_attributes_map_examples_field.
  - intros a f l Ha Hl. unfold normalized.
    rewrite field_at_map_examples, Ha. simpl.
    by rewrite exampleValues_map_examples_field, Hl.
  - apply uniform_inv_uniform. by apply (populate_uniform_inv _ _ original).
Qed.

Lemma serialize_then_populate_witness :
  let s := TrackerPromptMaker.triggerSaveCallback
             (run build_calls TrackerPromptMaker.constructor_default) in
  ∃ snapshot, head (saved s) = Some snapshot ∧
  let res := TrackerPromptMaker.populateFromExistingObject snapshot s in
  res.2 = Populated
  ∧ all_ids (TrackerPromptMaker.backend res.1)
    = ["field-0"; "field-1"; "field-9"; "field-10"]%string.
Proof.
  destruct (serialize_then_populate build_calls eq_refl eq_refl)
    as (snapshot & Hs & Hr & _ & Hids & _).
  exists snapshot. split; [exact Hs|]. split; [exact Hr|].
  cbn zeta in Hids. rewrite Hids. reflexivity.
Defined.

(** C2, as stated, fails: a field added under an id with a double quote
    is stored, although the call raises when it looks up the container of
    the field; the load from the object handed to the save callback raises
    at the same lookup, reports a failure, and rebuilds that field only. *)
Lemma serialize_then_populate_fails_on_quoted_id :
  let s := TrackerPromptMaker.triggerSaveCallback
             (run quoted_calls TrackerPromptMaker.constructor_default) in
  let res := TrackerPromptMaker.populateFromExistingObject (backendObject s) s in
  forallb is_addField quoted_calls = true
  ∧ Jq.find_raises quoted_id = true
  ∧ head (saved s) = Some (backendObject s)
  ∧ all_ids (TrackerPromptMaker.backend s) = [quoted_id; "field-0"%string]
  ∧ res.2 = FailedToLoad
  ∧ all_ids (TrackerPromptMaker.backend res.1) = [quoted_id].
Proof. by vm_compute. Qed.

Lemma uniform_after_run_witness :
  let s := run round_calls TrackerPromptMaker.constructor_default in
  uniform s
  ∧ exampleCounter s = 2
  ∧ exampleValues
      <$> get_field [] "field-10"
            (TrackerPromptMaker.backend
               (step (OpAddField [] None one_example_fieldData None) s))
    = Some (EVarray ["rain"%string]).
Proof.
  destruct (uniform_after_run round_calls eq_refl) as [Hu Hgiven].
  split; [exact Hu|]. split; [reflexivity|].
  exact (Hgiven [] _ None one_example_fieldData None ["rain"%string]
           eq_refl eq_refl eq_refl).
Defined.

(** C1, as stated, fails: a field added to a new component with one
    example value of its own has one example value under a counter of
    zero. *)
Lemma uniform_fails_on_given_examples :
  ¬ uniform (run [OpAddField [] None one_example_fieldData None]
                 TrackerPromptMaker.constructor_default).
Proof.
  intros H.
  destruct (H ("field-0"%string, new_record one_example_fieldData ["rain"%string]))
    as (l & Hl & Hlen).
  - vm_compute. left.
  - injection Hl as <-. by vm_compute in Hlen.
Qed.

(** * Further properties *)

(** ** Maps over the example values *)

Lemma map_examples_ext_list g m :
  Forall (λ kv, Forall (λ r, g (exampleValues r.2) = exampleValues r.2)
                  ((kv.1, kv.2) :: records_of kv.2) →
                map_examples_field g kv.2 = kv.2) m →
  Forall (λ r, g (exampleValues r.2) = exampleValues r.2) (all_records m) →
  map_examples g m = m.
Proof.
  induction 1 as [|[k f] m Hf _ IH]; intros Hall; [done|].
  apply Forall_all_records_cons in Hall as (H1 & H2 & H3).
  rewrite map_examples_cons. cbn [fst snd] in *.
  rewrite Hf by (by constructor). by rewrite IH.
Qed.

Lemma map_examples_field_fixed g f : ∀ k : string,
  Forall (λ r, g (exampleValues r.2) = exampleValues r.2) ((k, f) :: records_of f) →
  map_examples_field g f = f.
Proof.
  induction f as [nm t d pr v ev nf IH] using field_nested_ind.
  intros k Hall. apply Forall_cons in Hall as [H1 H2]. cbn [snd exampleValues] in H1.
  rewrite map_examples_field_unfold. cbn [name type isDynamic prompt defaultValue
    exampleValues nestedFields]. rewrite H1.
  rewrite records_of_unfold in H2. cbn [nestedFields] in H2.
  destruct nf as [| |z|m]; try done.
  f_equal. f_equal. apply map_examples_ext_list; [|done].
  eapply Forall_impl; [exact (IH m eq_refl)|].
  intros [k' f'] Hf' Hall'. by apply (Hf' k').
Qed.

(** A map that changes the example values of no record of the tree
    leaves the tree as it is. *)
Lemma map_examples_fixed g m :
  Forall (λ r, g (exampleValues r.2) = exampleValues r.2) (all_records m) →
  map_examples g m = m.
Proof.
  apply map_examples_ext_list. apply Forall_forall. intros [k f] _ H.
  by apply (map_examples_field_fixed g f k).
Qed.

Lemma map_examples_compose_list g h m :
  Forall (λ kv, map_examples_field g (map_examples_field h kv.2)
                = map_examples_field (g ∘ h) kv.2) m →
  map_examples g (map_examples h m) = map_examples (g ∘ h) m.
Proof.
  induction 1 as [|[k f] m Hf _ IH]; [done|].
  rewrite !map_examples_cons. cbn [snd] in Hf. by rewrite Hf, IH.
Qed.

Lemma map_examples_field_compose g h f :
  map_examples_field g (map_examples_field h f) = map_examples_field (g ∘ h) f.
Proof.
  induction f as [nm t d pr v ev nf IH] using field_nested_ind.
  rewrite (map_examples_field_unfold h), (map_examples_field_unfold (g ∘ h)).
  rewrite map_examples_field_unfold.
  cbn [name type isDynamic prompt defaultValue exampleValues nestedFields].
  destruct nf as [| |z|m]; try done.
  by rewrite (map_examples_compose_list g h m (IH m eq_refl)).
Qed.

Lemma map_examples_compose g h m :
  map_examples g (map_examples h m) = map_examples (g ∘ h) m.
Proof.
  apply map_examples_compose_list. apply Forall_forall. intros kv _.
  apply map_examples_field_compose.
Qed.

Lemma map_examples_field_ext g h f :
  (∀ ev, g ev = h ev) → map_examples_field g f = map_examples_field h f.
Proof.
  intros Hgh. induction f as [nm t d pr v ev nf IH] using field_nested_ind.
  rewrite (map_examples_field_unfold g), (map_examples_field_unfold h).
  cbn [name type isDynamic prompt defaultValue exampleValues nestedFields].
  rewrite Hgh. destruct nf as [| |z|m]; try done.
  do 2 f_equal. specialize (IH m eq_refl).
  induction IH as [|[k f] m Hf _ IHm]; [done|].
  rewrite !map_examples_cons. cbn [snd] in Hf. by rewrite Hf, IHm.
Qed.

Lemma map_examples_ext g h m :
  (∀ ev, g ev = h ev) → map_examples g m = map_examples h m.
Proof.
  intros Hgh. induction m as [|[k f] m IH]; [done|].
  rewrite !map_examples_cons. by rewrite IH, (map_examples_field_ext g h f Hgh).
Qed.

Lemma map_examples_id m : map_examples (λ ev, ev) m = m.
Proof. apply map_examples_fixed. by apply Forall_forall. Qed.

(** A well-formed tree stays one under a weaker property of its
    records. *)
Lemma tree_ok_impl P P' m :
  (∀ k f, P k f → P' k f) → tree_ok P m → tree_ok P' m.
Proof.
  intros HP Hm. rewrite <- (map_examples_id m).
  eapply tree_ok_map_examples; [|exact Hm].
  intros k f Hf.
  assert (map_examples_field (λ ev, ev) f = f) as ->; [|by apply HP].
  pose proof (map_examples_id [(k, f)]) as E.
  rewrite map_examples_cons in E. by injection E.
Qed.

(** ** Updates that change nothing *)

Lemma obj_alter_fixed {V} (h : V → V) k (m : list (string * V)) :
  (∀ v, obj_get k m = Some v → h v = v) → obj_alter h k m = m.
Proof.
  induction m as [|[k0 v0] m IH]; intros Hh; cbn [obj_alter]; [done|].
  cbn [obj_get] in Hh. case_decide; subst.
  - by rewrite Hh.
  - by rewrite IH.
Qed.

Lemma update_at_fixed p g m :
  (∀ n, resolve p m = Some n → g n = n) → update_at p g m = m.
Proof.
  revert m. induction p as [|k p IH]; intros m Hg; cbn [update_at].
  - by apply Hg.
  - apply obj_alter_fixed. intros f Hf.
    destruct (nestedFields f) as [| |z|n] eqn:En; try done.
    rewrite IH.
    + by rewrite <- En, set_nestedFields_same.
    + intros n' Hn'. apply Hg. cbn [resolve]. rewrite Hf. unfold nested_obj.
      by rewrite En.
Qed.

Lemma insertable_any_array c kv : insertable any_array c kv.
Proof. intros id l _ _. by exists l. Qed.

(** In every state the component reaches, every record has an array of
    example values and the tree is well formed. *)
Lemma any_array_run ops s :
  tree_ok any_array (TrackerPromptMaker.backend s) →
  tree_ok any_array (TrackerPromptMaker.backend (run ops s)).
Proof.
  revert s. induction ops as [|o ops IH]; intros s Hs; [done|].
  cbn [run fold_left]. apply IH. apply step_tree_ok; try done.
  - apply own_attributes_array_with.
  - intros k f l _. by exists l.
  - apply insertable_any_array.
  - intros p id g Hm k f (l & Hl & _). exists l.
    by rewrite (proj1 (mutation_keeps o p id g Hm f)).
Qed.

Lemma any_array_reachable ops :
  tree_ok any_array
    (TrackerPromptMaker.backend (run ops TrackerPromptMaker.constructor_default)).
Proof. apply any_array_run. apply tree_ok_nil. Qed.

(** ** The two rounds on a tree of arrays *)

Lemma plain_inv_run ops s :
  forallb plain_call ops = true → plain_inv s → plain_inv (run ops s).
Proof.
  revert s. induction ops as [|o ops IH]; intros s Hops Hs; [done|].
  cbn [forallb] in Hops. apply andb_prop in Hops as [Ho Hops].
  cbn [run fold_left]. apply IH; [done|]. by apply step_plain_inv.
Qed.

Lemma plain_inv_reachable ops :
  forallb plain_call ops = true →
  plain_inv (run ops TrackerPromptMaker.constructor_default).
Proof. intros Hops. apply plain_inv_run; [done | apply tree_ok_nil]. Qed.

Lemma plain_key_map_examples g m :
  tree_ok plain_key m → tree_ok plain_key (map_examples g m).
Proof. by apply tree_ok_map_examples. Qed.

Lemma addExampleValueToAllFields_any_array m c :
  tree_ok any_array m → tree_ok plain_key m →
  addExampleValueToAllFields (m, c)
  = ((map_examples push_example m, c + 1), Normal tt).
Proof.
  intros Hm Hpl. unfold addExampleValueToAllFields. cbn [fst snd].
  pose proof (walk_all_fields (λ id p, addExampleValue id p EmptyString true)
                push_example (λ k f, any_array k f ∧ plain_key k f)) as Hwalk.
  cbv beta in Hwalk. rewrite Hwalk; [done| | | by apply tree_ok_and].
  - intros k f [(l & Hl & _) _]. eauto.
  - intros id p T f l Hf Hev [_ Hid%plain_id_find_raises].
    unfold addExampleValue. by rewrite Hf, Hev, Hid.
Qed.

Lemma removeExampleValueFromAllFields_any_array m c :
  tree_ok any_array m → tree_ok plain_key m →
  removeExampleValueFromAllFields (m, c)
  = ((map_examples pop_example m, c - 1), Normal tt).
Proof.
  intros Hm Hpl. unfold removeExampleValueFromAllFields. cbn [fst snd].
  pose proof (walk_all_fields (λ id p, removeLastExampleValue id p)
                pop_example (λ k f, any_array k f ∧ plain_key k f)) as Hwalk.
  cbv beta in Hwalk. rewrite Hwalk; [done| | | by apply tree_ok_and].
  - intros k f [(l & Hl & _) _]. eauto.
  - intros id p T f l Hf Hev [_ Hid%plain_id_find_raises].
    unfold removeLastExampleValue. rewrite Hf, Hev. cbn zeta. rewrite Hid.
    destruct l as [|x l]; [|done].
    rewrite update_at_fixed; [done|]. intros n Hn. apply obj_alter_fixed.
    intros f' Hf'. unfold get_field in Hf. rewrite Hn, Hf' in Hf.
    injection Hf as ->. destruct f. cbn in Hev. by subst.
Qed.

Lemma add_round_any_array s :
  tree_ok any_array (TrackerPromptMaker.backend s) → plain_inv s →
  TrackerPromptMaker.addExampleValueToAllFields s
  = (State (<[backendObject s :=
                map_examples push_example (TrackerPromptMaker.backend s)]> (heap s))
           (backendObject s) (fieldCounter s) (exampleCounter s + 1)
           (backendObject s :: saved s),
     Normal tt).
Proof.
  intros Hs Hpl. unfold TrackerPromptMaker.addExampleValueToAllFields.
  by rewrite addExampleValueToAllFields_any_array.
Qed.

Lemma remove_round_any_array s :
  tree_ok any_array (TrackerPromptMaker.backend s) → plain_inv s →
  TrackerPromptMaker.removeExampleValueFromAllFields s
  = (State (<[backendObject s :=
                map_examples pop_example (TrackerPromptMaker.backend s)]> (heap s))
           (backendObject s) (fieldCounter s) (exampleCounter s - 1)
           (backendObject s :: saved s),
     Normal tt).
Proof.
  intros Hs Hpl. unfold TrackerPromptMaker.removeExampleValueFromAllFields.
  by rewrite removeExampleValueFromAllFields_any_array.
Qed.

Lemma field_at_ok P a m f :
  tree_ok P m → field_at a m = Some f → ∃ k, field_ok P k f.
Proof.
  revert m. induction a as [|k a IH]; intros m Hm; cbn [field_at]; [done|].
  destruct (obj_get k m) as [f0|] eqn:Hk; [|done].
  pose proof (tree_ok_lookup P k f0 m Hm Hk) as Hf0.
  destruct a as [|k' a]; [intros [= <-]; by exists k|].
  apply field_ok_unfold in Hf0 as (_ & n & Hn & Hokn).
  unfold nested_obj. rewrite Hn. by apply IH.
Qed.

(** X1.  In every state the component reaches by calls that bring plain
    ids only, a round of [addExampleValueToAllFields] completes normally,
    appends one empty string to the example values of every record at
    every depth, changes no other attribute and no id, increments the
    example counter by one, and hands the backend object to the save
    callback once. *)
Theorem addExampleValueToAllFields_appends_everywhere (ops : list op) :
  forallb plain_call ops = true →
  let s := run ops TrackerPromptMaker.constructor_default in
  let r := TrackerPromptMaker.addExampleValueToAllFields s in
  r.2 = Normal tt
  ∧ TrackerPromptMaker.backend r.1
    = map_examples push_example (TrackerPromptMaker.backend s)
  ∧ (∀ a f, field_at a (TrackerPromptMaker.backend s) = Some f →
       ∃ l, exampleValues f = EVarray l
            ∧ exampleValues <$> field_at a (TrackerPromptMaker.backend r.1)
              = Some (EVarray (l ++ [EmptyString]))
            ∧ plain_attributes <$> field_at a (TrackerPromptMaker.backend r.1)
              = Some (plain_attributes f))
  ∧ all_ids (TrackerPromptMaker.backend r.1) = all_ids (TrackerPromptMaker.backend s)
  ∧ exampleCounter r.1 = exampleCounter s + 1
  ∧ fieldCounter r.1 = fieldCounter s
  ∧ saved r.1 = backendObject s :: saved s
  ∧ backendObject r.1 = backendObject s.
Proof.
  intros Hops s r. pose proof (any_array_reachable ops) as Hs. fold s in Hs.
  pose proof (plain_inv_reachable ops Hops) as Hpl. fold s in Hpl.
  subst r. rewrite (add_round_any_array s Hs Hpl). cbn [fst snd].
  rewrite backend_State. split_and!; try done.
  - intros a f Ha. destruct (field_at_ok _ a _ f Hs Ha) as (k & Hk).
    apply field_ok_unfold in Hk as [(l & Hl & _) _]. exists l. split; [done|].
    rewrite field_at_map_examples, Ha. cbn [fmap option_fmap option_map].
    by rewrite exampleValues_map_examples_field, plain_attributes_map_examples_field, Hl.
  - apply all_ids_map_examples.
Qed.

Lemma addExampleValueToAllFields_appends_everywhere_witness :
  let s := run build_calls TrackerPromptMaker.constructor_default in
  let r := TrackerPromptMaker.addExampleValueToAllFields s in
  r.2 = Normal tt
  ∧ exampleCounter r.1 = exampleCounter s + 1
  ∧ exampleValues <$> field_at ["field-1"; "field-9"]%string
                        (TrackerPromptMaker.backend r.1)
    = Some (EVarray ["Bree"%string; EmptyString]).
Proof.
  destruct (addExampleValueToAllFields_appends_everywhere build_calls eq_refl)
    as (H1 & _ & H3 & _ & H5 & _).
  split; [exact H1|]. split; [exact H5|].
  destruct (H3 ["field-1"; "field-9"]%string _ eq_refl) as (l & Hl & Hv & _).
  injection Hl as <-. exact Hv.
Defined.

(** X2.  In every state the component reaches by calls that bring plain
    ids only, a round of [removeExampleValueFromAllFields] completes
    normally, removes the last example value of every record that has one,
    leaves empty arrays empty, changes nothing else in the tree, and
    decrements the example counter by one whatever its value, also at zero
    and below. *)
Theorem removeExampleValueFromAllFields_pops_everywhere (ops : list op) :
  forallb plain_call ops = true →
  let s := run ops TrackerPromptMaker.constructor_default in
  let r := TrackerPromptMaker.removeExampleValueFromAllFields s in
  r.2 = Normal tt
  ∧ TrackerPromptMaker.backend r.1
    = map_examples pop_example (TrackerPromptMaker.backend s)
  ∧ (∀ a f, field_at a (TrackerPromptMaker.backend s) = Some f →
       ∃ l, exampleValues f = EVarray l
            ∧ exampleValues <$> field_at a (TrackerPromptMaker.backend r.1)
              = Some (EVarray (take (length l - 1) l))
            ∧ plain_attributes <$> field_at a (TrackerPromptMaker.backend r.1)
              = Some (plain_attributes f))
  ∧ all_ids (TrackerPromptMaker.backend r.1) = all_ids (TrackerPromptMaker.backend s)
  ∧ exampleCounter r.1 = exampleCounter s - 1
  ∧ fieldCounter r.1 = fieldCounter s
  ∧ saved r.1 = backendObject s :: saved s.
Proof.
  intros Hops s r. pose proof (any_array_reachable ops) as Hs. fold s in Hs.
  pose proof (plain_inv_reachable ops Hops) as Hpl. fold s in Hpl.
  subst r. rewrite (remove_round_any_array s Hs Hpl). cbn [fst snd].
  rewrite backend_State. split_and!; try done.
  - intros a f Ha. destruct (field_at_ok _ a _ f Hs Ha) as (k & Hk).
    apply field_ok_unfold in Hk as [(l & Hl & _) _]. exists l. split; [done|].
    rewrite field_at_map_examples, Ha. cbn [fmap option_fmap option_map].
    rewrite exampleValues_map_examples_field, plain_attributes_map_examples_field, Hl.
    split; [|done]. cbn [pop_example]. do 2 f_equal.
    destruct l as [|x l] using rev_ind; [done|].
    rewrite removelast_last, length_app. cbn [length].
    replace (length l + 1 - 1)%nat with (length l) by lia.
    by rewrite take_app_length.
  - apply all_ids_map_examples.
Qed.

Lemma removeExampleValueFromAllFields_pops_everywhere_witness :
  let s := run build_calls TrackerPromptMaker.constructor_default in
  let r := TrackerPromptMaker.removeExampleValueFromAllFields s in
  r.2 = Normal tt
  ∧ exampleCounter r.1 = exampleCounter s - 1
  ∧ exampleValues <$> field_at ["field-1"; "field-9"]%string
                        (TrackerPromptMaker.backend r.1)
    = Some (EVarray []).
Proof.
  destruct (removeExampleValueFromAllFields_pops_everywhere build_calls eq_refl)
    as (H1 & _ & H3 & _ & H5 & _).
  split; [exact H1|]. split; [exact H5|].
  destruct (H3 ["field-1"; "field-9"]%string _ eq_refl) as (l & Hl & Hv & _).
  injection Hl as <-. exact Hv.
Defined.

Lemma any_array_map_examples g m :
  (∀ l, ∃ l', g (EVarray l) = EVarray l') →
  tree_ok any_array m → tree_ok any_array (map_examples g m).
Proof.
  intros Hg. apply tree_ok_map_examples. intros k f (l & Hl & _).
  destruct (Hg l) as [l' Hl']. exists l'.
  by rewrite exampleValues_map_examples_field, Hl.
Qed.

(** X3.  In every state the component reaches by calls that bring plain
    ids only, a round added and then removed leaves the tree and the
    example counter exactly as they were.  In the other order the tree is
    not restored: every record that had example values has its last one
    replaced by the empty string, and a record with none has one
    afterwards; the counter is as before. *)
Theorem add_then_remove_round_restores (ops : list op) :
  forallb plain_call ops = true →
  let s := run ops TrackerPromptMaker.constructor_default in
  let added := (TrackerPromptMaker.addExampleValueToAllFields s).1 in
  let back := (TrackerPromptMaker.removeExampleValueFromAllFields added).1 in
  let removed := (TrackerPromptMaker.removeExampleValueFromAllFields s).1 in
  let forth := (TrackerPromptMaker.addExampleValueToAllFields removed).1 in
  TrackerPromptMaker.backend back = TrackerPromptMaker.backend s
  ∧ exampleCounter back = exampleCounter s
  ∧ TrackerPromptMaker.backend forth
    = map_examples (λ ev, match ev with
                           | EVarray l => EVarray (removelast l ++ [EmptyString])
                           | _ => ev
                           end) (TrackerPromptMaker.backend s)
  ∧ exampleCounter forth = exampleCounter s.
Proof.
  intros Hops s added back removed forth.
  pose proof (any_array_reachable ops) as Hs. fold s in Hs.
  pose proof (plain_inv_reachable ops Hops) as Hpl. fold s in Hpl.
  subst added back removed forth.
  rewrite (add_round_any_array s Hs Hpl), (remove_round_any_array s Hs Hpl).
  cbn [fst].
  rewrite add_round_any_array, remove_round_any_array;
    unfold plain_inv; rewrite ?backend_State;
    [| apply any_array_map_examples; [by eexists | done]
     | by apply plain_key_map_examples
     | apply any_array_map_examples; [by eexists | done]
     | by apply plain_key_map_examples ].
  cbn [fst exampleCounter]. rewrite !backend_State.
  rewrite !map_examples_compose. split_and!; [|lia| |lia].
  - apply map_examples_fixed. apply Forall_forall. intros [k f] _. cbn [snd].
    destruct (exampleValues f) as [|l|]; [done| |done].
    cbn [compose push_example pop_example]. by rewrite removelast_last.
  - apply map_examples_ext. by intros [].
Qed.

Lemma add_then_remove_round_restores_witness :
  let s := run build_calls TrackerPromptMaker.constructor_default in
  let added := (TrackerPromptMaker.addExampleValueToAllFields s).1 in
  let back := (TrackerPromptMaker.removeExampleValueFromAllFields added).1 in
  TrackerPromptMaker.backend back = TrackerPromptMaker.backend s
  ∧ exampleCounter back = exampleCounter s.
Proof.
  destruct (add_then_remove_round_restores build_calls eq_refl) as (H1 & H2 & _).
  split; [exact H1 | exact H2].
Defined.

(** With a quoted id in the tree a round raises at the record that has
    it: the records before it have got their value, those from it on have
    not, and the counter is as before. *)
Lemma round_stops_at_quoted_id :
  let s := run [OpPopulate stored_quoted] TrackerPromptMaker.constructor_default in
  let r := TrackerPromptMaker.addExampleValueToAllFields s in
  obj_keys (TrackerPromptMaker.backend s) = ["field-0"%string; quoted_id]
  ∧ r.2 = Throws
  ∧ exampleValues <$> get_field [] "field-0" (TrackerPromptMaker.backend r.1)
    = Some (EVarray [EmptyString])
  ∧ exampleValues <$> get_field [] quoted_id (TrackerPromptMaker.backend r.1)
    = Some (EVarray [])
  ∧ exampleCounter r.1 = 0
  ∧ saved r.1 = saved s.
Proof. by vm_compute. Qed.

(** So does the removal of a round, after it has removed the value of
    that record. *)
Lemma removal_stops_at_quoted_id :
  let s := run [OpAddField [] None one_example_fieldData (Some quoted_id);
                OpAddField [] None one_example_fieldData None]
               TrackerPromptMaker.constructor_default in
  let r := TrackerPromptMaker.removeExampleValueFromAllFields s in
  r.2 = Throws
  ∧ exampleValues <$> get_field [] quoted_id (TrackerPromptMaker.backend r.1)
    = Some (EVarray [])
  ∧ exampleValues <$> get_field [] "field-0" (TrackerPromptMaker.backend r.1)
    = Some (EVarray ["rain"%string])
  ∧ exampleCounter r.1 = exampleCounter s.
Proof. by vm_compute. Qed.

(** ** Assignments to one record *)

Lemma field_at_update_at_alter p id (g : field → field) a m :
  (∀ f, nestedFields (g f) = nestedFields f) →
  attributes <$> field_at a (update_at p (obj_alter g id) m)
  = (if decide (a = p ++ [id]) then attributes ∘ g else attributes) <$> field_at a m.
Proof.
  intros Hg. revert a m. induction p as [|i q IH]; intros a m.
  - cbn [update_at app]. destruct a as [|k a]; [by case_decide|].
    cbn [field_at]. rewrite obj_get_alter.
    destruct (decide (k = id)) as [->|Hk].
    + destruct (obj_get id m) as [f|]; [|by case_decide].
      cbn [fmap option_fmap option_map].
      destruct a as [|k' a]; [by rewrite decide_True|].
      rewrite decide_False by done.
      unfold nested_obj. by rewrite Hg.
    + rewrite decide_False by congruence. done.
  - cbn [update_at app]. destruct a as [|k a]; [by case_decide|].
    cbn [field_at]. rewrite obj_get_alter.
    destruct (decide (k = i)) as [->|Hk].
    + destruct (obj_get i m) as [f|]; [|by case_decide].
      cbn [fmap option_fmap option_map].
      destruct a as [|k' a].
      * rewrite decide_False by (by destruct q). cbn.
        by destruct f as [? ? ? ? ? ? [| | |?]].
      * unfold nested_obj.
        destruct (nestedFields f) as [| |z|n] eqn:En; rewrite ?En;
          try (by case_decide).
        cbn [set_nestedFields nestedFields]. rewrite IH.
        destruct (decide (k' :: a = q ++ [id])) as [E|E].
        -- rewrite decide_True; [done|]. by rewrite E.
        -- rewrite decide_False; [done|]. by intros [= ?].
    + rewrite decide_False by congruence. done.
Qed.

Lemma counters_on_backend {A} (f : fields → fields * completion A) s :
  let s' := (TrackerPromptMaker.on_backend f s).1 in
  fieldCounter s' = fieldCounter s ∧ exampleCounter s' = exampleCounter s
  ∧ saved s' = saved s ∧ backendObject s' = backendObject s.
Proof.
  unfold TrackerPromptMaker.on_backend.
  by destruct (f (TrackerPromptMaker.backend s)) as [m r].
Qed.

(** [selectFieldType] on a record with a quoted id raises, after it has
    assigned the type. *)
Lemma selectFieldType_raises_after_assignment :
  let s := run [OpAddField [] None empty_fieldData (Some quoted_id)]
               TrackerPromptMaker.constructor_default in
  let r := TrackerPromptMaker.selectFieldType "OBJECT" quoted_id [] s in
  r.2 = Throws
  ∧ type <$> get_field [] quoted_id (TrackerPromptMaker.backend r.1)
    = Some (Some "OBJECT"%string).
Proof. by vm_compute. Qed.

(** What an assignment leaves at every address, and in the counters. *)
Lemma step_assignment o p id g s a :
  mutation o = Some (p, id, g) →
  attributes <$> field_at a (TrackerPromptMaker.backend (step o s))
  = (if decide (a = p ++ [id]) then attributes ∘ g else attributes)
      <$> field_at a (TrackerPromptMaker.backend s)
  ∧ fieldCounter (step o s) = fieldCounter s
  ∧ exampleCounter (step o s) = exampleCounter s
  ∧ saved (step o s) = saved s.
Proof.
  intros Hm. split.
  - rewrite (step_mutation o p id g s Hm). unfold assign.
    destruct (get_field p id (TrackerPromptMaker.backend s)) as [f|] eqn:Hf; cbn [fst].
    + apply field_at_update_at_alter. intros f'. by apply (mutation_keeps o p id g Hm).
    + case_decide; [|done]. subst a. rewrite <- get_field_field_at, Hf. done.
  - destruct o; try done; cbn [step];
      unfold TrackerPromptMaker.validateFieldName, TrackerPromptMaker.selectFieldType,
        TrackerPromptMaker.toggleStaticDynamic, TrackerPromptMaker.updatePrompt,
        TrackerPromptMaker.updateDefaultValue;
      match goal with
      | |- context [TrackerPromptMaker.on_backend ?f s] =>
          destruct (counters_on_backend f s) as (-> & -> & -> & _)
      end; done.
Qed.

(** X4.  [validateFieldName] with an accepted name, [selectFieldType],
    [toggleStaticDynamic], [updatePrompt] and [updateDefaultValue] change one
    attribute of the one record they address and nothing else.  For a
    record [f] at the address [a]: when [a] is the address the call is
    given, the record has afterwards the new name (type, dynamic flag,
    prompt, default value) and every other attribute of [f]; at any other
    address the attributes are those of [f].  An address without a record
    has none afterwards; the counters and the arguments received by the
    save callback stay as they are.  [selectFieldType] has made its
    assignment also when its lookup of the field raises. *)
Theorem assignment_touches_one_record (s : state) (p : list string) (id : string)
    (a : list string) (f : field) :
  field_at a (TrackerPromptMaker.backend s) = Some f →
  let after o := attributes <$> field_at a (TrackerPromptMaker.backend (step o s)) in
  let here (x : option string * option string * option bool * option string
                * option string * examples) :=
    Some (if decide (a = p ++ [id]) then x else attributes f) in
  (∀ x, Js.includes Js.quote x = false →
        after (OpValidateFieldName x id p)
        = here (Some x, type f, isDynamic f, prompt f, defaultValue f,
                exampleValues f))
  ∧ (∀ x, after (OpSelectFieldType x id p)
          = here (name f, Some x, isDynamic f, prompt f, defaultValue f,
                  exampleValues f))
  ∧ (∀ x, after (OpToggleStaticDynamic x id p)
          = here (name f, type f, Some x, prompt f, defaultValue f,
                  exampleValues f))
  ∧ (∀ x, after (OpUpdatePrompt x id p)
          = here (name f, type f, isDynamic f, Some x, defaultValue f,
                  exampleValues f))
  ∧ (∀ x, after (OpUpdateDefaultValue x id p)
          = here (name f, type f, isDynamic f, prompt f, Some x,
                  exampleValues f))
  ∧ ∀ o q i g, mutation o = Some (q, i, g) →
      (∀ b, field_at b (TrackerPromptMaker.backend s) = None →
            field_at b (TrackerPromptMaker.backend (step o s)) = None)
      ∧ fieldCounter (step o s) = fieldCounter s
      ∧ exampleCounter (step o s) = exampleCounter s
      ∧ saved (step o s) = saved s.
Proof.
  intros Hf after here. subst after here. cbv beta.
  assert (∀ o g, mutation o = Some (p, id, g) →
            attributes <$> field_at a (TrackerPromptMaker.backend (step o s))
            = Some (if decide (a = p ++ [id]) then attributes (g f)
                    else attributes f)) as Hstep.
  { intros o g Hm. rewrite (proj1 (step_assignment o p id g s a Hm)), Hf.
    cbn. by case_decide. }
  split_and!.
  - intros x Hx. apply (Hstep (OpValidateFieldName x id p) (set_name x)).
    cbn [mutation]. by rewrite Hx.
  - intros x. by apply (Hstep (OpSelectFieldType x id p) (set_type x)).
  - intros x. by apply (Hstep (OpToggleStaticDynamic x id p) (set_isDynamic x)).
  - intros x. by apply (Hstep (OpUpdatePrompt x id p) (set_prompt x)).
  - intros x. by apply (Hstep (OpUpdateDefaultValue x id p) (set_defaultValue x)).
  - intros o q i g Hm. split; [|apply (step_assignment o q i g s [] Hm)].
    intros b Hb. pose proof (proj1 (step_assignment o q i g s b Hm)) as E.
    rewrite Hb in E.
    destruct (field_at b (TrackerPromptMaker.backend (step o s))) as [f'|]; [|done].
    exfalso. revert E. by case_decide.
Qed.

Lemma assignment_touches_one_record_witness :
  let s := run build_calls TrackerPromptMaker.constructor_default in
  let s' := step (OpSelectFieldType "ARRAY" "field-9" ["field-1"%string]) s in
  attributes <$> field_at ["field-1"; "field-9"]%string (TrackerPromptMaker.backend s')
  = Some (Some "town"%string, Some "ARRAY"%string, Some true,
          Some "where it happens"%string, Some EmptyString,
          EVarray ["Bree"%string])
  ∧ attributes <$> field_at ["field-1"]%string (TrackerPromptMaker.backend s')
    = Some (Some "place"%string, Some "OBJECT"%string, Some false,
            Some EmptyString, Some "unknown"%string, EVarray []).
Proof.
  split.
  - destruct (assignment_touches_one_record
                (run build_calls TrackerPromptMaker.constructor_default)
                ["field-1"%string] "field-9" ["field-1"; "field-9"]%string
                (new_record town_fieldData ["Bree"%string]) eq_refl)
      as (_ & H & _).
    exact (H "ARRAY"%string).
  - destruct (assignment_touches_one_record
                (run build_calls TrackerPromptMaker.constructor_default)
                ["field-1"%string] "field-9" ["field-1"]%string
                (set_nestedFields
                   (NFobject [("field-9"%string,
                               new_record town_fieldData ["Bree"%string]);
                              ("field-10"%string, new_record empty_fieldData [])])
                   (new_record place_fieldData [])) eq_refl)
      as (_ & H & _).
    exact (H "ARRAY"%string).
Defined.

(** ** The field counter stays ahead of the ids *)

Lemma choose_id_below oid fc :
  0 ≤ fc →
  fc ≤ (choose_id oid fc).2
  ∧ ∀ n, id_number (choose_id oid fc).1 = Some n → n < (choose_id oid fc).2.
Proof.
  intros Hfc. split; [apply choose_id_counter|].
  unfold choose_id. destruct (truthy_id oid) as [id|]; cbn [fst snd].
  - unfold id_number. intros n ->. case_match; [lia|]. apply Z.leb_gt in H. lia.
  - intros n. rewrite id_number_generated by done. intros [= <-]. lia.
Qed.

Lemma own_attributes_id_below c : own_attributes (id_below c).
Proof. by intros k f nf. Qed.

Lemma ahead_weaken m c c' : c ≤ c' → ahead (m, c) → ahead (m, c').
Proof.
  intros Hc [H0 Hm]. split; [cbn [snd] in *; lia|]. cbn [fst snd] in *.
  eapply tree_ok_impl; [|exact Hm]. intros k f Hk n Hn. specialize (Hk n Hn). lia.
Qed.

Lemma addField_ahead fd : ∀ c p pf oid st,
  ahead st → ahead (addField c p pf fd oid st).1.1.
Proof.
  induction fd as [nm t d pr v ev nf IH] using field_nested_ind.
  intros c p pf oid [T fc] Hst. pose proof Hst as [H0 HT]. cbn [fst snd] in H0, HT.
  rewrite addField_unfold. cbn [fst snd].
  destruct (choose_id_below oid fc H0) as [Hle Hid].
  set (fd := Field nm t d pr v ev nf) in *. cbn zeta.
  destruct (find_parent_raises pf); [by apply (ahead_weaken T fc)|].
  destruct (exampleValues (fill_examples c fd)) as [|l|] eqn:Hev.
  1,3: by apply (ahead_weaken T fc).
  assert (ahead (update_at p (obj_set (choose_id oid fc).1 (new_record fd l)) T,
                 (choose_id oid fc).2)) as Hnew.
  { split; cbn [fst snd]; [lia|].
    apply tree_ok_update_at; [apply own_attributes_id_below| |].
    - by apply (ahead_weaken T fc _ Hle Hst).
    - intros n _ Hn. apply tree_ok_set; [done|].
      apply field_ok_unfold. split; [exact Hid|].
      exists []. split; [done|apply tree_ok_nil]. }
  destruct (populate_examples _ _ _ _).2 as [[]|]; [|done].
  destruct (nestedFields fd) as [| |z|m] eqn:Hnf; try done.
  pose proof (forEachEntry_invariant ahead
                (λ k g, addField c (p ++ [(choose_id oid fc).1])
                                 (Some (choose_id oid fc).1) g (Some k)) m
                (update_at p (obj_set (choose_id oid fc).1 (new_record fd l)) T,
                 (choose_id oid fc).2)) as Hloop.
  destruct (forEachEntry _ m _) as [[st' m'] r]. cbn [fst snd] in *.
  apply Hloop; [|done].
  eapply Forall_impl; [exact (IH m Hnf)|].
  intros [k g] Hg s Hs. by apply Hg.
Qed.

Lemma buildFieldsFromObject_ahead c m st :
  ahead st → ahead (buildFieldsFromObject c m st).1.1.
Proof.
  intros Hst. apply (forEachEntry_invariant ahead); [|done].
  apply Forall_forall. intros [k f] _ s Hs. by apply addField_ahead.
Qed.

(** What a load leaves as the tree and the field counter: those of a
    build from an empty tree and a counter of zero, of some mapping. *)
Lemma populate_built existing s :
  ∃ c m,
    let s' := (TrackerPromptMaker.populateFromExistingObject existing s).1 in
    (TrackerPromptMaker.backend s', fieldCounter s')
    = (buildFieldsFromObject c m ([], 0)).1.1.
Proof.
  unfold TrackerPromptMaker.populateFromExistingObject.
  destruct (decide (existing = fresh (dom (heap s)))) as [->|Hne].
  { exists 0, []. rewrite lookup_total_insert_eq.
    change (collectExampleCount [] 0) with (0, @Normal unit tt). cbv iota beta.
    change (normalizeExampleCount 0 []) with (@nil (string * field), @Normal unit tt).
    cbv iota beta.
    change (buildFieldsFromObject 0 [] ([], 0))
      with (@nil (string * field), 0, @nil (string * field), @Normal unit tt).
    cbv iota beta zeta. cbn [fst snd]. by rewrite backend_State. }
  destruct (collectExampleCount _ 0) as [c [[]|]].
  2:{ exists 0, []. cbn [fst]. by rewrite backend_State. }
  destruct (normalizeExampleCount c _) as [obj1 [[]|]].
  2:{ exists 0, []. cbn [fst]. unfold TrackerPromptMaker.backend. cbn.
      rewrite lookup_total_insert_ne by done. by rewrite lookup_total_insert_eq. }
  exists c, obj1.
  destruct (buildFieldsFromObject c obj1 ([], 0)) as [[[T fc] obj2] r].
  cbn [fst snd]. by rewrite backend_State.
Qed.

Lemma fieldCounter_step o s :
  is_addField o = false → is_populate o = false →
  fieldCounter (step o s) = fieldCounter s.
Proof.
  intros Hadd Hpop.
  destruct o as [p pf fd id|id p ok|x id p|x id p|x id p|x id p|x id p| | |stored];
    try done; cbn [step];
    unfold TrackerPromptMaker.validateFieldName, TrackerPromptMaker.selectFieldType,
      TrackerPromptMaker.toggleStaticDynamic, TrackerPromptMaker.updatePrompt,
      TrackerPromptMaker.updateDefaultValue;
    try (match goal with
         | |- context [TrackerPromptMaker.on_backend ?f s] =>
             by destruct (counters_on_backend f s) as (-> & _)
         end).
  - unfold TrackerPromptMaker.removeField. by destruct ok.
  - unfold TrackerPromptMaker.addExampleValueToAllFields.
    by destruct (addExampleValueToAllFields _) as [st [[]|]].
  - unfold TrackerPromptMaker.removeExampleValueFromAllFields.
    by destruct (removeExampleValueFromAllFields _) as [st [[]|]].
Qed.

Lemma fieldCounter_addField p pf fd id s :
  fieldCounter (TrackerPromptMaker.addField p pf fd id s).1
  = (addField (exampleCounter s) p pf fd id
       (TrackerPromptMaker.backend s, fieldCounter s)).1.1.2.
Proof.
  unfold TrackerPromptMaker.addField.
  by destruct (addField _ _ _ _ _ _) as [[st fd'] r].
Qed.

(** Every call keeps the field counter ahead of the ids of the tree. *)
Lemma step_ahead o s :
  ahead (TrackerPromptMaker.backend s, fieldCounter s) →
  ahead (TrackerPromptMaker.backend (step o s), fieldCounter (step o s)).
Proof.
  intros Hs.
  destruct (is_addField o) eqn:Hadd.
  { destruct o as [p pf fd id| | | | | | | | |]; try done. cbn [step].
    rewrite backend_addField, fieldCounter_addField.
    pose proof (addField_ahead fd (exampleCounter s) p pf id _ Hs) as H.
    by destruct (addField _ _ _ _ _ _) as [[[T fc] fd'] r]. }
  destruct (is_populate o) eqn:Hpop.
  { destruct o as [| | | | | | | | |stored]; try done. cbn [step]. unfold alloc.
    destruct (populate_built (fresh (dom (heap s)))
                (State (<[fresh (dom (heap s)) := stored]> (heap s)) (backendObject s)
                       (fieldCounter s) (exampleCounter s) (saved s)))
      as (c & m & E).
    cbn zeta in E. rewrite E. apply buildFieldsFromObject_ahead.
    split; [done|apply tree_ok_nil]. }
  rewrite (fieldCounter_step o s Hadd Hpop). destruct Hs as [H0 Hs].
  split; [done|]. cbn [fst snd] in *.
  apply step_tree_ok_rest; try done.
  apply own_attributes_id_below.
Qed.

Lemma ahead_reachable ops :
  let s := run ops TrackerPromptMaker.constructor_default in
  ahead (TrackerPromptMaker.backend s, fieldCounter s).
Proof.
  cbn zeta.
  assert (ahead (TrackerPromptMaker.backend TrackerPromptMaker.constructor_default,
                 fieldCounter TrackerPromptMaker.constructor_default)) as Hinit.
  { split; [done|apply tree_ok_nil]. }
  revert Hinit. generalize TrackerPromptMaker.constructor_default.
  induction ops as [|o ops IH]; intros s Hs; [done|].
  cbn [run fold_left]. apply IH. by apply step_ahead.
Qed.

(** Without a load the field counter never decreases. *)
Lemma fieldCounter_run ops s :
  no_populate ops = true → fieldCounter s ≤ fieldCounter (run ops s).
Proof.
  revert s. induction ops as [|o ops IH]; intros s Hops; [done|].
  cbn [no_populate forallb] in Hops. apply andb_prop in Hops as [Ho Hops].
  apply negb_true_iff in Ho.
  cbn [run fold_left]. etrans; [|by apply IH].
  destruct (is_addField o) eqn:Hadd.
  - destruct o as [p pf fd id| | | | | | | | |]; try done. cbn [step].
    rewrite fieldCounter_addField.
    apply (addField_counter (exampleCounter s) fd p pf id
             (TrackerPromptMaker.backend s, fieldCounter s)).
  - by rewrite fieldCounter_step.
Qed.

Lemma addField_empty_fieldData p pf s n :
  resolve p (TrackerPromptMaker.backend s) = Some n →
  find_parent_raises pf = false →
  let newId := (choose_id None (fieldCounter s)).1 in
  let res := TrackerPromptMaker.addField p pf empty_fieldData None s in
  res.2 = Normal tt
  ∧ resolve p (TrackerPromptMaker.backend res.1)
    = Some (obj_set newId
              (new_record empty_fieldData
                 (replicate (Z.to_nat (exampleCounter s)) EmptyString)) n)
  ∧ fieldCounter res.1 = fieldCounter s + 1.
Proof.
  intros Hn Hpf newId res. subst res.
  rewrite backend_addField, fieldCounter_addField.
  unfold TrackerPromptMaker.addField. rewrite addField_unfold.
  cbn [fst snd empty_fieldData fill_examples exampleValues set_exampleValues
       nestedFields]. cbn zeta. rewrite Hpf.
  cbn [fst snd exampleValues nestedFields].
  rewrite (populate_examples_completes _ p _ _
             (new_record empty_fieldData
                (replicate (Z.to_nat (exampleCounter s)) EmptyString))
             (replicate (Z.to_nat (exampleCounter s)) EmptyString));
    [| apply find_raises_generated
     | apply get_field_update_at_set; by rewrite Hn
     | done].
  cbn [fst snd].
  split; [done|]. split; [|done].
  by rewrite resolve_update_at, Hn.
Qed.

(** When the wrapper of the parent field cannot be looked up, [addField]
    raises before it stores anything; the field counter has moved on. *)
Lemma addField_stops_at_quoted_parent :
  let s := run [OpAddField [] None empty_fieldData (Some quoted_id)]
               TrackerPromptMaker.constructor_default in
  let res := TrackerPromptMaker.addField [quoted_id] (Some quoted_id)
               empty_fieldData None s in
  resolve [quoted_id] (TrackerPromptMaker.backend s) = Some []
  ∧ res.2 = Throws
  ∧ TrackerPromptMaker.backend res.1 = TrackerPromptMaker.backend s
  ∧ fieldCounter res.1 = fieldCounter s + 1.
Proof. by vm_compute. Qed.

(** X5.  An id that was in the tree is never handed out again while no
    load intervenes: without a load the field counter never decreases, and
    in every state the component reaches, the id that [addField] generates
    differs from every id, at any depth, of the tree as it is and as it was
    at any earlier point since the last load, also when the field that
    held it has been removed since.  When the id of the parent field is
    plain, the call completes and the new record is appended to
    the mapping it is added to, so that no record is overwritten.  (The
    counter is taken below 2^53, where the numbers of the program are
    exact.) *)
Theorem generated_id_is_never_reused (ops1 ops2 : list op) (id : string)
    (p : list string) (parentFieldId : option string) (n : fields) :
  let s1 := run ops1 TrackerPromptMaker.constructor_default in
  let s := run ops2 s1 in
  let newId := String.append "field-" (Js.number_to_string (fieldCounter s)) in
  let res := TrackerPromptMaker.addField p parentFieldId empty_fieldData None s in
  no_populate ops2 = true →
  fieldCounter s < 2 ^ 53 →
  id ∈ all_ids (TrackerPromptMaker.backend s1) →
  resolve p (TrackerPromptMaker.backend s) = Some n →
  plain_option parentFieldId = true →
  fieldCounter s1 ≤ fieldCounter s
  ∧ newId ≠ id
  ∧ (newId ∉ all_ids (TrackerPromptMaker.backend s))
  ∧ res.2 = Normal tt
  ∧ resolve p (TrackerPromptMaker.backend res.1)
    = Some (n ++ [(newId,
                   new_record empty_fieldData
                     (replicate (Z.to_nat (exampleCounter s)) EmptyString))])
  ∧ fieldCounter res.1 = fieldCounter s + 1.
Proof.
  intros s1 s newId res Hops _ Hid Hn Hpf%plain_option_find_parent_raises.
  subst res.
  pose proof (ahead_reachable ops1) as [_ H1]. fold s1 in H1. cbn [fst snd] in H1.
  pose proof (ahead_reachable (ops1 ++ ops2)) as [H0 H2].
  unfold run in H0, H2. rewrite fold_left_app in H0, H2.
  fold (run ops1 TrackerPromptMaker.constructor_default) in H0, H2.
  fold s1 in H0, H2. fold (run ops2 s1) in H0, H2. fold s in H0, H2.
  cbn [fst snd] in H0, H2.
  pose proof (fieldCounter_run ops2 s1 Hops) as Hmono. fold s in Hmono.
  assert (id_number newId = Some (fieldCounter s)) as Hnum
    by (apply id_number_generated; exact H0).
  assert (∀ m, tree_ok (id_below (fieldCounter s)) m → newId ∉ all_ids m) as Hfresh.
  { intros m Hm Hin. apply tree_ok_all_records in Hm.
    apply list_elem_of_fmap in Hin as ([k f] & -> & Hkf).
    pose proof (proj1 (Forall_forall _ _) Hm _ Hkf _ Hnum). lia. }
  split_and!.
  - done.
  - intros <-. apply tree_ok_all_records in H1.
    apply list_elem_of_fmap in Hid as ([k f] & Hk & Hkf). cbn [fst] in Hk.
    pose proof (proj1 (Forall_forall _ _) H1 _ Hkf) as Hb. cbn [fst snd] in Hb.
    rewrite <- Hk in Hb. specialize (Hb _ Hnum). lia.
  - by apply Hfresh.
  - apply (addField_empty_fieldData p parentFieldId s n Hn Hpf).
  - destruct (addField_empty_fieldData p parentFieldId s n Hn Hpf) as (_ & -> & _).
    f_equal. apply obj_set_fresh.
    pose proof (tree_ok_resolve _ p _ n H2 Hn) as [_ Hok].
    intros Hin. apply list_elem_of_fmap in Hin as ([k f] & Hk & Hkf).
    cbn [fst] in Hk.
    pose proof (proj1 (Forall_forall _ _) Hok _ Hkf) as Hb. cbn [fst snd] in Hb.
    apply field_ok_unfold in Hb as [Hb _]. rewrite <- Hk in Hb.
    specialize (Hb _ Hnum). lia.
  - apply (addField_empty_fieldData p parentFieldId s n Hn Hpf).
Qed.

Lemma generated_id_is_never_reused_witness :
  let s1 := run build_calls TrackerPromptMaker.constructor_default in
  let s := run [OpRemoveField "field-10" ["field-1"%string] true] s1 in
  let res := TrackerPromptMaker.addField [] None empty_fieldData None s in
  fieldCounter s1 ≤ fieldCounter s
  ∧ "field-11"%string ≠ "field-10"%string
  ∧ ("field-11"%string ∉ all_ids (TrackerPromptMaker.backend s))
  ∧ res.2 = Normal tt
  ∧ resolve [] (TrackerPromptMaker.backend res.1)
    = Some (TrackerPromptMaker.backend s
            ++ [("field-11"%string, new_record empty_fieldData [])])
  ∧ fieldCounter res.1 = 12.
Proof.
  apply (generated_id_is_never_reused build_calls
           [OpRemoveField "field-10" ["field-1"%string] true] "field-10" [] None
           (TrackerPromptMaker.backend
              (run [OpRemoveField "field-10" ["field-1"%string] true]
                 (run build_calls TrackerPromptMaker.constructor_default)))).
  - reflexivity.
  - vm_compute. reflexivity.
  - vm_compute. do 3 apply list_elem_of_further. apply list_elem_of_here.
  - reflexivity.
  - reflexivity.
Defined.

(** ** Saving and loading again *)

Lemma in_heap_step o s :
  is_Some (heap s !! backendObject s) →
  is_Some (heap (step o s) !! backendObject (step o s)).
Proof.
  intros Hs.
  destruct o as [p pf fd id|id p ok|x id p|x id p|x id p|x id p|x id p| | |stored];
    cbn [step];
    unfold TrackerPromptMaker.validateFieldName, TrackerPromptMaker.selectFieldType,
      TrackerPromptMaker.toggleStaticDynamic, TrackerPromptMaker.updatePrompt,
      TrackerPromptMaker.updateDefaultValue;
    try (unfold TrackerPromptMaker.on_backend;
         match goal with
         | |- context [let '(_, _) := ?e in _] => destruct e as [m r]
         end; cbn; by rewrite lookup_insert_eq).
  - unfold TrackerPromptMaker.addField.
    destruct (addField _ _ _ _ _ _) as [[st fd'] r]. cbn. by rewrite lookup_insert_eq.
  - unfold TrackerPromptMaker.removeField. destruct ok; [|done].
    cbn. by rewrite lookup_insert_eq.
  - unfold TrackerPromptMaker.addExampleValueToAllFields.
    destruct (addExampleValueToAllFields _) as [st [[]|]]; cbn;
      by rewrite lookup_insert_eq.
  - unfold TrackerPromptMaker.removeExampleValueFromAllFields.
    destruct (removeExampleValueFromAllFields _) as [st [[]|]]; cbn;
      by rewrite lookup_insert_eq.
  - unfold alloc, TrackerPromptMaker.populateFromExistingObject.
    cbn [heap backendObject fieldCounter exampleCounter saved].
    destruct (collectExampleCount _ 0) as [c [[]|]];
      [|cbn; by rewrite lookup_insert_eq].
    destruct (normalizeExampleCount c _) as [obj1 [[]|]].
    + destruct (buildFieldsFromObject c obj1 ([], 0)) as [[st obj2] r].
      cbn. by rewrite lookup_insert_eq.
    + cbn. set (l := fresh _).
      destruct (decide (fresh (dom (heap s)) = l)) as [E|E].
      * rewrite E. by rewrite lookup_insert_eq.
      * rewrite lookup_insert_ne by done. by rewrite lookup_insert_eq.
Qed.

Lemma complete_set_examples k f l :
  complete k f → complete k (set_exampleValues (EVarray l) f).
Proof.
  intros (H1 & H2 & H3 & H4 & H5 & H6 & _). unfold complete.
  split_and!; try done. by exists l.
Qed.

Lemma step_ui_inv o s : ui_call o s = true → ui_inv s → ui_inv (step o s).
Proof.
  intros Ho (Hc & Hu & Hpl & Hh). apply andb_prop in Ho as [Hk Ht].
  split_and!.
  - apply step_tree_ok; try done.
    + apply own_attributes_complete.
    + apply complete_set_examples.
    + apply insertable_complete.
    + intros p id g Hm k f (H1 & H2 & H3 & H4 & H5 & H6 & H7).
      destruct o; cbn [mutation] in Hm; try done.
      * destruct (Js.includes Js.quote newName); [done|].
        injection Hm as <- <- <-. by split_and!.
      * injection Hm as <- <- <-. split_and!; try done.
        exists newType. split; [done|]. by apply bool_decide_eq_true in Ht.
      * injection Hm as <- <- <-. by split_and!.
      * injection Hm as <- <- <-. by split_and!.
      * injection Hm as <- <- <-. by split_and!.
  - by apply step_uniform_inv.
  - apply step_plain_inv; [|done]. unfold keeps_uniform in Hk.
    by apply andb_prop in Hk as [? _].
  - by apply in_heap_step.
Qed.

Lemma ui_inv_run ops : ∀ s,
  all_ui_calls ops s = true → ui_inv s → ui_inv (run ops s).
Proof.
  induction ops as [|o ops IH]; intros s Hops Hs; [done|].
  cbn [all_ui_calls] in Hops. apply andb_prop in Hops as [Ho Hops].
  cbn [run fold_left]. apply IH; [done|]. by apply step_ui_inv.
Qed.

Lemma ui_inv_constructor_default : ui_inv TrackerPromptMaker.constructor_default.
Proof.
  split_and!; [apply tree_ok_nil | split; [apply tree_ok_nil | done]
               | apply tree_ok_nil | by eexists].
Qed.

(** On a uniform tree the first pass of the loader finds the common
    length, and the second pass changes nothing. *)
Lemma normalized_uniform c m :
  uniform_tree c m → 0 ≤ c →
  normalized m = m ∧ (m ≠ [] → (collectExampleCount m 0).1 = c).
Proof.
  intros Hm Hc. pose proof (tree_ok_all_records _ m Hm) as Hall.
  assert (lacks_examples m = false) as Hlack.
  { apply lacks_examples_has_examples. eapply Forall_impl; [exact Hall|].
    intros [k f] (l & Hl & _). unfold has_examples. cbn [fst snd] in *.
    by rewrite Hl. }
  pose proof (collectExampleCount_spec m 0) as (H0 & Hthrow & Hok).
  assert ((collectExampleCount m 0).2 = Normal tt) as Hnormal.
  { destruct (collectExampleCount m 0).2 as [[]|]; [done|].
    destruct Hthrow as [H' _]. specialize (H' eq_refl). congruence. }
  destruct (Hok Hnormal) as [Hub Hatt].
  assert ((collectExampleCount m 0).1 ≤ c) as Hle.
  { destruct Hatt as [->|(kv & l & Hkv & Hl & <-)]; [done|].
    destruct (proj1 (Forall_forall _ _) Hall kv Hkv) as (l' & Hl' & <-).
    rewrite Hl in Hl'. by injection Hl' as ->. }
  split.
  - unfold normalized. apply map_examples_fixed.
    eapply Forall_impl; [exact Hall|]. intros [k f] (l & Hl & Hlen).
    cbn [fst snd] in *. rewrite Hl. cbn [pad_examples]. f_equal. unfold pad.
    replace (Z.to_nat _) with 0%nat by lia. apply app_nil_r.
  - intros Hne. destruct m as [|[k f] m]; [done|].
    rewrite all_records_cons in Hall. apply Forall_cons in Hall as [(l & Hl & Hlen) _].
    cbn [snd] in *.
    specialize (Hub (k, f) l). rewrite all_records_cons in Hub.
    specialize (Hub ltac:(left) Hl). lia.
Qed.

(** X6.  What the component hands to the save callback can be loaded
    again: for every state reached through the user interface, a new
    component constructed from the backend object of the first has a
    backend object of its own with exactly the same tree, finds the same
    example counter (zero when the tree is empty), and leaves the object it
    was constructed from as it was. *)
Theorem reload_reproduces_tree (ops : list op) :
  all_ui_calls ops TrackerPromptMaker.constructor_default = true →
  let s := run ops TrackerPromptMaker.constructor_default in
  let t := TrackerPromptMaker.constructor (heap s) (backendObject s) in
  TrackerPromptMaker.backend t = TrackerPromptMaker.backend s
  ∧ heap t !!! backendObject s = TrackerPromptMaker.backend s
  ∧ backendObject t ≠ backendObject s
  ∧ exampleCounter t
    = match TrackerPromptMaker.backend s with
      | [] => 0
      | _ :: _ => exampleCounter s
      end.
Proof.
  intros Hops s t.
  destruct (ui_inv_run ops _ Hops ui_inv_constructor_default)
    as (Hc & [Hu Hpos] & Hpl & [m Hm]). fold s in Hc, Hu, Hpos, Hpl, Hm.
  unfold plain_inv in Hpl.
  assert (TrackerPromptMaker.backend s = m) as Hb.
  { unfold TrackerPromptMaker.backend. by apply lookup_total_correct. }
  rewrite Hb in *. subst t. unfold TrackerPromptMaker.constructor.
  set (l := fresh (dom (heap s))).
  assert (l ≠ backendObject s) as Hl.
  { intros E. apply (is_fresh (dom (heap s))). fold l. rewrite E.
    apply elem_of_dom. by eexists. }
  set (s0 := State (<[l := []]> (heap s)) l 0 0 []).
  assert (heap s0 !! backendObject s = Some m) as H0.
  { cbn. by rewrite lookup_insert_ne. }
  unfold TrackerPromptMaker.init. rewrite (lookup_total_correct _ _ _ H0).
  destruct m as [|kv m].
  { split_and!; try done.
    - apply backend_State.
    - by apply lookup_total_correct. }
  destruct (normalized_uniform _ _ Hu Hpos) as [Hnorm Hcount].
  specialize (Hcount ltac:(done)).
  destruct (populate_having (backendObject s) s0 (kv :: m) H0
              (complete_has_examples _ Hc)) as (Hec & Hheap & Hne & Hback & _).
  rewrite Hnorm in Hheap, Hback. rewrite Hcount in Hec, Hback.
  rewrite Hback. split_and!; try done.
  by apply buildFieldsFromObject_rebuilds.
Qed.

Lemma reload_reproduces_tree_witness :
  let s := run ui_calls TrackerPromptMaker.constructor_default in
  let t := TrackerPromptMaker.constructor (heap s) (backendObject s) in
  TrackerPromptMaker.backend t = TrackerPromptMaker.backend s
  ∧ heap t !!! backendObject s = TrackerPromptMaker.backend s
  ∧ backendObject t ≠ backendObject s
  ∧ exampleCounter t
    = match TrackerPromptMaker.backend s with
      | [] => 0
      | _ :: _ => exampleCounter s
      end.
Proof. apply (reload_reproduces_tree ui_calls). vm_compute. reflexivity. Defined.

(** ** When building fields raises *)








(** ** The field counter a load leaves *)

Lemma choose_id_given_counter id fc :
  id ≠ EmptyString →
  (choose_id (Some id) fc).2
  = match id_number id with
    | Some n => if fc <=? n then n + 1 else fc
    | None => fc
    end.
Proof. by destruct id. Qed.

Lemma counter_from_mono ids ids' fc st :
  ids ⊆ ids' → counter_from ids fc st → counter_from ids' fc st.
Proof.
  intros Hsub [H|(id & n & Hid & Hn & H)]; [by left|].
  right. exists id, n. split; [by apply Hsub|done].
Qed.

Lemma counter_from_trans ids fc st st' :
  counter_from ids fc st → counter_from ids st.2 st' → counter_from ids fc st'.
Proof.
  intros H1 [H2|H2]; [|by right].
  destruct H1 as [H1|H1]; [left; congruence|]. right.
  destruct H1 as (id & n & Hid & Hn & H). exists id, n. rewrite H2. done.
Qed.

Lemma records_of_subseteq k f m :
  (k, f) ∈ m → (k, f) :: records_of f ⊆ all_records m.
Proof.
  induction m as [|[k0 f0] m IH]; intros Hin; [by apply elem_of_nil in Hin|].
  rewrite all_records_cons, <- records_of_unfold.
  apply elem_of_cons in Hin as [[= <- <-]|Hin].
  - intros x Hx. apply elem_of_cons in Hx as [->|Hx]; [left|].
    right. apply elem_of_app. by left.
  - intros x Hx. right. apply elem_of_app. right. by apply IH.
Qed.

Lemma addField_counter_from fd : ∀ c p pf id st,
  id ≠ EmptyString → nonempty_ids (records_of fd).*1 = true →
  counter_from (id :: (records_of fd).*1) st.2
    (addField c p pf fd (Some id) st).1.1.
Proof.
  induction fd as [nm t d pr v ev nf IH] using field_nested_ind.
  intros c p pf id [T fc] Hid Hne. rewrite addField_unfold. cbn [fst snd].
  set (fd := Field nm t d pr v ev nf) in *.
  assert (counter_from (id :: (records_of fd).*1) fc (T, (choose_id (Some id) fc).2))
    as Htop.
  { rewrite choose_id_given_counter by done.
    destruct (id_number id) as [n|] eqn:Hn; [|by left].
    destruct (fc <=? n); [|by left]. right. exists id, n. split; [left|done]. }
  assert (∀ T', counter_from (id :: (records_of fd).*1) fc
                  (T', (choose_id (Some id) fc).2)) as Htop'.
  { intros T'. destruct Htop as [H|H]; [by left|by right]. }
  cbn zeta. destruct (find_parent_raises pf); [done|].
  destruct (exampleValues (fill_examples c fd)) as [|l|]; try done.
  destruct (populate_examples _ _ _ _).2 as [[]|]; [|done].
  destruct (nestedFields fd) as [| |z|m] eqn:Hnf; try done.
  pose proof (forEachEntry_invariant
                (counter_from (id :: (records_of fd).*1) fc)
                (λ k g, addField c (p ++ [(choose_id (Some id) fc).1])
                                 (Some (choose_id (Some id) fc).1) g (Some k)) m
                (update_at p (obj_set (choose_id (Some id) fc).1 (new_record fd l)) T,
                 (choose_id (Some id) fc).2)) as Hloop.
  destruct (forEachEntry _ m _) as [[st' m'] r]. cbn [fst snd] in *.
  apply Hloop; [|done]. clear Hloop.
  rewrite records_of_unfold in Hne. rewrite Hnf in Hne.
  apply Forall_forall. intros [k g] Hkg s Hs. cbn [fst snd].
  pose proof (records_of_subseteq k g m Hkg) as Hsub.
  eapply counter_from_trans; [exact Hs|].
  eapply counter_from_mono;
    [|apply (proj1 (Forall_forall _ _) (IH m Hnf) (k, g) Hkg c)].
  - rewrite (records_of_unfold fd), Hnf. cbn [snd]. intros x Hx. right.
    change (k :: (records_of g).*1) with (((k, g) :: records_of g).*1) in Hx.
    apply list_elem_of_fmap in Hx as (y & -> & Hy).
    apply list_elem_of_fmap. exists y. split; [done|]. by apply Hsub.
  - assert (k ∈ (all_records m).*1) as Hk.
    { apply list_elem_of_fmap. exists (k, g). split; [done|]. apply Hsub. left. }
    pose proof (proj1 (forallb_forall _ _) Hne k (proj1 (list_elem_of_In _ _) Hk)) as H.
    by apply bool_decide_eq_true in H.
  - cbn [snd]. apply forallb_forall. intros x Hx.
    apply (proj1 (forallb_forall _ _) Hne).
    apply list_elem_of_In. apply list_elem_of_In in Hx.
    apply list_elem_of_fmap in Hx as (y & -> & Hy).
    apply list_elem_of_fmap. exists y. split; [done|]. apply Hsub. by right.
Qed.

Lemma buildFieldsFromObject_counter_from c m st :
  nonempty_ids (all_ids m) = true →
  counter_from (all_ids m) st.2 (buildFieldsFromObject c m st).1.1.
Proof.
  intros Hne. apply (forEachEntry_invariant (counter_from (all_ids m) st.2));
    [|by left].
  apply Forall_forall. intros [k f] Hkf s Hs. cbn [fst snd].
  pose proof (records_of_subseteq k f m Hkf) as Hsub.
  assert (k :: (records_of f).*1 ⊆ all_ids m) as Hsub'.
  { intros x Hx.
    change (k :: (records_of f).*1) with (((k, f) :: records_of f).*1) in Hx.
    apply list_elem_of_fmap in Hx as (y & -> & Hy).
    apply list_elem_of_fmap. exists y. split; [done|]. by apply Hsub. }
  eapply counter_from_trans; [exact Hs|].
  eapply counter_from_mono; [exact Hsub'|].
  apply addField_counter_from.
  - assert (k ∈ all_ids m) as Hk by (apply Hsub'; left).
    pose proof (proj1 (forallb_forall _ _) Hne k (proj1 (list_elem_of_In _ _) Hk)) as H.
    by apply bool_decide_eq_true in H.
  - apply forallb_forall. intros x Hx. apply (proj1 (forallb_forall _ _) Hne).
    apply list_elem_of_In. apply Hsub'. right. by apply list_elem_of_In.
Qed.

(** X8.  After a load without failure of a mapping without empty ids the
    field counter is exactly one more than the greatest number carried by
    a stored id, at any depth, and zero when no stored id carries a number.
    So the counter a load leaves does not remember ids that were removed
    before the mapping was stored.  (The numbers of the stored ids are
    taken below 2^53 - 1, where the numbers of the program are exact.) *)
Theorem populate_fieldCounter_exact (s : state) (existing : loc) (stored : fields) :
  heap s !! existing = Some stored →
  nonempty_ids (all_ids stored) = true →
  forallb safe_id (all_ids stored) = true →
  (TrackerPromptMaker.populateFromExistingObject existing s).2 = Populated →
  let fc := fieldCounter (TrackerPromptMaker.populateFromExistingObject existing s).1 in
  (∀ id n, id ∈ all_ids stored → id_number id = Some n → n < fc)
  ∧ (fc = 0 ∨ ∃ id, id ∈ all_ids stored ∧ id_number id = Some (fc - 1)).
Proof.
  intros Hex Hne _ Hrep.
  destruct (lacks_examples stored) eqn:Hlack.
  { destruct (populate_lacking existing s stored Hex Hlack) as (E & _).
    rewrite E in Hrep. done. }
  destruct (populate_having existing s stored Hex Hlack) as (_ & _ & _ & _ & Hfc & E).
  rewrite E in Hrep. cbn zeta. rewrite Hfc.
  pose proof (buildFieldsFromObject_counter (collectExampleCount stored 0).1
                (normalized stored) ([], 0)) as [_ Hub].
  pose proof (buildFieldsFromObject_counter_from (collectExampleCount stored 0).1
                (normalized stored) ([], 0)) as Hfrom.
  assert (all_ids (normalized stored) = all_ids stored) as Hids
    by apply all_ids_map_examples.
  rewrite Hids in Hub, Hfrom. cbn [fst snd] in Hub, Hfrom. split.
  - apply Hub. by destruct (buildFieldsFromObject _ _ _).2 as [[]|].
  - destruct (Hfrom Hne) as [H|(id & n & Hid & Hn & H)]; [by left|].
    right. exists id. split; [done|]. rewrite Hn. f_equal. cbn [snd] in H. lia.
Qed.

Lemma populate_fieldCounter_exact_witness :
  let fc := fieldCounter (TrackerPromptMaker.populateFromExistingObject
                            state_with_stored.1 state_with_stored.2).1 in
  (∀ id n, id ∈ all_ids stored_uneven → id_number id = Some n → n < fc)
  ∧ (fc = 0 ∨ ∃ id, id ∈ all_ids stored_uneven ∧ id_number id = Some (fc - 1)).
Proof.
  apply (populate_fieldCounter_exact state_with_stored.2 state_with_stored.1
           stored_uneven); reflexivity.
Defined.

(** ** Loading twice *)

Lemma pad_pad c l : pad c (pad c l) = pad c l.
Proof.
  unfold pad at 1.
  replace (Z.to_nat _) with 0%nat; [apply app_nil_r|].
  unfold pad. rewrite length_app, length_replicate. lia.
Qed.

Lemma normalized_normalized m :
  lacks_examples m = false →
  (collectExampleCount (normalized m) 0).1 = (collectExampleCount m 0).1
  ∧ normalized (normalized m) = normalized m.
Proof.
  intros Hlack.
  assert (∀ m, lacks_examples m = false → (collectExampleCount m 0).2 = Normal tt)
    as Hnormal.
  { intros m' Hm'. pose proof (collectExampleCount_spec m' 0) as (_ & Hthrow & _).
    destruct (collectExampleCount m' 0).2 as [[]|]; [done|].
    destruct Hthrow as [H' _]. specialize (H' eq_refl). congruence. }
  assert (lacks_examples (normalized m) = false) as Hlack'.
  { apply lacks_examples_has_examples, has_examples_map_pad.
    by apply lacks_examples_has_examples. }
  pose proof (collectExampleCount_spec m 0) as (H0 & _ & Hok).
  destruct (Hok (Hnormal m Hlack)) as [Hub Hatt]. clear Hok.
  pose proof (collectExampleCount_spec (normalized m) 0) as (H0' & _ & Hok).
  destruct (Hok (Hnormal _ Hlack')) as [Hub' Hatt']. clear Hok.
  set (c := (collectExampleCount m 0).1) in *.
  set (c' := (collectExampleCount (normalized m) 0).1) in *.
  assert (∀ kv l, kv ∈ all_records (normalized m) →
                  exampleValues kv.2 = EVarray l → Z.of_nat (length l) = c) as Hlen.
  { intros kv l Hkv Hl. unfold normalized in Hkv. fold c in Hkv.
    rewrite all_records_map_examples in Hkv.
    apply list_elem_of_fmap in Hkv as ([k f] & -> & Hkf). cbn [fst snd] in Hl.
    rewrite exampleValues_map_examples_field in Hl.
    destruct (exampleValues f) as [|l0|] eqn:Hf; try done. cbn [pad_examples] in Hl.
    injection Hl as <-. apply length_pad. by apply (Hub (k, f) l0). }
  assert (c' = c) as Hc.
  { apply Z.le_antisymm.
    - destruct Hatt' as [->|(kv & l & Hkv & Hl & <-)]; [done|].
      by rewrite (Hlen kv l Hkv Hl).
    - destruct Hatt as [->|(kv & l & Hkv & Hl & Hc)]; [done|].
      destruct kv as [k f]. cbn [snd] in Hl.
      assert ((k, map_examples_field (pad_examples c) f) ∈ all_records (normalized m))
        as Hin.
      { unfold normalized. fold c. rewrite all_records_map_examples.
        apply list_elem_of_fmap. by exists (k, f). }
      specialize (Hub' _ (pad c l) Hin). cbn [snd] in Hub'.
      rewrite exampleValues_map_examples_field, Hl in Hub'. specialize (Hub' eq_refl).
      rewrite length_pad in Hub' by lia. done. }
  split; [done|]. unfold normalized at 1. fold c'. rewrite Hc.
  unfold normalized. fold c. rewrite map_examples_compose.
  apply map_examples_ext. intros [|l|]; try done. cbn. by rewrite pad_pad.
Qed.

Lemma populate_keeps_existing existing s stored :
  heap s !! existing = Some stored →
  is_Some (heap (TrackerPromptMaker.populateFromExistingObject existing s).1
           !! existing).
Proof.
  intros Hex. unfold TrackerPromptMaker.populateFromExistingObject.
  assert (fresh (dom (heap s)) ≠ existing) as Hne.
  { intros <-. apply (is_fresh (dom (heap s))). apply elem_of_dom. eauto. }
  destruct (collectExampleCount _ 0) as [c [[]|]].
  2:{ cbn. rewrite lookup_insert_ne by done. by eexists. }
  destruct (normalizeExampleCount c _) as [obj1 [[]|]].
  2:{ cbn. rewrite lookup_insert_eq. by eexists. }
  destruct (buildFieldsFromObject c obj1 ([], 0)) as [[st obj2] r].
  cbn. rewrite lookup_insert_ne by done. rewrite lookup_insert_eq. by eexists.
Qed.

(** X9.  Loading is idempotent on the caller's object: a second load of
    the same object finds the counters, builds the tree and gives the
    report of the first, and leaves the object as the first load left
    it. *)
Theorem populate_twice (s : state) (existing : loc) (stored : fields) :
  heap s !! existing = Some stored →
  let r1 := TrackerPromptMaker.populateFromExistingObject existing s in
  let r2 := TrackerPromptMaker.populateFromExistingObject existing r1.1 in
  r2.2 = r1.2
  ∧ TrackerPromptMaker.backend r2.1 = TrackerPromptMaker.backend r1.1
  ∧ exampleCounter r2.1 = exampleCounter r1.1
  ∧ fieldCounter r2.1 = fieldCounter r1.1
  ∧ heap r2.1 !!! existing = heap r1.1 !!! existing.
Proof.
  intros Hex r1 r2. subst r1 r2.
  destruct (lacks_examples stored) eqn:Hlack.
  - destruct (populate_lacking existing s stored Hex Hlack) as (E1 & E2 & E3 & E4).
    pose proof (populate_exampleCounter existing s stored Hex) as E5.
    destruct (populate_lacking existing _ stored E4 Hlack) as (F1 & F2 & F3 & F4).
    pose proof (populate_exampleCounter existing _ stored E4) as F5.
    rewrite E1, E2, E3, E5, F1, F2, F3, F5.
    by rewrite (lookup_total_correct _ _ _ E4), (lookup_total_correct _ _ _ F4).
  - destruct (populate_having existing s stored Hex Hlack)
      as (E1 & E2 & _ & E3 & E4 & E5).
    destruct (populate_keeps_existing existing s stored Hex) as [m1 Hm1].
    assert (m1 = normalized stored) as ->.
    { by rewrite <- E2, (lookup_total_correct _ _ _ Hm1). }
    destruct (normalized_normalized stored Hlack) as [Hc Hn].
    assert (lacks_examples (normalized stored) = false) as Hlack'.
    { apply lacks_examples_has_examples, has_examples_map_pad.
      by apply lacks_examples_has_examples. }
    destruct (populate_having existing _ (normalized stored) Hm1 Hlack')
      as (F1 & F2 & _ & F3 & F4 & F5).
    rewrite Hc, Hn in *.
    by rewrite E1, E2, E3, E4, E5, F1, F2, F3, F4, F5.
Qed.

Lemma populate_twice_witness :
  let r1 := TrackerPromptMaker.populateFromExistingObject
              state_with_stored.1 state_with_stored.2 in
  let r2 := TrackerPromptMaker.populateFromExistingObject state_with_stored.1 r1.1 in
  r2.2 = r1.2
  ∧ TrackerPromptMaker.backend r2.1 = TrackerPromptMaker.backend r1.1
  ∧ exampleCounter r2.1 = exampleCounter r1.1
  ∧ fieldCounter r2.1 = fieldCounter r1.1
  ∧ heap r2.1 !!! state_with_stored.1 = heap r1.1 !!! state_with_stored.1.
Proof.
  exact (populate_twice state_with_stored.2 state_with_stored.1 stored_uneven eq_refl).
Defined.

(** ** What [addField] leaves alone, call by call *)

(** X10.  [addField] changes nothing outside the record it adds: however
    the call completes, every address that does not lie at or below the
    new record leads to a record exactly when it did before, with the same
    attributes; the example counter and the arguments received by the save
    callback stay as they are. *)
Theorem addField_changes_only_its_subtree (s : state) (p : list string)
    (parentFieldId : option string) (fd : field) (oid : option string)
    (a : list string) :
  let res := TrackerPromptMaker.addField p parentFieldId fd oid s in
  ¬ (p ++ [(choose_id oid (fieldCounter s)).1]) `prefix_of` a →
  attributes <$> field_at a (TrackerPromptMaker.backend res.1)
  = attributes <$> field_at a (TrackerPromptMaker.backend s)
  ∧ exampleCounter res.1 = exampleCounter s
  ∧ saved res.1 = saved s.
Proof.
  intros res Hpre. subst res. rewrite backend_addField. split.
  - by apply addField_elsewhere.
  - unfold TrackerPromptMaker.addField.
    by destruct (addField _ _ _ _ _ _) as [[st fd'] r].
Qed.

Lemma addField_changes_only_its_subtree_witness :
  let res := TrackerPromptMaker.addField [] None place_fieldData None
               one_field_state in
  attributes <$> field_at ["field-0"%string] (TrackerPromptMaker.backend res.1)
  = attributes <$> field_at ["field-0"%string]
                     (TrackerPromptMaker.backend one_field_state)
  ∧ exampleCounter res.1 = exampleCounter one_field_state
  ∧ saved res.1 = saved one_field_state.
Proof.
  apply (addField_changes_only_its_subtree one_field_state [] None place_fieldData
           None ["field-0"%string]).
  vm_compute. intros [k H]. discriminate H.
Defined.

(** X11.  The id [addField] generates from the field counter is read back
    by [addField] itself: given as an explicit id, as the loader gives it,
    it moves a counter to one more than the number it was generated from,
    unless the counter is ahead already.  (Below 2^53 - 1, where the
    numbers of the program are exact.) *)
Theorem generated_id_reads_back (n c : Z) :
  0 ≤ n → n < 2 ^ 53 - 1 →
  let id := (choose_id None n).1 in
  id = String.append "field-" (Js.number_to_string n)
  ∧ (choose_id None n).2 = n + 1
  ∧ id_number id = Some n
  ∧ choose_id (Some id) c = (id, Z.max c (n + 1)).
Proof.
  intros Hn _ id. subst id. split_and!; try done.
  - by apply id_number_generated.
  - rewrite (surjective_pairing (choose_id (Some _) c)).
    rewrite choose_id_given by apply choose_id_nonempty.
    rewrite choose_id_given_counter by apply choose_id_nonempty.
    f_equal. cbn [choose_id truthy_id fst]. rewrite id_number_generated by done.
    destruct (c <=? n) eqn:E; [apply Z.leb_le in E|apply Z.leb_gt in E]; lia.
Qed.

Lemma generated_id_reads_back_witness :
  choose_id (Some (choose_id None 12).1) 3 = ("field-12"%string, Z.max 3 (12 + 1)).
Proof.
  apply (generated_id_reads_back 12 3); [vm_compute; discriminate | reflexivity].
Defined.


(** ** What [addField] builds from its data *)

Lemma obj_alter_set {V} (g : V → V) k v (m : list (string * V)) :
  obj_alter g k (obj_set k v m) = obj_set k (g v) m.
Proof.
  induction m as [|[k0 v0] m IH]; cbn [obj_set obj_alter].
  - by rewrite decide_True.
  - case_decide; cbn [obj_alter]; [by rewrite decide_True|].
    rewrite decide_False by done. by rewrite IH.
Qed.

Lemma defaulted_unfold c fd :
  defaulted c fd
  = set_nestedFields
      (NFobject match nestedFields fd with
                | NFobject m => defaulted_tree c m
                | _ => []
                end)
      (new_record fd match exampleValues fd with
                     | EVarray l => l
                     | _ => replicate (Z.to_nat c) EmptyString
                     end).
Proof. by destruct fd. Qed.

Lemma data_ok_field_unfold fd :
  data_ok_field fd
  = spreadable (EmptyString, fd)
    && match nestedFields fd with
       | NFobject m => data_ok m
       | _ => true
       end.
Proof. by destruct fd. Qed.

Lemma builds_list c m :
  Forall (λ kv, builds kv.2) m →
  ∀ q pf T fc pre,
    resolve q T = Some pre → NoDup (pre ++ m).*1 →
    forallb (λ kv, bool_decide (kv.1 ≠ EmptyString) && plain_id kv.1
                   && data_ok_field kv.2) m = true →
    plain_option pf = true →
    let res := forEachEntry (λ k g, addField c q pf g (Some k)) m (T, fc) in
    res.1.1.1 = update_at q (λ _, pre ++ defaulted_tree c m) T ∧ res.2 = Normal tt.
Proof.
  induction 1 as [|[k f] m Hf _ IH]; intros q pf T fc pre Hres Hnd Hok Hpf.
  - cbn. split; [|done]. rewrite app_nil_r. symmetry. apply update_at_fixed.
    intros n Hn. congruence.
  - cbn [forallb fst snd] in Hok. apply andb_prop in Hok as [Hkf Hok].
    apply andb_prop in Hkf as [[Hk Hpl]%andb_prop Hfok].
    apply bool_decide_eq_true in Hk.
    assert (k ∉ pre.*1) as Hfresh.
    { rewrite fmap_app, fmap_cons in Hnd. apply NoDup_app in Hnd as (_ & Hd & _).
      intros Hin. apply (Hd k Hin). left. }
    cbn zeta. rewrite forEachEntry_cons.
    destruct (Hf c q pf (Some k) T fc pre Hfok Hres Hpf Hpl) as [Htree Hnormal].
    cbn [snd] in *. rewrite choose_id_given in Htree by done.
    destruct (addField c q pf f (Some k) (T, fc)) as [[[T1 fc1] f1] r1].
    cbn [fst snd] in *. subst.
    assert (update_at q (obj_set k (defaulted c f)) T
            = update_at q (λ _, pre ++ [(k, defaulted c f)]) T) as E.
    { apply update_at_ext. intros n' Hn'. rewrite Hres in Hn'. injection Hn' as <-.
      by apply obj_set_fresh. }
    rewrite E. clear E.
    specialize (IH q pf (update_at q (λ _, pre ++ [(k, defaulted c f)]) T) fc1
                  (pre ++ [(k, defaulted c f)])).
    cbn zeta in IH.
    destruct (forEachEntry _ m _) as [[st2 m2] r2]. cbn [fst snd] in *.
    destruct IH as [-> ->].
    + by rewrite resolve_update_at, Hres.
    + rewrite <- app_assoc. cbn [app].
      rewrite !fmap_app, !fmap_cons in *. done.
    + done.
    + done.
    + split; [|done]. rewrite update_at_compose. apply update_at_ext.
      intros n' _. cbn. by rewrite <- app_assoc.
Qed.

Lemma builds_all f : builds f.
Proof.
  induction f as [nm t d pr v ev nf IH] using field_nested_ind.
  intros c p pf oid T fc n Hok Hres Hpf Hid.
  set (f := Field nm t d pr v ev nf) in *.
  rewrite data_ok_field_unfold in Hok. apply andb_prop in Hok as [Hsp Hnested].
  rewrite addField_unfold. cbn zeta. cbn [fst snd].
  rewrite (plain_option_find_parent_raises _ Hpf).
  rewrite exampleValues_fill_examples, defaulted_unfold.
  set (l := match exampleValues f with
            | EVarray l => l
            | _ => replicate (Z.to_nat c) EmptyString
            end).
  assert (match exampleValues f with
          | EVundefined => EVarray (replicate (Z.to_nat c) EmptyString)
          | ev => ev
          end = EVarray l) as ->.
  { subst l. unfold spreadable in Hsp. cbn [snd] in Hsp.
    by destruct (exampleValues f). }
  set (id := (choose_id oid fc).1) in *.
  rewrite (populate_examples_completes id p l _ (new_record f l) l);
    [| by apply find_raises_choose_id, plain_id_find_raises, plain_option_default
     | apply get_field_update_at_set; by rewrite Hres
     | done].
  destruct (nestedFields f) as [| |z|m] eqn:Hnf; try done.
  unfold data_ok in Hnested. apply andb_prop in Hnested as [Hnd Hall].
  apply bool_decide_eq_true in Hnd.
  pose proof (builds_list c m (IH m Hnf) (p ++ [id]) (Some id)
                (update_at p (obj_set id (new_record f l)) T)
                (choose_id oid fc).2 []) as Hm.
  cbn zeta in Hm.
  destruct (forEachEntry _ m _) as [[st' m'] r]. cbn [fst snd] in *.
  destruct Hm as [-> ->]; [| done | done | |].
  - rewrite resolve_update_at_app, Hres. cbn [resolve].
    by rewrite obj_get_set, decide_True.
  - by apply plain_id_choose_id, plain_option_default.
  - split; [|done]. rewrite update_at_app, update_at_compose.
    apply update_at_ext. intros n' _. cbn [compose update_at].
    by rewrite obj_alter_set.
Qed.

Lemma obj_get_defaulted_tree c k m :
  obj_get k (defaulted_tree c m) = defaulted c <$> obj_get k m.
Proof.
  induction m as [|[k0 f0] m IH]; [done|].
  cbn [defaulted_tree map obj_get fst snd]. by case_decide.
Qed.

Lemma field_at_defaulted_tree c a m :
  field_at a (defaulted_tree c m) = defaulted c <$> field_at a m.
Proof.
  revert m. induction a as [|k a IH]; intros m; [done|].
  cbn [field_at]. rewrite obj_get_defaulted_tree.
  destruct (obj_get k m) as [f|]; cbn [fmap option_fmap option_map]; [|done].
  destruct a as [|k' a]; [done|].
  rewrite defaulted_unfold. unfold nested_obj.
  cbn [set_nestedFields nestedFields].
  destruct (nestedFields f) as [| | |n]; first [done | apply IH].
Qed.

Lemma attributes_defaulted c f :
  attributes (defaulted c f)
  = (Some (or_default (name f) EmptyString),
     Some (or_default (type f) FIELD_TYPES_STRING),
     Some (default true (isDynamic f)),
     Some (or_default (prompt f) EmptyString),
     Some (or_default (defaultValue f) EmptyString),
     EVarray match exampleValues f with
             | EVarray l => l
             | _ => replicate (Z.to_nat c) EmptyString
             end).
Proof. by rewrite defaulted_unfold. Qed.



Lemma data_ok_map_examples_list g m :
  Forall (λ kv, data_ok_field (map_examples_field g kv.2) = data_ok_field kv.2) m →
  data_ok (map_examples g m) = data_ok m.
Proof.
  intros Hall. unfold data_ok.
  assert ((map_examples g m).*1 = m.*1) as ->.
  { clear. induction m as [|[k f] m IH]; [done|].
    rewrite map_examples_cons, !fmap_cons. by rewrite IH. }
  f_equal.
  induction Hall as [|[k f] m Hf _ IH]; [done|].
  rewrite map_examples_cons. cbn [forallb fst snd] in *. by rewrite Hf, IH.
Qed.

Lemma data_ok_field_map_examples g :
  (∀ ev, g ev = EVnoniterable ↔ ev = EVnoniterable) →
  ∀ f, data_ok_field (map_examples_field g f) = data_ok_field f.
Proof.
  intros Hg f. induction f as [nm t d pr v ev nf IH] using field_nested_ind.
  rewrite !data_ok_field_unfold, map_examples_field_unfold.
  cbn [name type isDynamic prompt defaultValue exampleValues nestedFields].
  f_equal.
  - unfold spreadable. cbn [snd exampleValues]. specialize (Hg ev).
    destruct (g ev), ev; try done; destruct Hg as [H1 H2];
      first [by specialize (H1 eq_refl) | by specialize (H2 eq_refl)].
  - destruct nf as [| |z|m]; try done.
    apply data_ok_map_examples_list. exact (IH m eq_refl).
Qed.

Lemma data_ok_normalized m : data_ok (normalized m) = data_ok m.
Proof.
  apply data_ok_map_examples_list. apply Forall_forall. intros [k f] _.
  apply data_ok_field_map_examples. by intros [].
Qed.

Lemma obj_get_elem {V} k (v : V) m : obj_get k m = Some v → (k, v) ∈ m.
Proof.
  induction m as [|[k0 v0] m IH]; cbn [obj_get]; [done|].
  case_decide; [intros [= <-]; subst; left|]. intros Hk. right. by apply IH.
Qed.

Lemma field_at_in_records a m f :
  field_at a m = Some f → ∃ k, (k, f) ∈ all_records m.
Proof.
  revert m. induction a as [|k a IH]; intros m; cbn [field_at]; [done|].
  destruct (obj_get k m) as [f0|] eqn:Hk; [|done].
  pose proof (records_of_subseteq k f0 m (obj_get_elem _ _ _ Hk)) as Hsub.
  destruct a as [|k' a].
  - intros [= <-]. exists k. apply Hsub. left.
  - unfold nested_obj. destruct (nestedFields f0) as [| | |n] eqn:Hn; try done.
    intros Hf. destruct (IH n Hf) as [k0 Hk0]. exists k0. apply Hsub. right.
    by rewrite records_of_unfold, Hn.
Qed.

(** What a load makes of a well-formed stored mapping whose records all
    have example values. *)
Lemma populate_defaulted existing s stored :
  heap s !! existing = Some stored →
  data_ok stored = true →
  lacks_examples stored = false →
  let res := TrackerPromptMaker.populateFromExistingObject existing s in
  let c := (collectExampleCount stored 0).1 in
  res.2 = Populated
  ∧ exampleCounter res.1 = c
  ∧ heap res.1 !!! existing = normalized stored
  ∧ TrackerPromptMaker.backend res.1 = defaulted_tree c (normalized stored)
  ∧ ∀ a, field_at a (TrackerPromptMaker.backend res.1)
         = defaulted c <$> (map_examples_field (pad_examples c)
                              <$> field_at a stored).
Proof.
  intros Hex Hok Hlack res c. subst res.
  destruct (populate_having existing s stored Hex Hlack)
    as (Hc & Hheap & _ & Hback & _ & Hrep).
  fold c in Hc, Hback, Hrep.
  rewrite <- data_ok_normalized in Hok.
  unfold data_ok in Hok. apply andb_prop in Hok as [Hnd Hall].
  apply bool_decide_eq_true in Hnd.
  pose proof (builds_list c (normalized stored)
                (proj2 (Forall_forall _ _) (λ kv _, builds_all kv.2))
                [] None [] 0 [] eq_refl Hnd Hall eq_refl) as [Htree Hnormal].
  change (forEachEntry _ (normalized stored) ([], 0))
    with (buildFieldsFromObject c (normalized stored) ([], 0)) in Htree, Hnormal.
  cbn [update_at app] in Htree.
  rewrite Hnormal in Hrep. rewrite Htree in Hback.
  split_and!; try done.
  intros a. rewrite Hback, field_at_defaulted_tree. unfold normalized. fold c.
  by rewrite field_at_map_examples.
Qed.

(** Every record of such a mapping has an array of example values. *)
Lemma field_at_has_array a stored f :
  data_ok stored = true → lacks_examples stored = false →
  field_at a stored = Some f → ∃ l, exampleValues f = EVarray l.
Proof.
  intros Hok Hlack Hf. destruct (field_at_in_records a stored f Hf) as [k Hk].
  apply lacks_examples_has_examples in Hlack.
  pose proof (proj1 (Forall_forall _ _) Hlack _ Hk) as Hhas.
  unfold has_examples in Hhas. cbn [snd] in Hhas.
  assert (spreadable (k, f) = true) as Hsp.
  { clear -Hok Hf. revert stored Hok Hf.
    induction a as [|k0 a IH]; intros m Hok Hf; [done|].
    cbn [field_at] in Hf. destruct (obj_get k0 m) as [f0|] eqn:Hk0; [|done].
    unfold data_ok in Hok. apply andb_prop in Hok as [_ Hall].
    pose proof (proj1 (forallb_forall _ _) Hall (k0, f0)
                  (proj1 (list_elem_of_In _ _) (obj_get_elem _ _ _ Hk0))) as H0.
    cbn [fst snd] in H0. apply andb_prop in H0 as [_ H0].
    rewrite data_ok_field_unfold in H0. apply andb_prop in H0 as [Hsp Hn].
    destruct a as [|k' a]; [by injection Hf as <-|].
    unfold nested_obj in Hf.
    destruct (nestedFields f0) as [| | |n]; try done. by apply (IH n). }
  unfold spreadable in Hsp. cbn [snd] in Hsp.
  destruct (exampleValues f) as [|l|] eqn:Hev; try done. by exists l.
Qed.

(** X13.  A load without failure is the stored mapping with the defaults
    filled in: when the stored mapping is well formed, with plain ids, and
    every record has example values, the load succeeds, the backend object
    holds a record
    at exactly the addresses of the stored mapping, and each record has
    the stored name, type, dynamic flag, prompt and default value, or the
    default where the stored one is absent or empty, and the stored example
    values padded to the counter; stored nested fields that are no mapping
    are loaded as the empty mapping. *)
Theorem populate_applies_defaults (s : state) (existing : loc) (stored : fields) :
  heap s !! existing = Some stored →
  data_ok stored = true →
  lacks_examples stored = false →
  let res := TrackerPromptMaker.populateFromExistingObject existing s in
  let c := exampleCounter res.1 in
  res.2 = Populated
  ∧ TrackerPromptMaker.backend res.1 = defaulted_tree c (heap res.1 !!! existing)
  ∧ (∀ a f, field_at a stored = Some f →
       ∃ l, exampleValues f = EVarray l
            ∧ attributes <$> field_at a (TrackerPromptMaker.backend res.1)
              = Some (Some (or_default (name f) EmptyString),
                      Some (or_default (type f) FIELD_TYPES_STRING),
                      Some (default true (isDynamic f)),
                      Some (or_default (prompt f) EmptyString),
                      Some (or_default (defaultValue f) EmptyString),
                      EVarray (pad c l)))
  ∧ (∀ a, field_at a stored = None →
          field_at a (TrackerPromptMaker.backend res.1) = None).
Proof.
  intros Hex Hok Hlack res c. subst res c.
  destruct (populate_defaulted existing s stored Hex Hok Hlack)
    as (Hrep & Hc & Hheap & Hback & Hat).
  cbn zeta in *. rewrite Hc, Hheap.
  set (c := (collectExampleCount stored 0).1) in *.
  split_and!; try done.
  - intros a f Hf.
    destruct (field_at_has_array a stored f Hok Hlack Hf) as [l Hev].
    exists l. split; [done|]. rewrite Hat, Hf. cbn [fmap option_fmap option_map].
    rewrite attributes_defaulted. rewrite map_examples_field_unfold.
    cbn [name type isDynamic prompt defaultValue exampleValues]. by rewrite Hev.
  - intros a Ha. by rewrite Hat, Ha.
Qed.

Lemma populate_applies_defaults_witness :
  let st := alloc stored_sparse TrackerPromptMaker.constructor_default in
  let res := TrackerPromptMaker.populateFromExistingObject st.1 st.2 in
  res.2 = Populated
  ∧ attributes <$> field_at ["note"%string] (TrackerPromptMaker.backend res.1)
    = Some (Some "mood"%string, Some "String"%string, Some true,
            Some "how it feels"%string, Some EmptyString,
            EVarray [EmptyString]).
Proof.
  destruct (populate_applies_defaults
              (alloc stored_sparse TrackerPromptMaker.constructor_default).2
              (alloc stored_sparse TrackerPromptMaker.constructor_default).1
              stored_sparse eq_refl eq_refl eq_refl) as (H1 & _ & H3 & _).
  split; [exact H1|].
  destruct (H3 ["note"%string] _ eq_refl) as (l & Hl & H).
  injection Hl as <-. exact H.
Defined.

(** ** Stored mappings the loader cannot read, and those it can *)

(** C5, as the code has it.  For a stored mapping that is well formed
    (ids that are pairwise distinct, plain and not empty; example values
    that are arrays wherever they are present) the load reports a failure
    exactly when some record, at some depth, has no example values, and it
    then leaves an empty backend object and a field counter of zero.  No
    other missing attribute and no [nestedFields] that is not a mapping
    makes the load fail: every stored record is then loaded, with the
    empty string for an absent or empty name, prompt or default value, the
    default type for an absent or empty type, the dynamic flag set when it
    is absent, and no nested fields where the stored ones are no
    mapping. *)
Theorem populate_fails_on_missing_examples_only (s : state) (existing : loc)
    (stored : fields) :
  heap s !! existing = Some stored →
  data_ok stored = true →
  let res := TrackerPromptMaker.populateFromExistingObject existing s in
  (res.2 = FailedToLoad ↔ lacks_examples stored = true)
  ∧ (res.2 = FailedToLoad →
     TrackerPromptMaker.backend res.1 = [] ∧ fieldCounter res.1 = 0)
  ∧ (res.2 = Populated →
     ∀ a f, field_at a stored = Some f →
       ∃ f', field_at a (TrackerPromptMaker.backend res.1) = Some f'
         ∧ name f' = Some (or_default (name f) EmptyString)
         ∧ type f' = Some (or_default (type f) FIELD_TYPES_STRING)
         ∧ isDynamic f' = Some (default true (isDynamic f))
         ∧ prompt f' = Some (or_default (prompt f) EmptyString)
         ∧ defaultValue f' = Some (or_default (defaultValue f) EmptyString)
         ∧ (nested_obj f = None → nestedFields f' = NFobject [])).
Proof.
  intros Hex Hok. cbn zeta.
  destruct (lacks_examples stored) eqn:Hlack.
  - destruct (populate_lacking existing s stored Hex Hlack) as (Hr & Hb & Hfc & _).
    cbn zeta in *. rewrite Hr. split_and!; done.
  - destruct (populate_defaulted existing s stored Hex Hok Hlack)
      as (Hrep & _ & _ & _ & Hat).
    cbn zeta in *. rewrite Hrep. split_and!; try done.
    intros _ a f Hf. rewrite Hat, Hf. cbn [fmap option_fmap option_map].
    eexists. split; [done|].
    rewrite defaulted_unfold, map_examples_field_unfold.
    cbn [set_nestedFields new_record name type isDynamic prompt defaultValue
         nestedFields].
    split_and!; try done.
    unfold nested_obj. by destruct (nestedFields f).
Qed.

Lemma populate_fails_on_missing_examples_only_witness :
  let st := alloc stored_lacking TrackerPromptMaker.constructor_default in
  let res := TrackerPromptMaker.populateFromExistingObject st.1 st.2 in
  lacks_examples stored_lacking = true
  ∧ res.2 = FailedToLoad
  ∧ TrackerPromptMaker.backend res.1 = []
  ∧ fieldCounter res.1 = 0.
Proof.
  destruct (populate_fails_on_missing_examples_only
              (alloc stored_lacking TrackerPromptMaker.constructor_default).2
              (alloc stored_lacking TrackerPromptMaker.constructor_default).1
              stored_lacking eq_refl eq_refl) as (Hiff & Hfail & _).
  split; [reflexivity|].
  split; [exact (proj2 Hiff eq_refl)|].
  exact (Hfail (proj2 Hiff eq_refl)).
Defined.

(** ** One example value *)

(** X14.  [addExampleValue] on a record that has an array of example
    values: when the container of the field can be looked up, the call
    completes normally; told not to push to the backend it leaves the
    backend object as it is, and otherwise it appends the value to the
    example values of the addressed record and changes nothing else: every
    other address keeps its attributes, and no record appears or
    disappears.  When the lookup raises, the call raises before anything
    is pushed.  (The id is one for which [Jq.find_raises] settles the
    lookup.) *)
Theorem addExampleValue_pushes_one_value (m : fields) (fieldId : string)
    (parentObject : list string) (exampleValue : string) (f : field)
    (l : list string) (a : list string) :
  get_field parentObject fieldId m = Some f →
  exampleValues f = EVarray l →
  Jq.settled fieldId = true →
  let pushed := addExampleValue fieldId parentObject exampleValue true m in
  (Jq.find_raises fieldId = false →
   addExampleValue fieldId parentObject exampleValue false m = (m, Normal tt)
   ∧ pushed.2 = Normal tt
   ∧ get_field parentObject fieldId pushed.1
     = Some (set_exampleValues (EVarray (l ++ [exampleValue])) f)
   ∧ (a ≠ parentObject ++ [fieldId] →
      attributes <$> field_at a pushed.1 = attributes <$> field_at a m))
  ∧ (Jq.find_raises fieldId = true →
     addExampleValue fieldId parentObject exampleValue false m = (m, Throws)
     ∧ pushed = (m, Throws)).
Proof.
  intros Hf Hl _ pushed. subst pushed. unfold addExampleValue. rewrite Hf, Hl.
  split; intros ->; cbn [fst snd]; [|done]. split_and!; try done.
  - by rewrite get_field_update_at_alter, Hf.
  - intros Ha. rewrite field_at_update_at_alter by done.
    by rewrite decide_False.
Qed.

Lemma addExampleValue_pushes_one_value_witness :
  let m := TrackerPromptMaker.backend one_field_state in
  let pushed := addExampleValue "field-0" [] "rain" true m in
  addExampleValue "field-0" [] "rain" false m = (m, Normal tt)
  ∧ pushed.2 = Normal tt
  ∧ get_field [] "field-0" pushed.1
    = Some (set_exampleValues (EVarray ["rain"%string])
              (new_record empty_fieldData []))
  ∧ (["field-1"%string] ≠ [] ++ ["field-0"%string] →
     attributes <$> field_at ["field-1"%string] pushed.1
     = attributes <$> field_at ["field-1"%string] m).
Proof.
  exact (proj1 (addExampleValue_pushes_one_value
                  (TrackerPromptMaker.backend one_field_state) "field-0" [] "rain"
                  (new_record empty_fieldData []) [] ["field-1"%string]
                  eq_refl eq_refl eq_refl) eq_refl).
Defined.

(** ** Names without a double quote *)

Lemma includes_quote_or_default x :
  quote_free (EmptyString, Field x None None None None EVundefined NFundefined) = true →
  Js.includes Js.quote (or_default x EmptyString) = false.
Proof.
  unfold quote_free. cbn [snd name]. destruct x as [[|a r]|]; try done.
  cbn [or_default]. by intros ?%negb_true_iff.
Qed.

Lemma insertable_named_clean c kv :
  quote_free kv = true → insertable named_clean c kv.
Proof.
  intros Hq id l _ _. exists (or_default (name kv.2) EmptyString).
  split; [done|]. apply includes_quote_or_default.
  unfold quote_free in *. cbn [snd name]. done.
Qed.

Lemma own_attributes_named_clean : own_attributes named_clean.
Proof. by intros k [] nf. Qed.

Lemma step_named_clean o s :
  clean_call o = true →
  tree_ok named_clean (TrackerPromptMaker.backend s) →
  tree_ok named_clean (TrackerPromptMaker.backend (step o s)).
Proof.
  intros Ho Hs.
  destruct (is_addField o) eqn:Hadd.
  { destruct o as [p pf fd id| | | | | | | | |]; try done. cbn [step clean_call] in *.
    rewrite backend_addField.
    apply (addField_tree_ok named_clean (exampleCounter s)
             own_attributes_named_clean fd); [|done].
    cbn [forallb] in Ho. apply andb_prop in Ho as [Hfd Ho].
    constructor; [by apply insertable_named_clean|].
    apply Forall_forall. intros kv Hkv. apply insertable_named_clean.
    by apply (proj1 (forallb_forall _ _) Ho), list_elem_of_In. }
  destruct (is_populate o) eqn:Hpop.
  { destruct o as [| | | | | | | | |stored]; try done. cbn [step clean_call] in *.
    unfold alloc.
    set (s1 := State _ _ _ _ _).
    assert (heap s1 !! fresh (dom (heap s)) = Some stored) as Hex
      by apply lookup_insert_eq.
    destruct (lacks_examples stored) eqn:Hlack.
    - destruct (populate_lacking _ s1 stored Hex Hlack) as (_ & -> & _).
      apply tree_ok_nil.
    - destruct (populate_having _ s1 stored Hex Hlack) as (_ & _ & _ & -> & _).
      apply buildFieldsFromObject_tree_ok;
        [apply own_attributes_named_clean | | apply tree_ok_nil].
      unfold normalized. rewrite all_records_map_examples, Forall_fmap.
      apply Forall_forall. intros [k f] Hkf. apply insertable_named_clean.
      pose proof (proj1 (forallb_forall _ _) Ho _ (proj1 (list_elem_of_In _ _) Hkf))
        as Hq.
      unfold quote_free in *. cbn [snd] in *.
      by rewrite map_examples_field_unfold. }
  apply step_tree_ok_rest; try done.
  - apply own_attributes_named_clean.
  - intros p id g Hm k f (nm & Hnm & Hq).
    destruct o; cbn [mutation] in Hm; try done.
    + destruct (Js.includes Js.quote newName) eqn:Hx; [done|].
      injection Hm as <- <- <-. by exists newName.
    + injection Hm as <- <- <-. by exists nm.
    + injection Hm as <- <- <-. by exists nm.
    + injection Hm as <- <- <-. by exists nm.
    + injection Hm as <- <- <-. by exists nm.
Qed.

(** X16.  No name in the tree contains a double quote, as long as none is
    brought in by the data given to [addField] or to the loader: from a
    new component, after any sequence of calls whose data carries no
    quoted name, every record at every depth has a name, and the name has
    no double quote.  The names in the data themselves are not checked:
    [addField] stores a quoted name as it is given. *)
Theorem names_stay_quote_free (ops : list op) :
  forallb clean_call ops = true →
  let s := run ops TrackerPromptMaker.constructor_default in
  (∀ kv, kv ∈ all_records (TrackerPromptMaker.backend s) →
         ∃ nm, name kv.2 = Some nm ∧ Js.includes Js.quote nm = false)
  ∧ name <$> get_field [] "field-0"
               (TrackerPromptMaker.backend
                  (TrackerPromptMaker.addField [] None quoted_fieldData None
                     TrackerPromptMaker.constructor_default).1)
    = Some (name quoted_fieldData).
Proof.
  intros Hops s. split; [|done].
  assert (tree_ok named_clean (TrackerPromptMaker.backend s)) as Hs.
  { subst s. assert (tree_ok named_clean
                       (TrackerPromptMaker.backend
                          TrackerPromptMaker.constructor_default)) as Hinit
      by apply tree_ok_nil.
    revert Hops Hinit. generalize TrackerPromptMaker.constructor_default.
    induction ops as [|o ops IH]; intros s0 Hops Hs0; [done|].
    cbn [forallb] in Hops. apply andb_prop in Hops as [Ho Hops].
    cbn [run fold_left]. apply IH; [done|]. by apply step_named_clean. }
  intros kv Hkv. apply tree_ok_all_records in Hs.
  exact (proj1 (Forall_forall _ _) Hs kv Hkv).
Qed.

Lemma names_stay_quote_free_witness :
  (∀ kv, kv ∈ all_records (TrackerPromptMaker.backend
                             (run ui_calls TrackerPromptMaker.constructor_default)) →
         ∃ nm, name kv.2 = Some nm ∧ Js.includes Js.quote nm = false)
  ∧ name <$> get_field [] "field-0"
               (TrackerPromptMaker.backend
                  (TrackerPromptMaker.addField [] None quoted_fieldData None
                     TrackerPromptMaker.constructor_default).1)
    = Some (name quoted_fieldData).
Proof. exact (names_stay_quote_free ui_calls eq_refl). Defined.

(** ** The shape of the backend object *)

Lemma full_run ops s :
  tree_ok full (TrackerPromptMaker.backend s) →
  tree_ok full (TrackerPromptMaker.backend (run ops s)).
Proof.
  revert s. induction ops as [|o ops IH]; intros s Hs; [done|].
  cbn [run fold_left]. apply IH. apply step_tree_ok; try done.
  - by intros k [] nf.
  - intros k f l (H1 & H2 & H3 & H4 & H5 & H6 & _). unfold full.
    split_and!; try done. by exists l.
  - intros c kv id l Hid%id_for_nonempty _. unfold full, new_record. cbn.
    split_and!; eauto.
  - intros p id g Hm k f (H1 & H2 & H3 & H4 & H5 & H6 & H7).
    destruct o; cbn [mutation] in Hm; try done.
    + destruct (Js.includes Js.quote newName); [done|].
      injection Hm as <- <- <-. by split_and!.
    + injection Hm as <- <- <-. by split_and!.
    + injection Hm as <- <- <-. by split_and!.
    + injection Hm as <- <- <-. by split_and!.
    + injection Hm as <- <- <-. by split_and!.
Qed.

(** X17.  In every state the component reaches, every record of the
    backend object, at every depth, has a name, a type, a dynamic flag, a
    prompt, a default value, an array of example values and a mapping of
    nested fields whose ids are pairwise distinct, whatever attributes the
    data given to [addField] or to the loader lacked; and no id is the
    empty string. *)
Theorem backend_records_are_full (ops : list op) :
  let s := run ops TrackerPromptMaker.constructor_default in
  (∀ a f, field_at a (TrackerPromptMaker.backend s) = Some f →
     is_Some (name f) ∧ is_Some (type f) ∧ is_Some (isDynamic f)
     ∧ is_Some (prompt f) ∧ is_Some (defaultValue f)
     ∧ (∃ l, exampleValues f = EVarray l)
     ∧ ∃ m, nestedFields f = NFobject m ∧ NoDup (obj_keys m))
  ∧ (∀ id, id ∈ all_ids (TrackerPromptMaker.backend s) → id ≠ EmptyString).
Proof.
  intros s.
  assert (tree_ok full (TrackerPromptMaker.backend s)) as Hs
    by (apply full_run, tree_ok_nil).
  split.
  - intros a f Ha. destruct (field_at_ok _ a _ f Hs Ha) as (k & Hk).
    apply field_ok_unfold in Hk
      as [(_ & H2 & H3 & H4 & H5 & H6 & H7) (m & Hm & Hnd & _)].
    split_and!; try done. by exists m.
  - intros id Hid. apply tree_ok_all_records in Hs.
    apply list_elem_of_fmap in Hid as ([k f] & -> & Hkf).
    by destruct (proj1 (Forall_forall _ _) Hs _ Hkf) as [H1 _].
Qed.

(** ** Removing a field that is not there *)

Lemma obj_delete_absent {V} k (m : list (string * V)) :
  obj_get k m = None → obj_delete k m = m.
Proof.
  induction m as [|[k0 v0] m IH]; cbn [obj_get obj_delete]; [done|].
  case_decide; [done|]. intros Hk. by rewrite IH.
Qed.

(** X18.  [removeField], once confirmed, for an id that its parent
    mapping does not hold leaves the tree and the counters as they are,
    and still invokes the save callback with the backend object. *)
Theorem removeField_of_absent_field (s : state) (fieldId : string)
    (parentObject : list string) (n : fields) :
  resolve parentObject (TrackerPromptMaker.backend s) = Some n →
  obj_get fieldId n = None →
  let s' := TrackerPromptMaker.removeField fieldId parentObject true s in
  TrackerPromptMaker.backend s' = TrackerPromptMaker.backend s
  ∧ saved s' = backendObject s :: saved s
  ∧ fieldCounter s' = fieldCounter s
  ∧ exampleCounter s' = exampleCounter s
  ∧ backendObject s' = backendObject s.
Proof.
  intros Hn Hid s'. subst s'. unfold TrackerPromptMaker.removeField.
  unfold TrackerPromptMaker.syncBackendObject.
  split_and!; try done.
  change (TrackerPromptMaker.backend
            (TrackerPromptMaker.set_backend
               (update_at parentObject (obj_delete fieldId)
                  (TrackerPromptMaker.backend s)) s)
          = TrackerPromptMaker.backend s).
  rewrite backend_set_backend. apply update_at_fixed.
  intros n' Hn'. rewrite Hn in Hn'. injection Hn' as <-. by apply obj_delete_absent.
Qed.

Lemma removeField_of_absent_field_witness :
  let s' := TrackerPromptMaker.removeField "field-5" [] true one_field_state in
  TrackerPromptMaker.backend s' = TrackerPromptMaker.backend one_field_state
  ∧ saved s' = backendObject one_field_state :: saved one_field_state
  ∧ fieldCounter s' = fieldCounter one_field_state
  ∧ exampleCounter s' = exampleCounter one_field_state
  ∧ backendObject s' = backendObject one_field_state.
Proof.
  exact (removeField_of_absent_field one_field_state "field-5" []
           (TrackerPromptMaker.backend one_field_state) eq_refl eq_refl).
Defined.
(** ** The settings: the target of the popup *)

Section popup_facts.
Context (BOTH USER CHARACTER NONE : string).
Implicit Types s : Settings.popup_settings.

(** X19.  When the four generation targets are pairwise distinct,
    [updatePopupDropdown] offers the user and none when the character is
    generated, the character and none when the user is, none alone when
    both are, and all four when nothing is generated.  A popup setting
    that is among the options offered is kept, and no save is asked for;
    any other is reset to none, and a save is asked for.  So the popup
    target left is one of the options offered, and these never include
    the generation target itself, nor both sides unless nothing is
    generated; a second call then changes nothing and asks for no save.
    A generation target that is none of the four leaves no option at all
    and resets the popup setting to none. *)
Theorem updatePopupDropdown_keeps_apart s :
  NoDup [BOTH; USER; CHARACTER; NONE] →
  let known := Some <$> [BOTH; USER; CHARACTER; NONE] in
  let r := Settings.updatePopupDropdown BOTH USER CHARACTER NONE s in
  let s' := r.1.1 in
  (Settings.generationTarget s = Some CHARACTER → r.2 = [USER; NONE])
  ∧ (Settings.generationTarget s = Some USER → r.2 = [CHARACTER; NONE])
  ∧ (Settings.generationTarget s = Some BOTH → r.2 = [NONE])
  ∧ (Settings.generationTarget s = Some NONE → r.2 = [BOTH; USER; CHARACTER; NONE])
  ∧ (Settings.showPopupFor s ∈ Some <$> r.2 → s' = s ∧ r.1.2 = false)
  ∧ (Settings.showPopupFor s ∉ Some <$> r.2 →
     s' = Settings.PopupSettings (Settings.generationTarget s) (Some NONE)
     ∧ r.1.2 = true)
  ∧ Settings.generationTarget s' = Settings.generationTarget s
  ∧ (Settings.showPopupFor s' = Settings.showPopupFor s
     ∨ Settings.showPopupFor s' = Some NONE)
  ∧ (r.1.2 = true ↔ Settings.showPopupFor s ∉ Some <$> r.2)
  ∧ (Settings.generationTarget s ∈ known →
     Settings.showPopupFor s' ∈ Some <$> r.2
     ∧ NONE ∈ r.2
     ∧ (Settings.generationTarget s ≠ Some NONE →
        Settings.showPopupFor s' ≠ Settings.generationTarget s
        ∧ Settings.showPopupFor s' ≠ Some BOTH)
     ∧ Settings.updatePopupDropdown BOTH USER CHARACTER NONE s' = (s', false, r.2))
  ∧ (Settings.generationTarget s ∉ known →
     r.2 = [] ∧ Settings.showPopupFor s' = Some NONE).
Proof.
  intros Hnd known r s'. subst known r s'.
  apply NoDup_cons in Hnd as [H1 Hnd]. apply NoDup_cons in Hnd as [H2 Hnd].
  apply NoDup_cons in Hnd as [H3 _].
  assert (BOTH ≠ USER) as Hbu by (intros ->; apply H1; left).
  assert (BOTH ≠ CHARACTER) as Hbc by (intros ->; apply H1; right; left).
  assert (BOTH ≠ NONE) as Hbn by (intros ->; apply H1; right; right; left).
  assert (USER ≠ CHARACTER) as Huc by (intros ->; apply H2; left).
  assert (USER ≠ NONE) as Hun by (intros ->; apply H2; right; left).
  assert (CHARACTER ≠ NONE) as Hcn by (intros ->; apply H3; left).
  clear H1 H2 H3.
  destruct s as [tgt pop]. unfold Settings.updatePopupDropdown.
  cbn [Settings.generationTarget Settings.showPopupFor].
  assert (NONE ∈ Settings.availablePopupOptions BOTH USER CHARACTER NONE tgt
          ∨ Settings.availablePopupOptions BOTH USER CHARACTER NONE tgt = [])
    as Hnone.
  { unfold Settings.availablePopupOptions. destruct tgt as [t|]; [|by right].
    repeat case_decide; try (by right); left;
      repeat first [apply list_elem_of_here | apply list_elem_of_further]. }
  assert (tgt ∈ Some <$> [BOTH; USER; CHARACTER; NONE]
          ↔ tgt = Some BOTH ∨ tgt = Some USER ∨ tgt = Some CHARACTER
            ∨ tgt = Some NONE) as Hknown.
  { rewrite list_elem_of_fmap. split.
    - intros (t & -> & Ht).
      apply elem_of_cons in Ht as [->|Ht]; [by left|].
      apply elem_of_cons in Ht as [->|Ht]; [by right; left|].
      apply elem_of_cons in Ht as [->|Ht]; [by right; right; left|].
      apply elem_of_cons in Ht as [->|Ht]; [by right; right; right|].
      by apply elem_of_nil in Ht.
    - intros [->|[->|[->| ->]]]; eexists; (split; [done|]);
        repeat first [apply list_elem_of_here | apply list_elem_of_further]. }
  rewrite Hknown. clear Hknown.
  split_and!.
  - intros ->. cbn [snd Settings.availablePopupOptions].
    by case_bool_decide; cbn [snd]; rewrite decide_True.
  - intros ->. cbn [snd Settings.availablePopupOptions].
    by case_bool_decide; cbn [snd];
      rewrite decide_False, decide_True by congruence.
  - intros ->. cbn [snd Settings.availablePopupOptions].
    by case_bool_decide; cbn [snd];
      rewrite !decide_False, decide_True by congruence.
  - intros ->. cbn [snd Settings.availablePopupOptions].
    by case_bool_decide; cbn [snd];
      rewrite !decide_False, decide_True by congruence.
  - case_bool_decide; cbn [fst snd]; [done|]. by intros ?.
  - case_bool_decide; cbn [fst snd]; [by intros ?|done].
  - by case_bool_decide.
  - case_bool_decide; [by left|by right].
  - case_bool_decide; cbn [fst snd]; split; done.
  - intros Hk.
    assert (NONE ∈ Settings.availablePopupOptions BOTH USER CHARACTER NONE tgt) as Hin.
    { destruct Hnone as [|E]; [done|]. exfalso. revert E.
      unfold Settings.availablePopupOptions.
      destruct Hk as [->|[->|[->| ->]]]; by repeat case_decide. }
    case_bool_decide as Hpop;
      cbn [fst snd Settings.showPopupFor Settings.generationTarget].
    + split_and!; try done.
      * intros Hnn. revert Hpop. unfold Settings.availablePopupOptions.
        rewrite list_elem_of_fmap. intros (t & -> & Ht). revert Ht.
        destruct Hk as [->|[->|[->| ->]]]; try done;
          repeat case_decide; try congruence; intros Ht;
          repeat (apply elem_of_cons in Ht as [->|Ht]);
          try (by apply elem_of_nil in Ht); split; congruence.
      * by rewrite bool_decide_eq_true_2.
    + split_and!; try done.
      * by apply list_elem_of_fmap_2.
      * intros Hnn. split; intros E; [|congruence].
        rewrite <- E in Hnn. done.
      * rewrite bool_decide_eq_true_2; [done|]. by apply list_elem_of_fmap_2.
  - intros Hk. destruct Hnone as [Hin|E].
    + exfalso. apply Hk. revert Hin. unfold Settings.availablePopupOptions.
      destruct tgt as [t|]; [|by intros ?%elem_of_nil].
      repeat case_decide; subst; try (by intros ?%elem_of_nil); intros _; tauto.
    + rewrite E. cbn. rewrite bool_decide_eq_false_2 by (by intros ?%elem_of_nil).
      done.
Qed.

End popup_facts.

Lemma updatePopupDropdown_keeps_apart_witness :
  let s := Settings.PopupSettings (Some "character"%string) (Some "character"%string) in
  let r := Settings.updatePopupDropdown "both" "user" "character" "none" s in
  Settings.showPopupFor r.1.1 ∈ Some <$> r.2
  ∧ "none"%string ∈ r.2
  ∧ (Settings.generationTarget s ≠ Some "none"%string →
     Settings.showPopupFor r.1.1 ≠ Settings.generationTarget s
     ∧ Settings.showPopupFor r.1.1 ≠ Some "both"%string)
  ∧ Settings.updatePopupDropdown "both" "user" "character" "none" r.1.1
    = (r.1.1, false, r.2).
Proof.
  intros s r.
  assert (NoDup ["both"; "user"; "character"; "none"]%string) as Hnd.
  { apply (bool_decide_unpack _). vm_compute. exact I. }
  destruct (updatePopupDropdown_keeps_apart "both" "user" "character" "none" s Hnd)
    as (_ & _ & _ & _ & _ & _ & _ & _ & _ & H & _).
  apply H. vm_compute. do 2 apply list_elem_of_further. apply list_elem_of_here.
Defined.
